(** * todo-gpt: reference resolution, todo mutation, conversation history
      and command sequences

    A shallow embedding of [src/services/TodoService.ts], of the parts of
    [src/services/ListService.ts] the command handlers call, and of the chat
    and command-sequence handlers of [src/index.ts], followed by the
    properties the specification states about them.

    Modelling conventions.
    - A JavaScript string is a [string] of ASCII characters; [toLowerCase]
      and [trim] are the ASCII restrictions of the JavaScript methods.
    - A [Date] is its time value, an integer number of milliseconds.
    - [uuidv4()] and [new Date()] are inputs of the model: functions that
      allocate take the generated values as arguments, handlers draw them
      from a [World].
    - An array of todos is a [list TodoItem]; a function that mutates the
      array in place returns the new array next to its result.
    - A parsed command holds values of the types of the response schema.
      Where a property concerns what other values do, the code is modelled
      a second time on JavaScript numbers ([TodoServiceNumber]) and on any
      primitive value ([handleSwitchListAny]), and the loop and the chat
      turn are modelled around any command handler ([sequenceLoop],
      [chatTurn]). *)

From Stdlib Require Import ZArith Lia Ascii String DecimalString.
From stdpp Require Import base tactics option list strings.

Local Open Scope Z_scope.

(** ** JavaScript string methods *)

Module Js.

(** [c.toLowerCase()] for one ASCII character. *)
Definition lowerChar (c : ascii) : ascii :=
  let n := nat_of_ascii c in
  if ((65 <=? n) && (n <=? 90))%nat then ascii_of_nat (n + 32) else c.

(** [s.toLowerCase()]. *)
Fixpoint toLowerCase (s : string) : string :=
  match s with
  | EmptyString => EmptyString
  | String c s' => String (lowerChar c) (toLowerCase s')
  end.

(** [s.startsWith(p)]. *)
Fixpoint startsWith (s p : string) : bool :=
  match p, s with
  | EmptyString, _ => true
  | String _ _, EmptyString => false
  | String a p', String b s' => if ascii_dec a b then startsWith s' p' else false
  end.

(** [s.includes(sub)]: [sub] occurs at some offset of [s]. *)
Fixpoint includes (s sub : string) : bool :=
  startsWith s sub ||
  match s with
  | EmptyString => false
  | String _ s' => includes s' sub
  end.

(** [s.substring(0, n)]. *)
Definition substring0 (n : nat) (s : string) : string := String.substring 0 n s.

(** White space removed by [trim] (ASCII part): TAB, LF, VT, FF, CR, SP. *)
Definition isSpace (c : ascii) : bool :=
  let n := nat_of_ascii c in
  ((9 <=? n) && (n <=? 13) || (n =? 32))%nat.

Fixpoint trimStart (s : string) : string :=
  match s with
  | EmptyString => EmptyString
  | String c s' => if isSpace c then trimStart s' else s
  end.

(** Drops trailing white space: a character is kept when it is not white
    space or when something is kept after it. *)
Fixpoint trimEnd (s : string) : string :=
  match s with
  | EmptyString => EmptyString
  | String c s' =>
      match trimEnd s' with
      | EmptyString => if isSpace c then EmptyString else String c EmptyString
      | r => String c r
      end
  end.

(** [s.trim()]. *)
Definition trim (s : string) : string := trimEnd (trimStart s).

(** Truthiness of a string: the empty string is falsy. *)
Definition truthy (s : string) : bool :=
  match s with EmptyString => false | String _ _ => true end.

(** Truthiness of an optional string property ([undefined] is falsy). *)
Definition truthyOpt (o : option string) : bool :=
  match o with Some s => truthy s | None => false end.

(** [String(n)] for an integer. *)
Definition ofZ (n : Z) : string := NilZero.string_of_int (Z.to_int n).

(** The double-quote character as a string. *)
Definition dquote : string := String (ascii_of_nat 34) EmptyString.

End Js.

(** ** Data model ([src/types.ts]) *)

Inductive Priority : Type := high | medium | low.

Definition Date : Type := Z.

#[warnings="-register-all"]
Inductive TodoItem : Type := mkTodoItem {
  id : string;
  title : string;
  description : option string;
  dueDate : option Date;
  priority : option Priority;
  completed : bool;
  categories : option (list string);
  tags : option (list string);
  subtasks : option (list TodoItem);
  dependencies : option (list string);
  createdAt : Date;
  updatedAt : Date
}.

Record TodoList : Type := mkTodoList {
  list_id : string;
  name : string;
  todos : list TodoItem;
  list_createdAt : Date;
  list_updatedAt : Date
}.

(** ** [src/services/TodoService.ts] *)

Module TodoService.

(** The [options] argument of [createTodo]. *)
Record TodoOptions : Type := mkTodoOptions {
  opt_description : option string;
  opt_dueDate : option Date;
  opt_priority : option Priority;
  opt_categories : option (list string);
  opt_tags : option (list string)
}.

Definition noOptions : TodoOptions := mkTodoOptions None None None None None.

(** [createTodo(title, options)]; [newId] is the value of [uuidv4()],
    [t1] and [t2] the values of the two [new Date()]. *)
Definition createTodo (newId : string) (t1 t2 : Date)
    (title : string) (options : TodoOptions) : TodoItem :=
  {| id := newId;
     title := title;
     description := opt_description options;
     dueDate := opt_dueDate options;
     priority := opt_priority options;
     completed := false;
     categories := opt_categories options;
     tags := opt_tags options;
     subtasks := Some [];
     dependencies := Some [];
     createdAt := t1;
     updatedAt := t2 |}.

(** [addTodoToList]: pushes the new todo; returns it with the array. *)
Definition addTodoToList (todos : list TodoItem) (newId : string) (t1 t2 : Date)
    (title : string) (options : TodoOptions) : TodoItem * list TodoItem :=
  let newTodo := createTodo newId t1 t2 title options in
  (newTodo, todos ++ [newTodo]).

(** [todos.find(todo => todo.id === todoId) || null]. *)
Definition findTodoById (todos : list TodoItem) (todoId : string) : option TodoItem :=
  snd <$> list_find (λ todo, id todo = todoId) todos.

(** [todos.findIndex(todo => todo.id === todoId)], [None] for [-1]. *)
Definition findIndexById (todos : list TodoItem) (todoId : string) : option nat :=
  fst <$> list_find (λ todo, id todo = todoId) todos.

Definition findTodoByTitle (todos : list TodoItem) (s : string) : option TodoItem :=
  snd <$> list_find
    (λ todo, Js.includes (Js.toLowerCase (title todo)) (Js.toLowerCase s) = true) todos.

(** [findTodoByShortId]: [null] for a falsy or short [shortId], else the
    first todo whose id starts with the lowercased [shortId]. *)
Definition findTodoByShortId (todos : list TodoItem) (shortId : string) : option TodoItem :=
  if negb (Js.truthy shortId) || (String.length shortId <? 8)%nat then None
  else snd <$> list_find
         (λ todo, Js.startsWith (id todo) (Js.toLowerCase shortId) = true) todos.

(** The [reference] argument of [resolveTodoReference]. *)
Record Reference : Type := mkReference {
  shortId : option string;
  todoNumber : option Z;
  confirmTitle : option string
}.

(** The result object [{ todo, error }]. *)
Record Resolution : Type := mkResolution {
  todo : option TodoItem;
  error : option string
}.

(** The four error messages of [resolveTodoReference]. *)
Definition errNotFound (s : string) : string :=
  "No todo found with shortId: " +:+ s.
Definition errInvalidNumber (n : Z) : string :=
  "Invalid todo number: " +:+ Js.ofZ n.
Definition errNoIdentifier : string :=
  "No todo identifier provided (shortId or todoNumber required)".
Definition errTitleMismatch (expected found : string) : string :=
  "Title mismatch: expected " +:+ Js.dquote +:+ expected +:+ Js.dquote
    +:+ ", found " +:+ Js.dquote +:+ found +:+ Js.dquote.

Definition failWith (msg : string) : Resolution := mkResolution None (Some msg).

(** The [confirmTitle] safety check at the end of [resolveTodoReference]. *)
Definition verifyTitle (confirm : option string) (t : TodoItem) : Resolution :=
  match confirm with
  | Some c =>
      if Js.truthy c
         && negb (Js.includes (Js.toLowerCase (title t)) (Js.toLowerCase c))
      then failWith (errTitleMismatch c (title t))
      else mkResolution (Some t) None
  | None => mkResolution (Some t) None
  end.

(** [resolveTodoReference] on an integer [todoNumber]: [todos[todoIndex]]
    is read at a natural index once the bounds test has passed.
    [TodoServiceNumber.resolveTodoReference] below is the method on every
    JavaScript number. *)
Definition resolveTodoReference (todos : list TodoItem) (reference : Reference)
    : Resolution :=
  if Js.truthyOpt (shortId reference) then
    let s := default EmptyString (shortId reference) in
    match findTodoByShortId todos s with
    | None => failWith (errNotFound s)
    | Some t => verifyTitle (confirmTitle reference) t
    end
  else
    match todoNumber reference with
    | Some n =>
        let todoIndex := n - 1 in
        if (todoIndex <? 0) || (todoIndex >=? Z.of_nat (length todos))
        then failWith (errInvalidNumber n)
        else
          match todos !! Z.to_nat todoIndex with
          | Some t => verifyTitle (confirmTitle reference) t
          | None => mkResolution None None
          end
    | None => failWith errNoIdentifier
    end.

(** The shape [completeTodo], [uncompleteTodo] and [updateTodo] share:
    [findTodoById], then, if a todo was found, a mutation of that object
    and [true]; else [false]. The object is an element of the array, so
    the mutation shows at its index. *)
Definition modifyById (f : TodoItem → TodoItem) (todos : list TodoItem)
    (todoId : string) : bool * list TodoItem :=
  match list_find (λ todo, id todo = todoId) todos with
  | Some (i, t) => (true, <[i := f t]> todos)
  | None => (false, todos)
  end.

Definition setCompleted (c : bool) (now : Date) (t : TodoItem) : TodoItem :=
  {| id := id t; title := title t; description := description t;
     dueDate := dueDate t; priority := priority t;
     completed := c;
     categories := categories t; tags := tags t; subtasks := subtasks t;
     dependencies := dependencies t; createdAt := createdAt t;
     updatedAt := now |}.

(** [completeTodo]; [now] is the value of [new Date()]. *)
Definition completeTodo (todos : list TodoItem) (todoId : string) (now : Date)
    : bool * list TodoItem :=
  modifyById (setCompleted true now) todos todoId.

Definition uncompleteTodo (todos : list TodoItem) (todoId : string) (now : Date)
    : bool * list TodoItem :=
  modifyById (setCompleted false now) todos todoId.

(** [deleteTodo]: [splice(index, 1)] at the first index with that id. *)
Definition deleteTodo (todos : list TodoItem) (todoId : string)
    : bool * list TodoItem :=
  match findIndexById todos todoId with
  | Some index => (true, delete index todos)
  | None => (false, todos)
  end.

(** [Partial<TodoItem>]: [Some v] is an own property with value [v],
    [None] an absent property. For the optional fields of [TodoItem] the
    value itself may be [undefined] (inner [None]). *)
Record PartialTodo : Type := mkPartialTodo {
  p_id : option string;
  p_title : option string;
  p_description : option (option string);
  p_dueDate : option (option Date);
  p_priority : option (option Priority);
  p_completed : option bool;
  p_categories : option (option (list string));
  p_tags : option (option (list string));
  p_subtasks : option (option (list TodoItem));
  p_dependencies : option (option (list string));
  p_createdAt : option Date;
  p_updatedAt : option Date
}.

Definition noUpdates : PartialTodo :=
  mkPartialTodo None None None None None None None None None None None None.

(** [Object.assign(todo, updates, { updatedAt: now })]: every own property
    of [updates] overwrites the field, then [updatedAt] is set. *)
Definition assign (updates : PartialTodo) (now : Date) (t : TodoItem) : TodoItem :=
  {| id := default (id t) (p_id updates);
     title := default (title t) (p_title updates);
     description := default (description t) (p_description updates);
     dueDate := default (dueDate t) (p_dueDate updates);
     priority := default (priority t) (p_priority updates);
     completed := default (completed t) (p_completed updates);
     categories := default (categories t) (p_categories updates);
     tags := default (tags t) (p_tags updates);
     subtasks := default (subtasks t) (p_subtasks updates);
     dependencies := default (dependencies t) (p_dependencies updates);
     createdAt := default (createdAt t) (p_createdAt updates);
     updatedAt := now |}.

(** [updateTodo]. *)
Definition updateTodo (todos : list TodoItem) (todoId : string)
    (updates : PartialTodo) (now : Date) : bool * list TodoItem :=
  modifyById (assign updates now) todos todoId.

Definition getActiveTodos (todos : list TodoItem) : list TodoItem :=
  filter (λ t, completed t = false) todos.

Definition getCompletedTodos (todos : list TodoItem) : list TodoItem :=
  filter (λ t, completed t = true) todos.

End TodoService.

(** ** The interactive session of [src/index.ts]

    Handlers run against the process state (the lists of [ListService], the
    conversation history) and against collaborators the model does not
    control: the UUID generator, the clock, the date parser and the SQLite
    layer, whose calls may throw. They are gathered in a [World]; the state
    counts the calls made so far, and the [n]-th call gets the [n]-th answer. *)

Record World : Type := mkWorld {
  uuidv4 : nat → string;
  clock : nat → Date;
  (** [Some msg]: this database call throws [msg]. *)
  dbThrows : nat → option string;
  (** [new Date(year, month - 1, day)] from a [YYYY-MM-DD] string,
      [None] when the time value is [NaN]. *)
  parseLocalDate : string → option Date;
  (** [new Date(s)], [None] when the time value is [NaN]. *)
  parseDate : string → option Date
}.

(** One todo of [parsed.todos] in an [add_multiple_todos] command. *)
Record TodoData : Type := mkTodoData {
  d_title : option string;
  d_description : option string;
  d_priority : option string;
  d_dueDate : option string;
  d_categories : option (list string)
}.

Record Filter : Type := mkFilter {
  f_status : option string;
  f_priority : option string;
  f_category : option string
}.

(** A parsed command as the handlers read it: one field per property a
    handler looks at. The source takes an untyped object; a field here has
    the type the response schema ([schemas/todoCommandsSimple.ts]) gives
    the property, a string, an integer, an array, or [null]. *)
Record Command : Type := mkCommand {
  action : string;
  c_title : option string;
  c_description : option string;
  c_priority : option string;
  c_dueDate : option string;
  c_categories : option (list string);
  c_todos : option (list TodoData);
  c_todoNumber : option Z;
  c_index : option Z;
  c_name : option string;
  c_filter : option Filter;
  c_message : option string;
  c_originalInput : option string;
  c_error : option string
}.

(** A top-level response: a command that may carry a [commands] array.
    The members of the array carry none (the response schema gives them no
    such property). *)
Record Parsed : Type := mkParsed {
  base : Command;
  seq_description : option string;
  commands : option (list Command)
}.

(** What the handlers print, one constructor per message. *)
Inductive Output : Type :=
  | NoCurrentListSelected
  | MissingTodoTitle
  | AddedTodo (t : TodoItem) (listName : string)
  | FailedToAddTodo (err : string)
  | NoTodosFound
  | FailedToAddNamed (title : option string) (err : string)
  | AddedTodos (added : list TodoItem) (listName : string)
  | FailedToAddCount (n : nat)
  | FailedToProcessMultiple (err : string)
  | ListedTodos (listName : string) (filters : list string) (rows : list (Z * TodoItem))
  | InvalidTodoNumber
  | CompletedTodo (t : TodoItem)
  | FailedToComplete (err : string)
  | PriorityMustBeOneOf
  | DueDateMustBeDate
  | NoUpdatesSpecified
  | UpdatedTodo (t : TodoItem)
  | FailedToEdit (err : string)
  | MissingListName
  | ListAlreadyExists (name : string)
  | CreatedList (name : string)
  | FailedToCreateList (err : string)
  | SwitchedTo (name : string)
  | ListNotFound (name : string)
  | DeletedTodo (t : TodoItem)
  | FailedToDelete (err : string)
  | InvalidSequenceFormat
  | SuggestSequence (description : option string) (cmds : list Command)
  | AskExecute
  | ExecutingSequence
  | RunningStep (i n : nat) (cmd : Command)
  | CommandFailed (i : nat) (err : string)
  | StoppingSequence
  | SequenceCompleted
  | SequenceCancelled
  | Conversational (msg : option string)
  | CouldNotUnderstand (input : option string) (err : option string)
  | ProcessingMessage
  | DebugInfo (p : Parsed)
  | ChatFailed (err : string).

Record AppState : Type := mkAppState {
  lists : list TodoList;
  currentListId : option string;
  conversationHistory : list string;
  console : list Output;
  uuidCalls : nat;
  clockCalls : nat;
  dbCalls : nat
}.

Definition initialState : AppState := mkAppState [] None [] [] 0 0 0.

(** *** A state monad with exceptions *)

Inductive Outcome (A : Type) : Type :=
  | Returned (a : A)
  | Thrown (err : string).
Arguments Returned {A} a.
Arguments Thrown {A} err.

Definition M (A : Type) : Type := AppState → Outcome A * AppState.

Definition ret {A} (a : A) : M A := λ s, (Returned a, s).

Definition bind {A B} (m : M A) (k : A → M B) : M B :=
  λ s, match m s with
       | (Returned a, s') => k a s'
       | (Thrown e, s') => (Thrown e, s')
       end.

Definition throw {A} (err : string) : M A := λ s, (Thrown err, s).

(** [try { body } catch (error) { handler(error) }]: the state reached when
    the exception was thrown is kept. *)
Definition tryCatch {A} (body : M A) (handler : string → M A) : M A :=
  λ s, match body s with
       | (Returned a, s') => (Returned a, s')
       | (Thrown e, s') => handler e s'
       end.

Definition get : M AppState := λ s, (Returned s, s).
Definition modify (f : AppState → AppState) : M unit := λ s, (Returned tt, f s).

Declare Scope m_scope.
Delimit Scope m_scope with M.
Notation "'let*' x := m 'in' k" := (bind m (λ x, k))
  (at level 10, x name, m at level 100, k at level 200) : m_scope.
Notation "m ;;; k" := (bind m (λ _, k))
  (at level 100, k at level 200, right associativity) : m_scope.

(** The state a computation ends in, and whether it threw. *)
Definition exec {A} (m : M A) (s : AppState) : AppState := snd (m s).
Definition threw {A} (m : M A) (s : AppState) : bool :=
  match fst (m s) with Returned _ => false | Thrown _ => true end.

Definition setLists (l : list TodoList) (s : AppState) : AppState :=
  mkAppState l (currentListId s) (conversationHistory s) (console s)
    (uuidCalls s) (clockCalls s) (dbCalls s).
Definition setCurrentListId (c : option string) (s : AppState) : AppState :=
  mkAppState (lists s) c (conversationHistory s) (console s)
    (uuidCalls s) (clockCalls s) (dbCalls s).
Definition setHistory (h : list string) (s : AppState) : AppState :=
  mkAppState (lists s) (currentListId s) h (console s)
    (uuidCalls s) (clockCalls s) (dbCalls s).
Definition setConsole (c : list Output) (s : AppState) : AppState :=
  mkAppState (lists s) (currentListId s) (conversationHistory s) c
    (uuidCalls s) (clockCalls s) (dbCalls s).

(** [console.log]. *)
Definition log (o : Output) : M unit := modify (λ s, setConsole (console s ++ [o]) s).

Section Handlers.

Variable W : World.

Local Open Scope m_scope.

(** [uuidv4()], [new Date()] and a call into [DatabaseService]. *)
Definition freshUuid : M string :=
  λ s, (Returned (uuidv4 W (uuidCalls s)),
        mkAppState (lists s) (currentListId s) (conversationHistory s)
          (console s) (S (uuidCalls s)) (clockCalls s) (dbCalls s)).

Definition newDate : M Date :=
  λ s, (Returned (clock W (clockCalls s)),
        mkAppState (lists s) (currentListId s) (conversationHistory s)
          (console s) (uuidCalls s) (S (clockCalls s)) (dbCalls s)).

Definition dbCall : M unit :=
  λ s, let s' := mkAppState (lists s) (currentListId s) (conversationHistory s)
                   (console s) (uuidCalls s) (clockCalls s) (S (dbCalls s)) in
       match dbThrows W (dbCalls s) with
       | Some e => (Thrown e, s')
       | None => (Returned tt, s')
       end.

(** *** [ListService] *)

(** Index and value of the current list: [getCurrentList]. *)
Definition currentListEntry (s : AppState) : option (nat * TodoList) :=
  match currentListId s with
  | Some cid =>
      if Js.truthy cid then list_find (λ l, list_id l = cid) (lists s) else None
  | None => None
  end.

Definition getCurrentList : M (option TodoList) :=
  let* s := get in ret (snd <$> currentListEntry s).

(** Stores a new [todos] array in the current list (the source mutates
    the array the list object holds). *)
Definition setCurrentTodos (ts : list TodoItem) : M unit :=
  modify (λ s,
    match currentListEntry s with
    | Some (i, l) =>
        setLists (<[i := mkTodoList (list_id l) (name l) ts
                          (list_createdAt l) (list_updatedAt l)]> (lists s)) s
    | None => s
    end).

Definition noCurrentList : string := "Error: No current list selected".

Definition findListByName (nm : string) : M (option TodoList) :=
  let* s := get in
  ret (snd <$> list_find
         (λ l, Js.toLowerCase (name l) = Js.toLowerCase nm) (lists s)).

Definition createList (nm : string) : M TodoList :=
  let* newId := freshUuid in
  let* t1 := newDate in
  let* t2 := newDate in
  let newList := mkTodoList newId nm [] t1 t2 in
  dbCall ;;;
  modify (λ s, setLists (lists s ++ [newList]) s) ;;;
  modify (λ s, match currentListId s with
               | None => setCurrentListId (Some newId) s
               | Some _ => s
               end) ;;;
  ret newList.

Definition setCurrentListByName (nm : string) : M bool :=
  let* l := findListByName nm in
  match l with
  | Some l => modify (setCurrentListId (Some (list_id l))) ;;; ret true
  | None => ret false
  end.

Definition addTodoToCurrentList (t : TodoItem) : M unit :=
  let* cur := getCurrentList in
  match cur with
  | None => throw noCurrentList
  | Some l => dbCall ;;; setCurrentTodos (todos l ++ [t])
  end.

Definition updateTodoInCurrentList (t : TodoItem) : M unit := dbCall.

Definition deleteTodoFromCurrentList (todoId : string) : M unit :=
  let* cur := getCurrentList in
  match cur with
  | None => throw noCurrentList
  | Some l =>
      dbCall ;;;
      match TodoService.findIndexById (todos l) todoId with
      | Some index => setCurrentTodos (delete index (todos l))
      | None => ret tt
      end
  end.

(** *** Command handlers *)

Definition parsePriority (s : string) : option Priority :=
  if decide (s = "high") then Some high
  else if decide (s = "medium") then Some medium
  else if decide (s = "low") then Some low
  else None.

Definition priorityName (p : Priority) : string :=
  match p with high => "high" | medium => "medium" | low => "low" end.

(** The options both add handlers build from the parsed fields. *)
Definition buildOptions (pr due : option string) (cats : option (list string))
    (descr : option string) : TodoService.TodoOptions :=
  {| TodoService.opt_description :=
       if Js.truthyOpt descr then descr else None;
     TodoService.opt_dueDate :=
       if Js.truthyOpt due then parseLocalDate W (default EmptyString due) else None;
     TodoService.opt_priority :=
       if Js.truthyOpt pr then parsePriority (default EmptyString pr) else None;
     TodoService.opt_categories := cats;
     TodoService.opt_tags := None |}.

Definition createTodoM (ttl : string) (options : TodoService.TodoOptions)
    : M TodoItem :=
  let* newId := freshUuid in
  let* t1 := newDate in
  let* t2 := newDate in
  ret (TodoService.createTodo newId t1 t2 ttl options).

Definition handleAddTodo (parsed : Command) : M unit :=
  let* cur := getCurrentList in
  match cur with
  | None => log NoCurrentListSelected
  | Some currentList =>
      if negb (Js.truthyOpt (c_title parsed)) then log MissingTodoTitle
      else
        tryCatch
          (let options := buildOptions (c_priority parsed) (c_dueDate parsed)
                            (c_categories parsed) (c_description parsed) in
           let* newTodo := createTodoM (default EmptyString (c_title parsed)) options in
           addTodoToCurrentList newTodo ;;;
           log (AddedTodo newTodo (name currentList)))
          (λ e, log (FailedToAddTodo e))
  end.

(** The loop of [handleAddMultipleTodos]; the accumulator is
    [(successCount as the added todos, failureCount)]. *)
Fixpoint addEach (ds : list TodoData) (added : list TodoItem) (failures : nat)
    : M (list TodoItem * nat) :=
  match ds with
  | [] => ret (added, failures)
  | d :: ds' =>
      if negb (Js.truthyOpt (d_title d)) then addEach ds' added (S failures)
      else
        let* r :=
          tryCatch
            (let options := buildOptions (d_priority d) (d_dueDate d)
                              (d_categories d) (d_description d) in
             let* newTodo := createTodoM (default EmptyString (d_title d)) options in
             addTodoToCurrentList newTodo ;;;
             ret (added ++ [newTodo], failures))
            (λ e, log (FailedToAddNamed (d_title d) e) ;;;
                  ret (added, S failures)) in
        addEach ds' (fst r) (snd r)
  end.

Definition handleAddMultipleTodos (parsed : Command) : M unit :=
  let* cur := getCurrentList in
  match cur with
  | None => log NoCurrentListSelected
  | Some currentList =>
      match c_todos parsed with
      | None | Some [] => log NoTodosFound
      | Some ds =>
          tryCatch
            (let* r := addEach ds [] 0%nat in
             (if (0 <? length (fst r))%nat
              then log (AddedTodos (fst r) (name currentList)) else ret tt) ;;;
             (if (0 <? snd r)%nat
              then log (FailedToAddCount (snd r)) else ret tt))
            (λ e, log (FailedToProcessMultiple e))
      end
  end.

(** [todo.categories && todo.categories.includes(c)]. *)
Definition hasCategory (c : string) (t : TodoItem) : bool :=
  match categories t with
  | Some cs => bool_decide (c ∈ cs)
  | None => false
  end.

(** The filters of [handleListTodos], applied in the source's order. *)
Definition applyFilter (f : option Filter) (ts : list TodoItem)
    : list TodoItem * list string :=
  match f with
  | None => (ts, [])
  | Some f =>
      let '(ts1, d1) :=
        match f_status f with
        | Some st =>
            if decide (st = "completed")
            then (filter (λ t, completed t = true) ts, ["completed"])
            else if decide (st = "active")
            then (filter (λ t, completed t = false) ts, ["active"])
            else (ts, [])
        | None => (ts, [])
        end in
      let '(ts2, d2) :=
        if Js.truthyOpt (f_priority f)
        then (filter (λ t, priorityName <$> priority t = f_priority f) ts1,
              d1 ++ [default EmptyString (f_priority f) +:+ " priority"])
        else (ts1, d1) in
      if Js.truthyOpt (f_category f)
      then (filter (λ t, hasCategory (default EmptyString (f_category f)) t = true) ts2,
            d2 ++ ["category: " +:+ default EmptyString (f_category f)])
      else (ts2, d2)
  end.

Definition handleListTodos (parsed : Command) : M unit :=
  let* cur := getCurrentList in
  match cur with
  | None => log NoCurrentListSelected
  | Some currentList =>
      let '(filtered, descr) := applyFilter (c_filter parsed) (todos currentList) in
      log (ListedTodos (name currentList) descr
             (map (λ t, (match TodoService.findIndexById (todos currentList) (id t) with
                         | Some i => Z.of_nat i + 1
                         | None => 0
                         end, t)) filtered))
  end.

(** [(parsed.todoNumber || parsed.index) - 1] with its validity test:
    the index when it is a number within the array, else [None]. *)
Definition todoIndexOf (parsed : Command) (len : nat) : option nat :=
  let numberOrIndex :=
    match c_todoNumber parsed with
    | Some n => if n =? 0 then c_index parsed else Some n
    | None => c_index parsed
    end in
  match numberOrIndex with
  | None => None
  | Some k =>
      let todoIndex := k - 1 in
      if (todoIndex <? 0) || (todoIndex >=? Z.of_nat len) then None
      else Some (Z.to_nat todoIndex)
  end.

(** [todoService.completeTodo] on the current list's array. *)
Definition completeTodoM (ts : list TodoItem) (todoId : string) : M bool :=
  match TodoService.findTodoById ts todoId with
  | Some _ =>
      let* now := newDate in
      let r := TodoService.completeTodo ts todoId now in
      setCurrentTodos (snd r) ;;; ret (fst r)
  | None => ret false
  end.

Definition updateTodoM (ts : list TodoItem) (todoId : string)
    (updates : TodoService.PartialTodo) : M bool :=
  match TodoService.findTodoById ts todoId with
  | Some _ =>
      let* now := newDate in
      let r := TodoService.updateTodo ts todoId updates now in
      setCurrentTodos (snd r) ;;; ret (fst r)
  | None => ret false
  end.

(** The object the handler holds as [todo] is the element at [todoIndex];
    after the service mutated the array in place it is read there again. *)
Definition reread (todoIndex : nat) (fallback : TodoItem) : M TodoItem :=
  let* cur := getCurrentList in
  ret (default fallback (cur ≫= λ l, todos l !! todoIndex)).

Definition handleCompleteTodo (parsed : Command) : M unit :=
  let* cur := getCurrentList in
  match cur with
  | None => log NoCurrentListSelected
  | Some currentList =>
      match todoIndexOf parsed (length (todos currentList)) with
      | None => log InvalidTodoNumber
      | Some todoIndex =>
          match todos currentList !! todoIndex with
          | None => log InvalidTodoNumber
          | Some t =>
              tryCatch
                (completeTodoM (todos currentList) (id t) ;;;
                 let* t' := reread todoIndex t in
                 updateTodoInCurrentList t' ;;;
                 log (CompletedTodo t'))
                (λ e, log (FailedToComplete e))
          end
      end
  end.

(** The [updates] object of [handleEditTodo]: [inl] is the message of an
    early return, [inr] the updates with the [hasUpdates] flag. *)
Definition buildUpdates (parsed : Command)
    : Output + (TodoService.PartialTodo * bool) :=
  let u0 := TodoService.noUpdates in
  let '(uTitle, h1) :=
    if Js.truthyOpt (c_title parsed) then (c_title parsed, true) else (None, false) in
  let afterPriority :=
    if Js.truthyOpt (c_priority parsed) then
      match parsePriority (default EmptyString (c_priority parsed)) with
      | Some p => inr (Some (Some p), true)
      | None => inl PriorityMustBeOneOf
      end
    else inr (None, h1) in
  match afterPriority with
  | inl o => inl o
  | inr (uPriority, h2) =>
      let afterDue :=
        if Js.truthyOpt (c_dueDate parsed) then
          match parseDate W (default EmptyString (c_dueDate parsed)) with
          | Some d => inr (Some (Some d), true)
          | None => inl DueDateMustBeDate
          end
        else inr (None, h2) in
      match afterDue with
      | inl o => inl o
      | inr (uDue, h3) =>
          let '(uCats, h4) :=
            match c_categories parsed with
            | Some cs => (Some (Some cs), true)
            | None => (None, h3)
            end in
          inr (TodoService.mkPartialTodo
                 (TodoService.p_id u0) uTitle (TodoService.p_description u0)
                 uDue uPriority (TodoService.p_completed u0) uCats
                 (TodoService.p_tags u0) (TodoService.p_subtasks u0)
                 (TodoService.p_dependencies u0) (TodoService.p_createdAt u0)
                 (TodoService.p_updatedAt u0), h4)
      end
  end.

Definition handleEditTodo (parsed : Command) : M unit :=
  let* cur := getCurrentList in
  match cur with
  | None => log NoCurrentListSelected
  | Some currentList =>
      match todoIndexOf parsed (length (todos currentList)) with
      | None => log InvalidTodoNumber
      | Some todoIndex =>
          match todos currentList !! todoIndex with
          | None => log InvalidTodoNumber
          | Some t =>
              tryCatch
                (match buildUpdates parsed with
                 | inl o => log o
                 | inr (_, false) => log NoUpdatesSpecified
                 | inr (updates, true) =>
                     updateTodoM (todos currentList) (id t) updates ;;;
                     let* t' := reread todoIndex t in
                     updateTodoInCurrentList t' ;;;
                     log (UpdatedTodo t')
                 end)
                (λ e, log (FailedToEdit e))
          end
      end
  end.

Definition handleCreateList (parsed : Command) : M unit :=
  if negb (Js.truthyOpt (c_name parsed)) then log MissingListName
  else
    let nm := default EmptyString (c_name parsed) in
    let* existing := findListByName nm in
    match existing with
    | Some _ => log (ListAlreadyExists nm)
    | None =>
        tryCatch
          (let* newList := createList nm in log (CreatedList (name newList)))
          (λ e, log (FailedToCreateList e))
    end.

Definition handleSwitchList (parsed : Command) : M unit :=
  if negb (Js.truthyOpt (c_name parsed)) then log MissingListName
  else
    let nm := default EmptyString (c_name parsed) in
    let* ok := setCurrentListByName nm in
    if ok then log (SwitchedTo nm) else log (ListNotFound nm).

Definition handleDeleteTodo (parsed : Command) : M unit :=
  let* cur := getCurrentList in
  match cur with
  | None => log NoCurrentListSelected
  | Some currentList =>
      match todoIndexOf parsed (length (todos currentList)) with
      | None => log InvalidTodoNumber
      | Some todoIndex =>
          match todos currentList !! todoIndex with
          | None => log InvalidTodoNumber
          | Some t =>
              tryCatch
                (deleteTodoFromCurrentList (id t) ;;; log (DeletedTodo t))
                (λ e, log (FailedToDelete e))
          end
      end
  end.

(** The [switch] of [handleParsedCommand]; [onSequence] is what the
    [command_sequence] case runs. *)
Definition dispatch (parsed : Command) (onSequence : M unit) : M unit :=
  let a := action parsed in
  if decide (a = "add_todo") then handleAddTodo parsed
  else if decide (a = "add_multiple_todos") then handleAddMultipleTodos parsed
  else if decide (a = "list_todos") then handleListTodos parsed
  else if decide (a = "complete_todo") then handleCompleteTodo parsed
  else if decide (a = "edit_todo") then handleEditTodo parsed
  else if decide (a = "create_list") then handleCreateList parsed
  else if decide (a = "switch_list") then handleSwitchList parsed
  else if decide (a = "delete_todo") then handleDeleteTodo parsed
  else if decide (a = "command_sequence") then onSequence
  else if decide (a = "conversational") then log (Conversational (c_message parsed))
  else log (CouldNotUnderstand (c_originalInput parsed) (c_error parsed)).

(** [handleParsedCommand] on a member of a command sequence. A member has
    no [commands] array, so its [command_sequence] case ends in
    [handleCommandSequence]'s format check. *)
Definition handleParsedCommand (cmd : Command) : M unit :=
  dispatch cmd (log InvalidSequenceFormat).

(** Runs a computation and hands its outcome to the continuation, as the
    [try]/[catch] inside the sequence loop does. *)
Definition attempt {A} (m : M A) : M (Outcome A) :=
  λ s, let '(o, s') := m s in (Returned o, s').

(** The [for] loop of the confirmation handler, from step [i] (0-based)
    of [n]. *)
Fixpoint runSequence (i n : nat) (cmds : list Command) : M unit :=
  match cmds with
  | [] => log SequenceCompleted
  | cmd :: rest =>
      log (RunningStep (S i) n cmd) ;;;
      let* o := attempt (handleParsedCommand cmd) in
      match o with
      | Returned _ => runSequence (S i) n rest
      | Thrown e => log (CommandFailed (S i) e) ;;; log StoppingSequence
      end
  end.

(** [answer.trim().toLowerCase()]. *)
Definition normalizeAnswer (answer : string) : string :=
  Js.toLowerCase (Js.trim answer).

Definition isAffirmative (trimmedAnswer : string) : bool :=
  bool_decide (trimmedAnswer = "y") || bool_decide (trimmedAnswer = "yes").

(** [handleCommandSequence]; [answer] is the line the confirmation
    handler receives. *)
Definition handleCommandSequence (parsed : Parsed) (answer : string) : M unit :=
  match commands parsed with
  | None => log InvalidSequenceFormat
  | Some cmds =>
      log (SuggestSequence (seq_description parsed) cmds) ;;;
      log AskExecute ;;;
      let trimmedAnswer := normalizeAnswer answer in
      if decide (trimmedAnswer = EmptyString) then ret tt
      else if isAffirmative trimmedAnswer then
        log ExecutingSequence ;;;
        runSequence 0 (length cmds) cmds
      else log SequenceCancelled
  end.

(** [handleParsedCommand] on a top-level response. *)
Definition handleParsedResponse (parsed : Parsed) (answer : string) : M unit :=
  dispatch (base parsed) (handleCommandSequence parsed answer).

(** *** Chat mode *)

Definition maxConversationHistory : nat := 10.

(** [while (history.length > max) history.shift()]. *)
Fixpoint trimHistory (h : list string) : list string :=
  match h with
  | [] => []
  | _ :: h' => if (maxConversationHistory <? length h)%nat then trimHistory h' else h
  end.

Definition pushHistory (entry : string) : M unit :=
  modify (λ s, setHistory (conversationHistory s ++ [entry]) s).

(** Rendering of an optional property inside a template literal. *)
Definition showOpt (o : option string) : string := default "undefined" o.

(** [handleChatMessage]; [llm] is the outcome of [chatWithAI], [answer]
    the confirmation line if the response is a command sequence. *)
Definition handleChatMessage (message : string) (llm : Outcome Parsed)
    (answer : string) : M unit :=
  tryCatch
    (log ProcessingMessage ;;;
     let* response := match llm with
                      | Returned r => ret r
                      | Thrown e => throw e
                      end in
     log (DebugInfo response) ;;;
     pushHistory ("User: " +:+ message) ;;;
     (if decide (action (base response) = "conversational") then
        log (Conversational (c_message (base response))) ;;;
        pushHistory ("Assistant: " +:+ showOpt (c_message (base response)))
      else
        handleParsedResponse response answer ;;;
        pushHistory ("Assistant: Executed " +:+ action (base response) +:+ " command")) ;;;
     modify (λ s, setHistory (trimHistory (conversationHistory s)) s))
    (λ e, log (ChatFailed e)).

End Handlers.

(** ** Notions the properties are stated with *)

(** The number of todos whose id starts with the lowercased [shortId]. *)
Definition matchCount (todos : list TodoItem) (s : string) : nat :=
  length (filter (λ t, Js.startsWith (id t) (Js.toLowerCase s) = true) todos).

(** The short id shown to users: [todo.id.substring(0, 8)]. *)
Definition shortIdOf (t : TodoItem) : string := Js.substring0 8 (id t).

(** A reference by short id alone. *)
Definition byShortId (s : string) : TodoService.Reference :=
  TodoService.mkReference (Some s) None None.

(** An add or a delete on a list of todos, with the values the add draws
    from the UUID generator and the clock. *)
Inductive ListOp : Type :=
  | OpAdd (newId : string) (t1 t2 : Date) (title : string)
          (options : TodoService.TodoOptions)
  | OpDelete (todoId : string).

Definition applyOp (todos : list TodoItem) (op : ListOp) : list TodoItem :=
  match op with
  | OpAdd newId t1 t2 ttl options =>
      snd (TodoService.addTodoToList todos newId t1 t2 ttl options)
  | OpDelete todoId => snd (TodoService.deleteTodo todos todoId)
  end.

Definition applyOps (todos : list TodoItem) (ops : list ListOp) : list TodoItem :=
  foldl applyOp todos ops.

(** No delete of the sequence names the id of [t]. *)
Definition neverDeletes (t : TodoItem) (ops : list ListOp) : Prop :=
  ∀ todoId, OpDelete todoId ∈ ops → todoId ≠ id t.

(** The two entries [handleChatMessage] records for a response. *)
Definition userEntry (message : string) : string := "User: " +:+ message.

Definition assistantEntry (response : Parsed) : string :=
  if decide (action (base response) = "conversational")
  then "Assistant: " +:+ showOpt (c_message (base response))
  else "Assistant: Executed " +:+ action (base response) +:+ " command".

(** The last [n] elements of a list. *)
Definition lastN {A} (n : nat) (l : list A) : list A := drop (length l - n) l.

(** Every field of [t'] other than [completed] and [updatedAt] is the
    field of [t]. *)
Definition sameOtherFields (t t' : TodoItem) : Prop :=
  id t' = id t ∧ title t' = title t ∧ description t' = description t
  ∧ dueDate t' = dueDate t ∧ priority t' = priority t
  ∧ categories t' = categories t ∧ tags t' = tags t
  ∧ subtasks t' = subtasks t ∧ dependencies t' = dependencies t
  ∧ createdAt t' = createdAt t.

(** *** Sample data *)

Definition milkTodo : TodoItem :=
  TodoService.createTodo "abcdef01-1111-4111-8111-111111111111" 0 0
    "Buy milk" TodoService.noOptions.

Definition dogTodo : TodoItem :=
  TodoService.createTodo "abcdef01-2222-4222-8222-222222222222" 1 1
    "Walk dog" TodoService.noOptions.

Definition reportTodo : TodoItem :=
  TodoService.createTodo "0f1e2d3c-3333-4333-8333-333333333333" 2 2
    "Finish report" TodoService.noOptions.

Definition momOp : ListOp :=
  OpAdd "77777777-4444-4444-8444-444444444444" 5 6 "Call mom" TodoService.noOptions.

(** An update payload that carries an [id] property. *)
Definition idPayload : TodoService.PartialTodo :=
  TodoService.mkPartialTodo (Some "99999999-9999-4999-8999-999999999999")
    None None None None None None None None None None None.

(** An update payload with a title only. *)
Definition titlePayload : TodoService.PartialTodo :=
  TodoService.mkPartialTodo None (Some "Buy oat milk")
    None None None None None None None None None None.

(** *** Notions about handlers *)

(** A computation that never throws. *)
Definition returns {A} (m : M A) : Prop :=
  ∀ s, ∃ a s', m s = (Returned a, s').

(** A computation that leaves the conversation history alone. *)
Definition keepsHistory {A} (m : M A) : Prop :=
  ∀ s, conversationHistory (snd (m s)) = conversationHistory s.

(** Running every command of a sequence in order, whatever happens. *)
Fixpoint runAll (W : World) (i n : nat) (cmds : list Command) : M unit :=
  match cmds with
  | [] => log SequenceCompleted
  | cmd :: rest =>
      bind (log (RunningStep (S i) n cmd)) (λ _,
      bind (handleParsedCommand W cmd) (λ _, runAll W (S i) n rest))
  end.

(** The outputs a command sequence prints when it is not executed. *)
Definition isPromptOutput (o : Output) : Prop :=
  match o with
  | InvalidSequenceFormat | SuggestSequence _ _ | AskExecute | SequenceCancelled => True
  | _ => False
  end.

(** A chat session: one [handleChatMessage] per input line, each with the
    outcome of the language-model call and the confirmation line. *)
Definition chatSession (W : World) (inputs : list (string * Outcome Parsed * string))
    (s : AppState) : AppState :=
  foldl (λ st '(message, llm, answer), exec (handleChatMessage W message llm answer) st)
    s inputs.

(** *** A sample session *)

Definition sampleWorld : World :=
  {| uuidv4 := λ n, match n with
                    | 0%nat => "10000000-0000-4000-8000-000000000000"
                    | 1%nat => "20000000-0000-4000-8000-000000000000"
                    | 2%nat => "30000000-0000-4000-8000-000000000000"
                    | _ => "f0000000-0000-4000-8000-000000000000"
                    end;
     clock := Z.of_nat;
     dbThrows := λ _, None;
     parseLocalDate := λ _, None;
     parseDate := λ _, None |}.

(** The state after start-up: one list, [Personal], which is current. *)
Definition sampleState : AppState :=
  exec (createList sampleWorld "Personal") initialState.

Definition plainCommand (act : string) : Command :=
  mkCommand act None None None None None None None None None None None None None.

Definition addCommand (ttl : option string) : Command :=
  mkCommand "add_todo" ttl None None None None None None None None None None None None.

Definition completeCommand (n : Z) : Command :=
  mkCommand "complete_todo" None None None None None None (Some n) None None None
    None None None.

(** Add, add without a title, add. *)
Definition sampleBatch : Parsed :=
  mkParsed (plainCommand "command_sequence") None
    (Some [addCommand (Some "Buy milk"); addCommand None; addCommand (Some "Walk dog")]).

(** Add, complete todo number 7, add. *)
Definition sampleBatchBadNumber : Parsed :=
  mkParsed (plainCommand "command_sequence") None
    (Some [addCommand (Some "Buy milk"); completeCommand 7; addCommand (Some "Walk dog")]).

Definition currentTitles (s : AppState) : list string :=
  match currentListEntry s with
  | Some (_, l) => map title (todos l)
  | None => []
  end.

(** A conversational reply, and a session whose history already holds
    nine entries. *)
Definition sampleReply : Parsed :=
  mkParsed
    (mkCommand "conversational" None None None None None None None None None None
       (Some "You have no todos.") None None)
    None None.

Definition busyState : AppState :=
  setHistory
    [ "User: a"; "Assistant: b"; "User: c"; "Assistant: d"; "User: e";
      "Assistant: f"; "User: g"; "Assistant: h"; "User: i" ]
    sampleState.

(** ** More of [ListService] and of the line handler of [src/index.ts] *)

Section ListCommands.

Variable W : World.

Local Open Scope m_scope.

(** [getAllLists]. *)
Definition getAllLists : M (list TodoList) :=
  let* s := get in ret (lists s).

(** [setCurrentList]. *)
Definition setCurrentList (listId : string) : M bool :=
  let* s := get in
  match list_find (λ l, list_id l = listId) (lists s) with
  | Some _ => modify (setCurrentListId (Some listId)) ;;; ret true
  | None => ret false
  end.

(** [clearCurrentList]: the list gets a new, empty array. *)
Definition clearCurrentList : M unit :=
  let* cur := getCurrentList in
  match cur with
  | None => throw noCurrentList
  | Some _ => dbCall W ;;; setCurrentTodos []
  end.

(** [deleteList]. *)
Definition deleteList (listId : string) : M bool :=
  let* s := get in
  match fst <$> list_find (λ l, list_id l = listId) (lists s) with
  | None => ret false
  | Some index =>
      dbCall W ;;;
      modify (λ s, setLists (delete index (lists s)) s) ;;;
      modify (λ s, if decide (currentListId s = Some listId)
                   then setCurrentListId (list_id <$> head (lists s)) s
                   else s) ;;;
      ret true
  end.

(** [s.substring(n)]. *)
Fixpoint substringFrom (n : nat) (s : string) : string :=
  match n, s with
  | O, _ => s
  | S n', String _ s' => substringFrom n' s'
  | S _, EmptyString => EmptyString
  end.

(** What the list commands of the line handler print. The model returns
    the messages of a branch as its result. *)
Inductive SlashOutput : Type :=
  | PleaseSpecifyListName
  | SlashListExists (name : string)
  | SlashCreatedList (name : string)
  | SlashFailedToCreateList (err : string)
  | SlashSwitchedTo (name : string)
  | SlashListNotFound (name : string)
  | SlashNoCurrentList
  | SlashAlreadyEmpty (name : string)
  | SlashCleared (name : string)
  | SlashCannotDeleteOnlyList (name : string)
  | SlashDeletedList (name : string)
  | SlashNowCurrent (name : string)
  | SlashNoListsRemaining
  | SlashFailedToDeleteList (name : string).

(** The branch [trimmedInput.startsWith('/create ')]. *)
Definition slashCreate (trimmedInput : string) : M (list SlashOutput) :=
  let listName := Js.trim (substringFrom 8 trimmedInput) in
  if negb (Js.truthy listName) then ret [PleaseSpecifyListName]
  else
    let* existing := findListByName listName in
    match existing with
    | Some _ => ret [SlashListExists listName]
    | None =>
        tryCatch
          (let* newList := createList W listName in
           ret [SlashCreatedList (name newList)])
          (λ e, ret [SlashFailedToCreateList e])
    end.

(** The branch [trimmedInput.startsWith('/switch ')]. *)
Definition slashSwitch (trimmedInput : string) : M (list SlashOutput) :=
  let listName := Js.trim (substringFrom 8 trimmedInput) in
  if negb (Js.truthy listName) then ret [PleaseSpecifyListName]
  else
    let* ok := setCurrentListByName listName in
    if ok then ret [SlashSwitchedTo listName] else ret [SlashListNotFound listName].

(** The branch [trimmedInput === '/clear']. *)
Definition slashClear : M (list SlashOutput) :=
  let* cur := getCurrentList in
  match cur with
  | None => ret [SlashNoCurrentList]
  | Some currentList =>
      if (length (todos currentList) =? 0)%nat
      then ret [SlashAlreadyEmpty (name currentList)]
      else clearCurrentList ;;; ret [SlashCleared (name currentList)]
  end.

(** The branch [trimmedInput.startsWith('/delete-list ')]. *)
Definition slashDeleteList (trimmedInput : string) : M (list SlashOutput) :=
  let listName := Js.trim (substringFrom 13 trimmedInput) in
  if negb (Js.truthy listName) then ret [PleaseSpecifyListName]
  else
    let* targetList := findListByName listName in
    match targetList with
    | None => ret [SlashListNotFound listName]
    | Some target =>
        let* allLists := getAllLists in
        if (length allLists =? 1)%nat then ret [SlashCannotDeleteOnlyList listName]
        else
          let* success := deleteList (list_id target) in
          if success then
            let* newCurrentList := getCurrentList in
            match newCurrentList with
            | Some l => ret [SlashDeletedList listName; SlashNowCurrent (name l)]
            | None => ret [SlashDeletedList listName; SlashNoListsRemaining]
            end
          else ret [SlashFailedToDeleteList listName]
    end.

End ListCommands.

(** ** The command history of the line handler *)

(** The history block at the head of the line handler: a non-empty line
    other than the exit commands is moved (or put) in front, and the array
    is cut to 100 entries. [rl.history] is most recent first. *)
Definition recordCommand (history : list string) (trimmedInput : string) : list string :=
  if Js.truthy trimmedInput
     && negb (bool_decide (trimmedInput = "/exit"))
     && negb (bool_decide (trimmedInput = "exit"))
  then
    let h1 := match fst <$> list_find (λ x, x = trimmedInput) history with
              | Some existingIndex => delete existingIndex history
              | None => history
              end in
    let h2 := trimmedInput :: h1 in
    if (100 <? length h2)%nat then take 100 h2 else h2
  else history.

Definition newline : ascii := ascii_of_nat 10.

(** [parts.join(sep)]. *)
Fixpoint join (sep : string) (parts : list string) : string :=
  match parts with
  | [] => EmptyString
  | [x] => x
  | x :: rest => x +:+ sep +:+ join sep rest
  end.

(** [s.split(c)] for a one-character separator. *)
Fixpoint splitOn (c : ascii) (s : string) : list string :=
  match s with
  | EmptyString => [EmptyString]
  | String a s' =>
      if decide (a = c) then EmptyString :: splitOn c s'
      else match splitOn c s' with
           | [] => [String a EmptyString]
           | x :: xs => String a x :: xs
           end
  end.

Definition newlineString : string := String newline EmptyString.

(** [saveHistory]: the text written to the history file, [None] when
    nothing is written (no history). *)
Definition saveHistory (history : list string) : option string :=
  if (0 <? length history)%nat
  then Some (join newlineString (reverse (take 100 history)) +:+ newlineString)
  else None.

(** The loading of the history file at start-up: every non-empty line of
    the trimmed file is put in front of [history], in file order. *)
Definition loadHistory (history : list string) (historyData : string) : list string :=
  let historyLines :=
    filter (λ line, (0 < String.length line)%nat) (splitOn newline (Js.trim historyData)) in
  foldl (λ h line, line :: h) history historyLines.

(** ** The conversation context of the chat prompt ([OpenAIService]) *)

(** [array.slice(-n)]. *)
Definition sliceLast {A} (n : nat) (l : list A) : list A := drop (length l - n) l.

(** The [historyContext] of [getChatSystemPrompt]. *)
Definition historyContext (conversationHistory : list string) : string :=
  if (0 <? length conversationHistory)%nat
  then newlineString +:+ newlineString +:+ "Recent Conversation:" +:+ newlineString
         +:+ join newlineString (sliceLast 3 conversationHistory) +:+ newlineString
  else EmptyString.

(** ** Notions for the further properties *)

(** The current-list pointer, when set, names a list that exists. *)
Definition currentValid (s : AppState) : Prop :=
  ∀ cid, currentListId s = Some cid → ∃ l, l ∈ lists s ∧ list_id l = cid.

(** List names, compared as the handlers compare them. *)
Definition listNames (s : AppState) : list string :=
  map (λ l, Js.toLowerCase (name l)) (lists s).

(** The parts of the state the list service owns. *)
Definition sameLists (s s' : AppState) : Prop :=
  lists s' = lists s ∧ currentListId s' = currentListId s.

(** No collaborator was called between two states. *)
Definition sameCalls (s s' : AppState) : Prop :=
  uuidCalls s' = uuidCalls s ∧ clockCalls s' = clockCalls s ∧ dbCalls s' = dbCalls s.

(** A history entry as the line handler stores it: trimmed, not empty,
    on one line. *)
Definition historyEntry (e : string) : Prop :=
  e ≠ EmptyString ∧ Js.trim e = e ∧ Js.includes e newlineString = false.

(** Equality of two todos up to [updatedAt]. *)
Definition sameButUpdatedAt (t t' : TodoItem) : Prop :=
  sameOtherFields t t' ∧ completed t' = completed t.

(** A world whose database calls all fail. *)
Definition brokenDbWorld : World :=
  mkWorld (uuidv4 sampleWorld) (clock sampleWorld) (λ _, Some "Error: SQLITE_BUSY")
    (parseLocalDate sampleWorld) (parseDate sampleWorld).

(** A session with one todo in its list. *)
Definition milkState : AppState :=
  exec (handleAddTodo sampleWorld (addCommand (Some "Buy milk"))) sampleState.

(** A reference by 1-based position alone. *)
Definition byPosition (n : Z) : TodoService.Reference :=
  TodoService.mkReference None (Some n) None.

(** An ASCII capital letter. *)
Definition isUpper (c : ascii) : bool :=
  let n := nat_of_ascii c in ((65 <=? n) && (n <=? 90))%nat.

(** A computation that keeps a state invariant, also when it throws. *)
Definition preserves {A} (I : AppState → Prop) (m : M A) : Prop :=
  ∀ s, I s → I (snd (m s)).

(** A todo whose id was stored in capitals. *)
Definition upperTodo : TodoItem :=
  TodoService.createTodo "ABCDEF01-5555-4555-8555-555555555555" 3 3
    "Water plants" TodoService.noOptions.

(** ** JavaScript numbers

    [resolveTodoReference] is declared on [number], and the handlers read
    their command from an untyped object. A [number] is [NaN], an infinity
    or a finite double; every finite double is a dyadic rational, and
    [Finite m k] stands for [m / 2^k] (both zeros are [Finite 0 k]).

    [x - 1] is taken exactly. For a double [x] with [1 <= x < 2^53] the
    difference is a double again; for every other [x] rounding changes
    neither the sign of the difference nor how it compares with the
    length of an array. *)

Module JsNumber.

Inductive t : Type :=
  | NaN
  | Infinity (negative : bool)
  | Finite (m : Z) (k : nat).

Definition ofZ (n : Z) : t := Finite n 0.

Definition pow2 (k : nat) : Z := 2 ^ Z.of_nat k.

(** [x - 1]. *)
Definition minusOne (x : t) : t :=
  match x with
  | Finite m k => Finite (m - pow2 k) k
  | _ => x
  end.

(** [x < n] and [x >= n] for an integer [n]; both are false of [NaN]. *)
Definition ltInt (x : t) (n : Z) : bool :=
  match x with
  | NaN => false
  | Infinity negative => negative
  | Finite m k => m <? n * pow2 k
  end.

Definition geInt (x : t) (n : Z) : bool :=
  match x with
  | NaN => false
  | Infinity negative => negb negative
  | Finite m k => m >=? n * pow2 k
  end.

(** The integer a number is, if it is one. *)
Definition toZ (x : t) : option Z :=
  match x with
  | Finite m k => if m mod pow2 k =? 0 then Some (m / pow2 k) else None
  | _ => None
  end.

(** Truthiness: [NaN] and the zeros are falsy. *)
Definition truthy (x : t) : bool :=
  match x with
  | NaN => false
  | Infinity _ => true
  | Finite m _ => negb (m =? 0)
  end.

(** [array[x]]: the element at [x] when [x] is an index of the array,
    [undefined] for every other number (a fraction, a negative number,
    [NaN], an infinity, an index past the end). *)
Definition index {A} (l : list A) (x : t) : option A :=
  match toZ x with
  | Some i => if i <? 0 then None else l !! Z.to_nat i
  | None => None
  end.

(** [String(x)]. The text of [NaN], of the infinities and of an integer
    up to [2^53] in magnitude (all its decimal digits) is given here;
    [digits] renders every other number. *)
Definition toString (digits : t → string) (x : t) : string :=
  match x with
  | NaN => "NaN"
  | Infinity false => "Infinity"
  | Infinity true => "-Infinity"
  | Finite _ _ =>
      match toZ x with
      | Some n => if Z.abs n <=? 2 ^ 53 then Js.ofZ n else digits x
      | None => digits x
      end
  end.

End JsNumber.

(** ** [resolveTodoReference] on every number

    [TodoService.resolveTodoReference] above reads an integer
    [todoNumber], what the response schema allows. The method is declared
    with [todoNumber?: number]; this is the same method on every
    JavaScript number. *)

Module TodoServiceNumber.

Record Reference : Type := mkReference {
  shortId : option string;
  todoNumber : option JsNumber.t;
  confirmTitle : option string
}.

(** A reference with an integer [todoNumber], as a reference. *)
Definition ofInteger (r : TodoService.Reference) : Reference :=
  mkReference (TodoService.shortId r) (JsNumber.ofZ <$> TodoService.todoNumber r)
    (TodoService.confirmTitle r).

Section Resolve.

Variable digits : JsNumber.t → string.

Definition errInvalidNumber (x : JsNumber.t) : string :=
  "Invalid todo number: " +:+ JsNumber.toString digits x.

(** [resolveTodoReference]. When [todos[todoIndex]] is [undefined] the
    [confirmTitle] check is skipped and the method returns
    [{ todo: undefined }]: no todo and no error. *)
Definition resolveTodoReference (todos : list TodoItem) (reference : Reference)
    : TodoService.Resolution :=
  if Js.truthyOpt (shortId reference) then
    let s := default EmptyString (shortId reference) in
    match TodoService.findTodoByShortId todos s with
    | None => TodoService.failWith (TodoService.errNotFound s)
    | Some t => TodoService.verifyTitle (confirmTitle reference) t
    end
  else
    match todoNumber reference with
    | Some x =>
        let todoIndex := JsNumber.minusOne x in
        if JsNumber.ltInt todoIndex 0
           || JsNumber.geInt todoIndex (Z.of_nat (length todos))
        then TodoService.failWith (errInvalidNumber x)
        else
          match JsNumber.index todos todoIndex with
          | Some t => TodoService.verifyTitle (confirmTitle reference) t
          | None => TodoService.mkResolution None None
          end
    | None => TodoService.failWith TodoService.errNoIdentifier
    end.

End Resolve.

End TodoServiceNumber.

(** ** [handleSwitchList] on any [name]

    The handlers take [parsed: any]. [Command] gives the properties the
    types of the response schema; [handleSwitchList] is modelled here for
    a [name] that holds any primitive value. *)

Inductive JsValue : Type :=
  | JsUndefined
  | JsNull
  | JsBoolean (b : bool)
  | JsNumeric (x : JsNumber.t)
  | JsString (s : string).

Definition truthyValue (v : JsValue) : bool :=
  match v with
  | JsUndefined | JsNull => false
  | JsBoolean b => b
  | JsNumeric x => JsNumber.truthy x
  | JsString s => Js.truthy s
  end.

(** The [name] property of a [Command] as a value. *)
Definition nameValue (o : option string) : JsValue :=
  match o with Some s => JsString s | None => JsNull end.

Section AnyName.

Variable digits : JsNumber.t → string.

Local Open Scope m_scope.

(** A value inside a template literal. *)
Definition renderValue (v : JsValue) : string :=
  match v with
  | JsUndefined => "undefined"
  | JsNull => "null"
  | JsBoolean true => "true"
  | JsBoolean false => "false"
  | JsNumeric x => JsNumber.toString digits x
  | JsString s => s
  end.

(** What [name.toLowerCase()] throws when [name] is not a string. *)
Definition notAFunction : string := "TypeError: name.toLowerCase is not a function".

(** [setCurrentListByName(name)]: the callback of [find] calls
    [name.toLowerCase()] on the first list it visits. *)
Definition setCurrentListByNameAny (v : JsValue) : M bool :=
  match v with
  | JsString nm => setCurrentListByName nm
  | _ =>
      let* s := get in
      match lists s with
      | [] => ret false
      | _ :: _ => throw notAFunction
      end
  end.

(** [handleSwitchList]: no [try] surrounds the call. *)
Definition handleSwitchListAny (v : JsValue) : M unit :=
  if negb (truthyValue v) then log MissingListName
  else
    let* ok := setCurrentListByNameAny v in
    if ok then log (SwitchedTo (renderValue v)) else log (ListNotFound (renderValue v)).

End AnyName.

(** ** The sequence loop and the chat turn around any handler

    [runSequence] and [handleChatMessage] call [handleParsedCommand]. The
    two definitions below are the same code with the call as a parameter:
    they say what the loop and the turn do whatever the call does, also
    when it throws. *)

Section AroundHandler.

Local Open Scope m_scope.

(** The [for] loop of the confirmation handler. *)
Fixpoint sequenceLoop (handler : Command → M unit) (i n : nat) (cmds : list Command)
    : M unit :=
  match cmds with
  | [] => log SequenceCompleted
  | cmd :: rest =>
      log (RunningStep (S i) n cmd) ;;;
      let* o := attempt (handler cmd) in
      match o with
      | Returned _ => sequenceLoop handler (S i) n rest
      | Thrown e => log (CommandFailed (S i) e) ;;; log StoppingSequence
      end
  end.

(** The steps of the loop with nothing caught: the step line, then the
    command, for every command in order. *)
Fixpoint runEach (handler : Command → M unit) (i n : nat) (cmds : list Command)
    : M unit :=
  match cmds with
  | [] => ret tt
  | cmd :: rest =>
      log (RunningStep (S i) n cmd) ;;; handler cmd ;;; runEach handler (S i) n rest
  end.

(** [handleChatMessage] up to the push of the user entry. *)
Definition chatOpening (message : string) (llm : Outcome Parsed) : M Parsed :=
  log ProcessingMessage ;;;
  let* response := match llm with
                   | Returned r => ret r
                   | Thrown e => throw e
                   end in
  log (DebugInfo response) ;;;
  pushHistory ("User: " +:+ message) ;;;
  ret response.

(** The [if] that answers the response and pushes the assistant entry. *)
Definition chatReply (handler : Parsed → M unit) (response : Parsed) : M unit :=
  if decide (action (base response) = "conversational") then
    log (Conversational (c_message (base response))) ;;;
    pushHistory ("Assistant: " +:+ showOpt (c_message (base response)))
  else
    handler response ;;;
    pushHistory ("Assistant: Executed " +:+ action (base response) +:+ " command").

(** The [while] loop that shifts the oldest entries out. *)
Definition chatTrim : M unit :=
  modify (λ s, setHistory (trimHistory (conversationHistory s)) s).

(** [handleChatMessage]. *)
Definition chatTurn (handler : Parsed → M unit) (message : string)
    (llm : Outcome Parsed) : M unit :=
  tryCatch
    (let* response := chatOpening message llm in
     chatReply handler response ;;;
     chatTrim)
    (λ e, log (ChatFailed e)).

End AroundHandler.

(** *** Samples with numbers and ill-typed names *)

(** The samples print no number but small integers. *)
Definition noDigits (x : JsNumber.t) : string := EmptyString.

(** [1.5] and [2.5]. *)
Definition oneAndAHalf : JsNumber.t := JsNumber.Finite 3 1.
Definition twoAndAHalf : JsNumber.t := JsNumber.Finite 5 1.

(** [handleParsedCommand] on commands whose [name], where the action is
    [switch_list], holds the number 7. *)
Definition handleNamedSeven (cmd : Command) : M unit :=
  if decide (action cmd = "switch_list")
  then handleSwitchListAny noDigits (JsNumeric (JsNumber.ofZ 7))
  else handleParsedCommand sampleWorld cmd.

(** Add, switch to the list named 7, add. *)
Definition sampleBatchBadName : list Command :=
  [addCommand (Some "Buy milk"); plainCommand "switch_list"; addCommand (Some "Walk dog")].

(** A session whose history holds ten entries. *)
Definition tenState : AppState :=
  setHistory
    [ "User: a"; "Assistant: b"; "User: c"; "Assistant: d"; "User: e";
      "Assistant: f"; "User: g"; "Assistant: h"; "User: i"; "Assistant: j" ]
    sampleState.

(** The response [{ action: 'switch_list', name: 7 }], and a response that
    adds a todo. *)
Definition switchReply : Parsed := mkParsed (plainCommand "switch_list") None None.

Definition addReply : Parsed := mkParsed (addCommand (Some "Buy milk")) None None.

(** * Properties *)

(** ** Strings *)

Example toLowerCase_sample : Js.toLowerCase "AbC-Z@[09" = "abc-z@[09".
Proof. reflexivity. Qed.

Example includes_sample :
  Js.includes "buy milk" "y m" = true ∧ Js.includes "buy" "buyx" = false.
Proof. by split. Qed.

Example startsWith_sample :
  Js.startsWith "abcdef01-1111" "abcdef01" = true ∧ Js.startsWith "ab" "abc" = false.
Proof. by split. Qed.

Example trim_sample : Js.trim "  a b  " = "a b" ∧ normalizeAnswer "  YES " = "yes".
Proof. by split. Qed.

Example ofZ_sample : Js.ofZ 12 = "12" ∧ Js.ofZ (-3) = "-3" ∧ Js.ofZ 0 = "0".
Proof. by repeat split. Qed.

Lemma startsWith_empty (s : string) : Js.startsWith s EmptyString = true.
Proof. by destruct s. Qed.

Lemma includes_empty (s : string) : Js.includes s EmptyString = true.
Proof. destruct s; simpl; by rewrite ?startsWith_empty. Qed.

Lemma truthy_nonempty (s : string) : Js.truthy s = true ↔ s ≠ EmptyString.
Proof. destruct s; simpl; split; congruence. Qed.

(** A title that does not contain the lowercased confirmation text shows
    that the text is not empty. *)
Lemma not_included_truthy (ttl c : string) :
  Js.includes ttl (Js.toLowerCase c) = false → Js.truthy c = true.
Proof.
  destruct c as [|a c]; simpl; [|done].
  by rewrite includes_empty.
Qed.

(** ** First-match search *)

Section FirstMatch.

Context {A : Type} (P : A → Prop) `{!∀ x, Decision (P x)}.

(** Appending at the end keeps the first match. *)
Lemma find_push (l : list A) (x : A) (r : nat * A) :
  list_find P l = Some r → list_find P (l ++ [x]) = Some r.
Proof.
  revert r. induction l as [|y l IH]; intros r; simpl; [done|].
  case_decide; [done|].
  destruct (list_find P l) as [r'|] eqn:E; simpl; [|done].
  intros [= <-]. by rewrite (IH r').
Qed.

(** Removing another position keeps the first match (its index may
    move down by one). *)
Lemma find_delete_other (l : list A) (i j : nat) (x : A) :
  list_find P l = Some (i, x) → j ≠ i →
  snd <$> list_find P (delete j l) = Some x.
Proof.
  revert i j. induction l as [|y l IH]; intros i j; simpl; [done|].
  case_decide as Hy.
  - intros [= <- <-] Hj. destruct j as [|j]; [done|]. simpl.
    by rewrite decide_True.
  - destruct (list_find P l) as [[i' x']|] eqn:E; simpl; [|done].
    intros [= <- <-] Hj. destruct j as [|j]; simpl.
    + by rewrite E.
    + rewrite decide_False by done.
      assert (Hj' : j ≠ i') by lia.
      specialize (IH i' j eq_refl Hj').
      destruct (list_find P (delete j l)) as [[? ?]|]; simpl in *; congruence.
Qed.

Lemma find_first (l : list A) (i : nat) (x : A) :
  l !! i = Some x → P x → (∀ j y, l !! j = Some y → (j < i)%nat → ¬ P y) →
  list_find P l = Some (i, x).
Proof. intros. apply list_find_Some. eauto. Qed.

End FirstMatch.

(** ** Reference resolution *)

Section Resolution.

Import TodoService.

(** The shortId branch is the one taken for a non-empty [shortId]. *)
Lemma resolve_shortId_branch (todos : list TodoItem) (ref : Reference) (s : string) :
  shortId ref = Some s → s ≠ EmptyString →
  resolveTodoReference todos ref =
    match findTodoByShortId todos s with
    | None => failWith (errNotFound s)
    | Some t => verifyTitle (confirmTitle ref) t
    end.
Proof.
  intros Hs Hne. unfold resolveTodoReference. rewrite Hs. simpl.
  apply truthy_nonempty in Hne. by rewrite Hne.
Qed.

(** The search of [findTodoByShortId] for a [shortId] it accepts. *)
Lemma findTodoByShortId_long (todos : list TodoItem) (s : string) :
  (8 ≤ String.length s)%nat →
  findTodoByShortId todos s =
    snd <$> list_find (λ t, Js.startsWith (id t) (Js.toLowerCase s) = true) todos.
Proof.
  intros Hlen. unfold findTodoByShortId.
  destruct s as [|a s]; [simpl in Hlen; lia|].
  replace (String.length (String a s) <? 8)%nat with false; [done|].
  symmetry. apply Nat.ltb_ge. done.
Qed.

(** A search that succeeds went through the first-match scan. *)
Lemma findTodoByShortId_Some (todos : list TodoItem) (s : string) (t : TodoItem) :
  findTodoByShortId todos s = Some t ↔
  (8 ≤ String.length s)%nat
  ∧ ∃ i, list_find (λ u, Js.startsWith (id u) (Js.toLowerCase s) = true) todos
         = Some (i, t).
Proof.
  split.
  - intros Hfind.
    assert (Hlen : (8 ≤ String.length s)%nat).
    { unfold findTodoByShortId in Hfind.
      destruct (String.length s <? 8)%nat eqn:E.
      - by rewrite orb_true_r in Hfind.
      - by apply Nat.ltb_ge. }
    split; [done|]. rewrite findTodoByShortId_long in Hfind by done.
    destruct (list_find _ todos) as [[i t']|]; [|done].
    simpl in Hfind. injection Hfind as ->. by exists i.
  - intros (Hlen & i & Hfind). rewrite findTodoByShortId_long by done.
    by rewrite Hfind.
Qed.

(** C1, counterexample. Two todos share the prefix [abcdef01]; resolving
    that shortId does not fail: it returns the first of them. *)
Lemma C1_ambiguous_returns_first :
  matchCount [milkTodo; dogTodo] "abcdef01" = 2%nat
  ∧ resolveTodoReference [milkTodo; dogTodo] (mkReference (Some "abcdef01") None None)
    = mkResolution (Some milkTodo) None.
Proof. split; reflexivity. Qed.

(** C1, amended. When one or more todos' ids start with the lowercased
    shortId (of at least 8 characters), resolution selects the first such
    todo in list order, however many others match after it: the result is
    that todo passed through the confirmTitle check, never an ambiguity
    error. *)
Theorem C1_resolve_first_match (todos : list TodoItem) (ref : Reference)
    (s : string) (i : nat) (t : TodoItem) :
  shortId ref = Some s →
  (8 ≤ String.length s)%nat →
  todos !! i = Some t →
  Js.startsWith (id t) (Js.toLowerCase s) = true →
  (∀ j u, todos !! j = Some u → (j < i)%nat →
          Js.startsWith (id u) (Js.toLowerCase s) ≠ true) →
  findTodoByShortId todos s = Some t
  ∧ resolveTodoReference todos ref = verifyTitle (confirmTitle ref) t.
Proof.
  intros Hs Hlen Hi Ht Hfirst.
  assert (Hfind : findTodoByShortId todos s = Some t).
  { rewrite findTodoByShortId_long by done.
    by rewrite (find_first _ todos i t). }
  split; [done|].
  rewrite (resolve_shortId_branch todos ref s); [by rewrite Hfind|done|].
  intros ->. simpl in Hlen. lia.
Qed.

Lemma C1_resolve_first_match_witness :
  findTodoByShortId [milkTodo; dogTodo] "ABCDEF01" = Some milkTodo
  ∧ resolveTodoReference [milkTodo; dogTodo]
      (mkReference (Some "ABCDEF01") None (Some "milk"))
    = verifyTitle (Some "milk") milkTodo.
Proof.
  apply (C1_resolve_first_match [milkTodo; dogTodo]
           (mkReference (Some "ABCDEF01") None (Some "milk")) "ABCDEF01" 0 milkTodo).
  - reflexivity.
  - simpl. lia.
  - reflexivity.
  - reflexivity.
  - intros j u _ Hj. lia.
Defined.

(** C10, counterexample. An empty shortId is shorter than 8 characters,
    yet the resolver treats it as absent: alone it gives the
    missing-identifier error, not the not-found error, and next to a
    todoNumber the reference resolves to a todo. *)
Lemma C10_empty_shortId_counterexample :
  (String.length EmptyString < 8)%nat
  ∧ resolveTodoReference [milkTodo] (mkReference (Some EmptyString) None None)
    = failWith errNoIdentifier
  ∧ errNoIdentifier ≠ errNotFound EmptyString
  ∧ resolveTodoReference [milkTodo] (mkReference (Some EmptyString) (Some 1) None)
    = mkResolution (Some milkTodo) None.
Proof. repeat split; [simpl; lia | discriminate]. Qed.

(** C10, amended. For every reference whose shortId is non-empty and
    shorter than 8 characters, resolution fails with the not-found error
    for that shortId, whatever the list holds (also when exactly one id
    starts with it) and whatever todoNumber and confirmTitle say. *)
Theorem C10_short_prefix_not_found (todos : list TodoItem) (ref : Reference)
    (s : string) :
  shortId ref = Some s → s ≠ EmptyString → (String.length s < 8)%nat →
  findTodoByShortId todos s = None
  ∧ resolveTodoReference todos ref = failWith (errNotFound s).
Proof.
  intros Hs Hne Hlen.
  assert (Hfind : findTodoByShortId todos s = None).
  { unfold findTodoByShortId.
    apply Nat.ltb_lt in Hlen. rewrite Hlen. by rewrite orb_true_r. }
  split; [done|].
  rewrite (resolve_shortId_branch todos ref s) by done. by rewrite Hfind.
Qed.

Lemma C10_short_prefix_not_found_witness :
  matchCount [milkTodo; reportTodo] "abcdef0" = 1%nat
  ∧ findTodoByShortId [milkTodo; reportTodo] "abcdef0" = None
  ∧ resolveTodoReference [milkTodo; reportTodo]
      (mkReference (Some "abcdef0") (Some 1) None)
    = failWith (errNotFound "abcdef0").
Proof.
  split; [reflexivity|].
  apply (C10_short_prefix_not_found [milkTodo; reportTodo]
           (mkReference (Some "abcdef0") (Some 1) None) "abcdef0").
  - reflexivity.
  - discriminate.
  - simpl. lia.
Defined.

(** ** The confirmTitle guard *)

Lemma verifyTitle_mismatch (c : string) (t : TodoItem) :
  Js.includes (Js.toLowerCase (title t)) (Js.toLowerCase c) = false →
  verifyTitle (Some c) t = failWith (errTitleMismatch c (title t)).
Proof.
  intros Hinc. unfold verifyTitle.
  by rewrite (not_included_truthy _ _ Hinc), Hinc.
Qed.

(** C4. When the reference carries a confirmTitle and the candidate todo,
    selected by shortId or else by position, has a title that does not
    contain it case-insensitively, resolution returns no todo and the
    title-mismatch error. *)
Theorem C4_content_mismatch (todos : list TodoItem) (ref : Reference)
    (c : string) (t : TodoItem) :
  confirmTitle ref = Some c →
  ((∃ s, shortId ref = Some s ∧ findTodoByShortId todos s = Some t)
   ∨ (Js.truthyOpt (shortId ref) = false
      ∧ ∃ n, todoNumber ref = Some n ∧ 1 ≤ n ≤ Z.of_nat (length todos)
             ∧ todos !! Z.to_nat (n - 1) = Some t)) →
  Js.includes (Js.toLowerCase (title t)) (Js.toLowerCase c) = false →
  todo (resolveTodoReference todos ref) = None
  ∧ error (resolveTodoReference todos ref) = Some (errTitleMismatch c (title t)).
Proof.
  intros Hc Hcand Hinc.
  assert (resolveTodoReference todos ref = failWith (errTitleMismatch c (title t)))
    as ->; [|done].
  destruct Hcand as [(s & Hs & Hfind)|(Hno & n & Hn & Hrange & Hlook)].
  - rewrite (resolve_shortId_branch todos ref s); [|done|].
    + rewrite Hfind, Hc. by apply verifyTitle_mismatch.
    + apply findTodoByShortId_Some in Hfind as [Hlen _].
      intros ->. simpl in Hlen. lia.
  - unfold resolveTodoReference. rewrite Hno, Hn. simpl.
    replace (n - 1 <? 0) with false by lia.
    replace (n - 1 >=? Z.of_nat (length todos)) with false by lia.
    simpl. rewrite Hlook, Hc. by apply verifyTitle_mismatch.
Qed.

Lemma C4_content_mismatch_witness :
  todo (resolveTodoReference [milkTodo; reportTodo]
          (mkReference (Some "0f1e2d3c") None (Some "MILK"))) = None
  ∧ error (resolveTodoReference [milkTodo; reportTodo]
             (mkReference (Some "0f1e2d3c") None (Some "MILK")))
    = Some (errTitleMismatch "MILK" (title reportTodo)).
Proof.
  apply (C4_content_mismatch [milkTodo; reportTodo]
           (mkReference (Some "0f1e2d3c") None (Some "MILK")) "MILK" reportTodo).
  - reflexivity.
  - left. exists "0f1e2d3c". by split.
  - reflexivity.
Defined.

(** The guard accepts a candidate whose title contains the text. *)
Example confirmTitle_accepts :
  resolveTodoReference [milkTodo; reportTodo]
    (mkReference (Some "0F1E2D3C") None (Some "REPORT"))
  = mkResolution (Some reportTodo) None.
Proof. reflexivity. Qed.

(** ** Decision order *)

Lemma verifyTitle_error (c : option string) (t : TodoItem) (e : string) :
  error (verifyTitle c t) = Some e → ∃ c', e = errTitleMismatch c' (title t).
Proof.
  unfold verifyTitle. destruct c as [c|]; [|done].
  destruct (_ && _); [|done]. intros [= <-]. by exists c.
Qed.

Lemma titleMismatch_not_invalidNumber (c ttl : string) (n : Z) :
  errTitleMismatch c ttl ≠ errInvalidNumber n.
Proof. discriminate. Qed.

End Resolution.

(** ** Decision order on every number *)

Lemma pow2_pos (k : nat) : 0 < JsNumber.pow2 k.
Proof. unfold JsNumber.pow2. apply Z.pow_pos_nonneg; lia. Qed.

Lemma minusOne_ltInt (x : JsNumber.t) :
  JsNumber.ltInt (JsNumber.minusOne x) 0 = JsNumber.ltInt x 1.
Proof.
  destruct x as [| |m k]; simpl; [done..|].
  pose proof (pow2_pos k).
  destruct (m <? 1 * JsNumber.pow2 k) eqn:E; lia.
Qed.

Lemma minusOne_geInt (x : JsNumber.t) (n : Z) :
  JsNumber.geInt (JsNumber.minusOne x) n = JsNumber.geInt x (n + 1).
Proof.
  destruct x as [| |m k]; simpl; [done..|].
  destruct (m >=? (n + 1) * JsNumber.pow2 k) eqn:E; lia.
Qed.

(** An integer is its value times the denominator. *)
Lemma toZ_Some (x : JsNumber.t) (n : Z) :
  JsNumber.toZ x = Some n ↔ ∃ m k, x = JsNumber.Finite m k ∧ m = n * JsNumber.pow2 k.
Proof.
  split.
  - destruct x as [| |m k]; simpl; [done..|].
    destruct (m mod JsNumber.pow2 k =? 0) eqn:E; [|done].
    intros [= <-]. exists m, k. split; [done|].
    pose proof (pow2_pos k). apply Z.eqb_eq in E.
    rewrite Z.mul_comm. apply Z.div_exact; [lia|done].
  - intros (m & k & -> & ->). simpl. pose proof (pow2_pos k).
    rewrite Z.mod_mul by lia. simpl. by rewrite Z.div_mul by lia.
Qed.

Lemma toZ_ofZ (n : Z) : JsNumber.toZ (JsNumber.ofZ n) = Some n.
Proof. apply toZ_Some. exists n, 0%nat. split; [done|]. unfold JsNumber.pow2. simpl. lia. Qed.

Lemma toZ_minusOne (x : JsNumber.t) :
  JsNumber.toZ (JsNumber.minusOne x) = (λ n, n - 1) <$> JsNumber.toZ x.
Proof.
  destruct x as [| |m k]; simpl; [done..|].
  pose proof (pow2_pos k).
  replace (m - JsNumber.pow2 k) with (m + (-1) * JsNumber.pow2 k) by lia.
  rewrite Z.mod_add by lia. rewrite Z.div_add by lia.
  by destruct (m mod JsNumber.pow2 k =? 0).
Qed.

(** Comparisons of an integer. *)
Lemma ltInt_integer (x : JsNumber.t) (n k : Z) :
  JsNumber.toZ x = Some n → JsNumber.ltInt x k = (n <? k).
Proof.
  intros (m & j & -> & ->)%toZ_Some. simpl. pose proof (pow2_pos j).
  destruct (n <? k) eqn:E; [apply Z.ltb_lt; nia | apply Z.ltb_ge; nia].
Qed.

Lemma geInt_integer (x : JsNumber.t) (n k : Z) :
  JsNumber.toZ x = Some n → JsNumber.geInt x k = (n >=? k).
Proof.
  intros (m & j & -> & ->)%toZ_Some. simpl. pose proof (pow2_pos j).
  destruct (n >=? k) eqn:E.
  - apply Z.geb_le in E. apply Z.geb_le. nia.
  - rewrite Z.geb_leb in *. apply Z.leb_gt in E. apply Z.leb_gt. nia.
Qed.

(** The bounds test of [resolveTodoReference], on the number itself. *)

Lemma bounds_on_number (x : JsNumber.t) (len : nat) :
  JsNumber.ltInt (JsNumber.minusOne x) 0
  || JsNumber.geInt (JsNumber.minusOne x) (Z.of_nat len)
  = JsNumber.ltInt x 1 || JsNumber.geInt x (Z.of_nat len + 1).
Proof. by rewrite minusOne_ltInt, minusOne_geInt. Qed.

(** [todos[x - 1]] for an integer and for any other number. *)
Lemma index_integer {A} (l : list A) (x : JsNumber.t) (n : Z) :
  JsNumber.toZ x = Some n → 1 ≤ n →
  JsNumber.index l (JsNumber.minusOne x) = l !! Z.to_nat (n - 1).
Proof.
  intros Hx Hn. unfold JsNumber.index. rewrite toZ_minusOne, Hx. simpl.
  by replace (n - 1 <? 0) with false by lia.
Qed.

Lemma index_fraction {A} (l : list A) (x : JsNumber.t) :
  JsNumber.toZ x = None → JsNumber.index l (JsNumber.minusOne x) = None.
Proof. intros Hx. unfold JsNumber.index. by rewrite toZ_minusOne, Hx. Qed.

Lemma index_elem_of {A} (l : list A) (x : JsNumber.t) (a : A) :
  JsNumber.index l x = Some a → a ∈ l.
Proof.
  unfold JsNumber.index. destruct (JsNumber.toZ x) as [i|]; [|done].
  destruct (i <? 0); [done|]. apply list_elem_of_lookup_2.
Qed.

Example number_samples :
  JsNumber.toZ oneAndAHalf = None
  ∧ JsNumber.toZ (JsNumber.Finite 6 1) = Some 3
  ∧ JsNumber.ltInt oneAndAHalf 2 = true ∧ JsNumber.geInt oneAndAHalf 2 = false
  ∧ JsNumber.minusOne twoAndAHalf = oneAndAHalf
  ∧ JsNumber.index [milkTodo; reportTodo] (JsNumber.ofZ 1) = Some reportTodo
  ∧ JsNumber.index [milkTodo; reportTodo] oneAndAHalf = None
  ∧ JsNumber.toString noDigits (JsNumber.ofZ 3) = "3".
Proof. by repeat split. Qed.

Section NumberResolution.

Import TodoService.

Variable digits : JsNumber.t → string.

(** The two branches of the method. *)
Lemma resolveNumber_shortId_branch (todos : list TodoItem)
    (ref : TodoServiceNumber.Reference) (s : string) :
  TodoServiceNumber.shortId ref = Some s → s ≠ EmptyString →
  TodoServiceNumber.resolveTodoReference digits todos ref =
    match findTodoByShortId todos s with
    | None => failWith (errNotFound s)
    | Some t => verifyTitle (TodoServiceNumber.confirmTitle ref) t
    end.
Proof.
  intros Hs Hne. unfold TodoServiceNumber.resolveTodoReference. rewrite Hs. simpl.
  apply truthy_nonempty in Hne. by rewrite Hne.
Qed.

Lemma resolveNumber_number_branch (todos : list TodoItem)
    (ref : TodoServiceNumber.Reference) (x : JsNumber.t) :
  Js.truthyOpt (TodoServiceNumber.shortId ref) = false →
  TodoServiceNumber.todoNumber ref = Some x →
  TodoServiceNumber.resolveTodoReference digits todos ref =
    if JsNumber.ltInt x 1 || JsNumber.geInt x (Z.of_nat (length todos) + 1)
    then failWith (TodoServiceNumber.errInvalidNumber digits x)
    else match JsNumber.index todos (JsNumber.minusOne x) with
         | Some t => verifyTitle (TodoServiceNumber.confirmTitle ref) t
         | None => mkResolution None None
         end.
Proof.
  intros Hno Hx. unfold TodoServiceNumber.resolveTodoReference.
  rewrite Hno, Hx. cbv zeta. by rewrite bounds_on_number.
Qed.

Lemma titleMismatch_not_invalid (c ttl : string) (x : JsNumber.t) :
  errTitleMismatch c ttl ≠ TodoServiceNumber.errInvalidNumber digits x.
Proof. discriminate. Qed.

(** On an integer [todoNumber] up to [2^53] in magnitude the method is
    [TodoService.resolveTodoReference]. *)
Lemma resolveNumber_ofInteger (todos : list TodoItem) (ref : Reference) :
  (∀ n, todoNumber ref = Some n → Z.abs n ≤ 2 ^ 53) →
  TodoServiceNumber.resolveTodoReference digits todos (TodoServiceNumber.ofInteger ref)
  = resolveTodoReference todos ref.
Proof.
  intros Hsmall. destruct ref as [sid num conf]. simpl in Hsmall.
  unfold TodoServiceNumber.ofInteger. cbn [shortId todoNumber confirmTitle].
  destruct (Js.truthyOpt sid) eqn:Hsid.
  - unfold TodoServiceNumber.resolveTodoReference, resolveTodoReference.
    cbn [TodoServiceNumber.shortId shortId]. by rewrite Hsid.
  - destruct num as [n|].
    + rewrite (resolveNumber_number_branch _ _ (JsNumber.ofZ n)) by done.
      cbn [TodoServiceNumber.confirmTitle].
      unfold resolveTodoReference. cbn [shortId todoNumber confirmTitle].
      rewrite Hsid. cbv zeta.
      rewrite (ltInt_integer _ n), (geInt_integer _ n) by apply toZ_ofZ.
      replace (n <? 1) with (n - 1 <? 0) by lia.
      replace (n >=? Z.of_nat (length todos) + 1)
        with (n - 1 >=? Z.of_nat (length todos)) by lia.
      assert (Htext : TodoServiceNumber.errInvalidNumber digits (JsNumber.ofZ n)
                      = errInvalidNumber n).
      { unfold TodoServiceNumber.errInvalidNumber, errInvalidNumber, JsNumber.toString.
        unfold JsNumber.ofZ at 1. rewrite toZ_ofZ.
        specialize (Hsmall n eq_refl).
        by replace (Z.abs n <=? 2 ^ 53) with true by lia. }
      rewrite Htext.
      destruct (n - 1 <? 0) eqn:E1; [done|].
      destruct (n - 1 >=? Z.of_nat (length todos)); [done|]. cbn [orb].
      rewrite (index_integer todos _ n); [done|apply toZ_ofZ|lia].
    + unfold TodoServiceNumber.resolveTodoReference, resolveTodoReference.
      cbn [TodoServiceNumber.shortId TodoServiceNumber.todoNumber shortId todoNumber].
      by rewrite Hsid.
Qed.

(** C5, amended. Resolution follows this decision order, for every
    reference and every number a [todoNumber] can hold. (1) A non-empty
    shortId is tried first and decides the result alone: it is the result
    of the search by shortId, whatever the todoNumber is. An empty shortId
    counts as absent. (2) Otherwise, with a todoNumber [x], the
    invalid-number error is returned exactly when [x < 1] or
    [x >= length + 1]; for an integer [n] that is exactly when [n] is
    outside [1 .. length], and inside that range the candidate is
    [todos[n-1]] (returned as is when no confirmTitle is given); a number
    that is not an integer never selects a todo, and inside the bounds it
    gives no error either. (3) With no non-empty shortId and no
    todoNumber, the missing-identifier error is returned. *)
Theorem C5_decision_order_numbers (todos : list TodoItem)
    (ref : TodoServiceNumber.Reference) :
  (∀ s, TodoServiceNumber.shortId ref = Some s → s ≠ EmptyString →
     TodoServiceNumber.resolveTodoReference digits todos ref
     = match findTodoByShortId todos s with
       | None => failWith (errNotFound s)
       | Some t => verifyTitle (TodoServiceNumber.confirmTitle ref) t
       end
     ∧ ∀ x', TodoServiceNumber.resolveTodoReference digits todos ref
             = TodoServiceNumber.resolveTodoReference digits todos
                 (TodoServiceNumber.mkReference (Some s) x'
                    (TodoServiceNumber.confirmTitle ref)))
  ∧ (∀ x, Js.truthyOpt (TodoServiceNumber.shortId ref) = false →
       TodoServiceNumber.todoNumber ref = Some x →
       (error (TodoServiceNumber.resolveTodoReference digits todos ref)
        = Some (TodoServiceNumber.errInvalidNumber digits x)
        ↔ JsNumber.ltInt x 1 || JsNumber.geInt x (Z.of_nat (length todos) + 1) = true)
       ∧ (∀ n, JsNumber.toZ x = Some n →
            (error (TodoServiceNumber.resolveTodoReference digits todos ref)
             = Some (TodoServiceNumber.errInvalidNumber digits x)
             ↔ ¬ (1 ≤ n ≤ Z.of_nat (length todos)))
            ∧ (¬ (1 ≤ n ≤ Z.of_nat (length todos)) →
               TodoServiceNumber.resolveTodoReference digits todos ref
               = failWith (TodoServiceNumber.errInvalidNumber digits x))
            ∧ (1 ≤ n ≤ Z.of_nat (length todos) →
               ∃ t, todos !! Z.to_nat (n - 1) = Some t
                    ∧ TodoServiceNumber.resolveTodoReference digits todos ref
                      = verifyTitle (TodoServiceNumber.confirmTitle ref) t
                    ∧ (TodoServiceNumber.confirmTitle ref = None →
                       TodoServiceNumber.resolveTodoReference digits todos ref
                       = mkResolution (Some t) None)))
       ∧ (JsNumber.toZ x = None →
            todo (TodoServiceNumber.resolveTodoReference digits todos ref) = None
            ∧ (JsNumber.ltInt x 1 || JsNumber.geInt x (Z.of_nat (length todos) + 1)
               = false →
               TodoServiceNumber.resolveTodoReference digits todos ref
               = mkResolution None None)))
  ∧ (Js.truthyOpt (TodoServiceNumber.shortId ref) = false →
     TodoServiceNumber.todoNumber ref = None →
     TodoServiceNumber.resolveTodoReference digits todos ref = failWith errNoIdentifier).
Proof.
  split; [|split].
  - intros s Hs Hne. split; [by apply resolveNumber_shortId_branch|].
    intros x'. rewrite (resolveNumber_shortId_branch todos ref s) by done.
    by rewrite (resolveNumber_shortId_branch todos
                  (TodoServiceNumber.mkReference (Some s) x'
                     (TodoServiceNumber.confirmTitle ref)) s).
  - intros x Hno Hx.
    pose proof (resolveNumber_number_branch todos ref x Hno Hx) as Hres.
    split; [|split].
    + rewrite Hres.
      destruct (JsNumber.ltInt x 1 || JsNumber.geInt x (Z.of_nat (length todos) + 1));
        [done|].
      split; [|done]. intros Herr. exfalso.
      destruct (JsNumber.index todos (JsNumber.minusOne x)) as [t|]; [|done].
      apply verifyTitle_error in Herr as [c' Hc'].
      by eapply titleMismatch_not_invalid.
    + intros n Hn.
      rewrite (ltInt_integer x n), (geInt_integer x n) in Hres by done.
      assert (Hout : ¬ (1 ≤ n ≤ Z.of_nat (length todos)) →
                TodoServiceNumber.resolveTodoReference digits todos ref
                = failWith (TodoServiceNumber.errInvalidNumber digits x)).
      { intros Hr. rewrite Hres.
        destruct (n <? 1) eqn:E1; [done|].
        destruct (n >=? Z.of_nat (length todos) + 1) eqn:E2; [done|]. lia. }
      assert (Hin : 1 ≤ n ≤ Z.of_nat (length todos) →
                ∃ t, todos !! Z.to_nat (n - 1) = Some t
                     ∧ TodoServiceNumber.resolveTodoReference digits todos ref
                       = verifyTitle (TodoServiceNumber.confirmTitle ref) t).
      { intros Hr.
        destruct (lookup_lt_is_Some_2 todos (Z.to_nat (n - 1))) as [t Ht]; [lia|].
        exists t. split; [done|]. rewrite Hres.
        replace (n <? 1) with false by lia.
        replace (n >=? Z.of_nat (length todos) + 1) with false by lia.
        cbn [orb]. rewrite (index_integer todos x n) by (done || lia).
        by rewrite Ht. }
      split; [split|split].
      * intros Herr Hr. destruct (Hin Hr) as (t & _ & Hres').
        rewrite Hres' in Herr. apply verifyTitle_error in Herr as [c' Hc'].
        by eapply titleMismatch_not_invalid.
      * intros Hr. by rewrite (Hout Hr).
      * done.
      * intros Hr. destruct (Hin Hr) as (t & Ht & Hres').
        exists t. repeat split; [done..|]. intros Hc. by rewrite Hres', Hc.
    + intros Hfrac. rewrite Hres, (index_fraction todos x Hfrac).
      destruct (JsNumber.ltInt x 1 || JsNumber.geInt x (Z.of_nat (length todos) + 1));
        done.
  - intros Hno Hx. unfold TodoServiceNumber.resolveTodoReference. by rewrite Hno, Hx.
Qed.

End NumberResolution.

(** C5, counterexample. On a list of two todos: a shortId that is present
    but empty is not tried first (tried, it finds nothing), the reference
    resolves by position; the positional index 1.5 lies inside [1 .. 2],
    yet no todo is returned; the index 2.5 lies outside, yet no error is
    returned. *)
Lemma C5_empty_shortId_and_fractions :
  TodoService.findTodoByShortId [milkTodo; reportTodo] EmptyString = None
  ∧ TodoServiceNumber.resolveTodoReference noDigits [milkTodo; reportTodo]
      (TodoServiceNumber.mkReference (Some EmptyString) (Some (JsNumber.ofZ 2)) None)
    = TodoService.mkResolution (Some reportTodo) None
  ∧ TodoService.resolveTodoReference [milkTodo; reportTodo]
      (TodoService.mkReference (Some EmptyString) (Some 2) None)
    = TodoService.mkResolution (Some reportTodo) None
  ∧ TodoServiceNumber.resolveTodoReference noDigits [milkTodo; reportTodo]
      (TodoServiceNumber.mkReference None (Some oneAndAHalf) None)
    = TodoService.mkResolution None None
  ∧ TodoServiceNumber.resolveTodoReference noDigits [milkTodo; reportTodo]
      (TodoServiceNumber.mkReference None (Some twoAndAHalf) None)
    = TodoService.mkResolution None None.
Proof. by repeat split. Qed.

(** The branches of the decision order on a two-element list. *)
Lemma C5_decision_order_numbers_witness :
  TodoServiceNumber.resolveTodoReference noDigits [milkTodo; reportTodo]
      (TodoServiceNumber.mkReference (Some "0f1e2d3c") (Some (JsNumber.ofZ 1)) None)
    = TodoServiceNumber.resolveTodoReference noDigits [milkTodo; reportTodo]
        (TodoServiceNumber.mkReference (Some "0f1e2d3c") (Some JsNumber.NaN) None)
  ∧ TodoServiceNumber.resolveTodoReference noDigits [milkTodo; reportTodo]
      (TodoServiceNumber.mkReference None (Some (JsNumber.ofZ 3)) None)
    = TodoService.failWith "Invalid todo number: 3"
  ∧ (∃ t, [milkTodo; reportTodo] !! Z.to_nat (2 - 1) = Some t
          ∧ TodoServiceNumber.resolveTodoReference noDigits [milkTodo; reportTodo]
              (TodoServiceNumber.mkReference None (Some (JsNumber.ofZ 2)) None)
            = TodoService.mkResolution (Some t) None)
  ∧ TodoServiceNumber.resolveTodoReference noDigits [milkTodo; reportTodo]
      (TodoServiceNumber.mkReference None (Some oneAndAHalf) None)
    = TodoService.mkResolution None None
  ∧ TodoServiceNumber.resolveTodoReference noDigits [milkTodo; reportTodo]
      (TodoServiceNumber.mkReference None None None)
    = TodoService.failWith TodoService.errNoIdentifier.
Proof.
  split; [|split; [|split; [|split]]].
  - apply (C5_decision_order_numbers noDigits [milkTodo; reportTodo]
             (TodoServiceNumber.mkReference (Some "0f1e2d3c") (Some (JsNumber.ofZ 1)) None)
             ); [reflexivity|discriminate].
  - destruct (proj1 (proj2 (C5_decision_order_numbers noDigits [milkTodo; reportTodo]
                (TodoServiceNumber.mkReference None (Some (JsNumber.ofZ 3)) None)))
                (JsNumber.ofZ 3) eq_refl eq_refl) as (_ & Hint & _).
    apply (Hint 3); [reflexivity|simpl; lia].
  - destruct (proj1 (proj2 (C5_decision_order_numbers noDigits [milkTodo; reportTodo]
                (TodoServiceNumber.mkReference None (Some (JsNumber.ofZ 2)) None)))
                (JsNumber.ofZ 2) eq_refl eq_refl) as (_ & Hint & _).
    destruct (Hint 2 eq_refl) as (_ & _ & Hin).
    destruct Hin as (t & Ht & _ & Hres); [simpl; lia|].
    exists t. split; [done|]. by apply Hres.
  - destruct (proj1 (proj2 (C5_decision_order_numbers noDigits [milkTodo; reportTodo]
                (TodoServiceNumber.mkReference None (Some oneAndAHalf) None)))
                oneAndAHalf eq_refl eq_refl) as (_ & _ & Hfrac).
    by apply Hfrac.
  - apply (C5_decision_order_numbers noDigits [milkTodo; reportTodo]
             (TodoServiceNumber.mkReference None None None)); reflexivity.
Defined.

(** ** Mutation of the list *)

Section Mutation.

Import TodoService.

Lemma startsWith_substring (s : string) (n : nat) :
  Js.startsWith s (Js.substring0 n s) = true.
Proof.
  unfold Js.substring0. revert n.
  induction s as [|a s IH]; intros [|n]; simpl; try done.
  destruct (ascii_dec a a); [apply IH|done].
Qed.

Lemma resolved_by_shortId (todos : list TodoItem) (s : string) (t : TodoItem) :
  resolveTodoReference todos (byShortId s) = mkResolution (Some t) None ↔
  findTodoByShortId todos s = Some t.
Proof.
  unfold resolveTodoReference, byShortId. simpl. split.
  - destruct (Js.truthy s); [|done].
    destruct (findTodoByShortId todos s) as [t'|]; [|done].
    simpl. by intros [= ->].
  - intros Hfind.
    assert (Js.truthy s = true) as ->.
    { unfold findTodoByShortId in Hfind. by destruct (Js.truthy s). }
    by rewrite Hfind.
Qed.

(** One add or one delete of another id keeps [t] the first match. *)
Lemma applyOp_keeps_first_match (P : TodoItem → Prop) `{!∀ x, Decision (P x)}
    (todos : list TodoItem) (t : TodoItem) (op : ListOp) (i : nat) :
  list_find P todos = Some (i, t) →
  (∀ todoId, op = OpDelete todoId → todoId ≠ id t) →
  ∃ i', list_find P (applyOp todos op) = Some (i', t).
Proof.
  intros Hfind Hop. destruct op as [newId t1 t2 ttl options|todoId]; simpl.
  - exists i. by apply find_push.
  - specialize (Hop todoId eq_refl). unfold deleteTodo, findIndexById.
    destruct (list_find (λ u, id u = todoId) todos) as [[j u]|] eqn:Ej; simpl.
    + apply list_find_Some in Ej as (Hj & Hid & _).
      apply list_find_Some in Hfind as Hi. destruct Hi as (Hi & _ & _).
      assert (j ≠ i) by (intros ->; congruence).
      pose proof (find_delete_other P todos i j t Hfind ltac:(done)) as Hd.
      destruct (list_find P (delete j todos)) as [[i' t']|]; [|done].
      simpl in Hd. injection Hd as ->. by exists i'.
    + by exists i.
Qed.

Lemma applyOps_keeps_first_match (P : TodoItem → Prop) `{!∀ x, Decision (P x)}
    (ops : list ListOp) (todos : list TodoItem) (t : TodoItem) (i : nat) :
  list_find P todos = Some (i, t) →
  neverDeletes t ops →
  ∃ i', list_find P (applyOps todos ops) = Some (i', t).
Proof.
  revert todos i. induction ops as [|op ops IH]; intros todos i Hfind Hnd.
  - by exists i.
  - destruct (applyOp_keeps_first_match P todos t op i Hfind) as [i' Hi'].
    { intros todoId ->. apply Hnd. by left. }
    apply (IH (applyOp todos op) i' Hi').
    intros todoId Hin. apply Hnd. by right.
Qed.

(** C3, counterexample. [dogTodo] is in the list and is never deleted,
    but [milkTodo], which precedes it, has an id with the same first 8
    characters: resolving [dogTodo]'s shortId returns [milkTodo]. *)
Lemma C3_shadowed_todo_counterexample :
  dogTodo ∈ [milkTodo; reportTodo; dogTodo]
  ∧ neverDeletes dogTodo [OpDelete (id reportTodo); momOp]
  ∧ resolveTodoReference
      (applyOps [milkTodo; reportTodo; dogTodo] [OpDelete (id reportTodo); momOp])
      (byShortId (shortIdOf dogTodo))
    = mkResolution (Some milkTodo) None
  ∧ milkTodo ≠ dogTodo.
Proof.
  split; [|split; [|split]].
  - repeat constructor.
  - intros todoId Hin.
    apply elem_of_cons in Hin as [[= ->]|Hin]; [discriminate|].
    apply elem_of_cons in Hin as [Hin|Hin]; [discriminate|].
    by apply elem_of_nil in Hin.
  - reflexivity.
  - discriminate.
Qed.

(** C3, amended. Let [t] be a todo of the list that its own shortId (the
    first 8 characters of its id) resolves to. After any sequence of adds
    and deletes that never deletes [t], the record [t], id included, is
    still in the list, and its shortId still resolves to [t], whatever
    was added (also ids with the same prefix) or removed around it. *)
Theorem C3_identity_stable (todos : list TodoItem) (t : TodoItem)
    (ops : list ListOp) :
  t ∈ todos →
  neverDeletes t ops →
  resolveTodoReference todos (byShortId (shortIdOf t)) = mkResolution (Some t) None →
  t ∈ applyOps todos ops
  ∧ resolveTodoReference (applyOps todos ops) (byShortId (shortIdOf t))
    = mkResolution (Some t) None.
Proof.
  intros _ Hnd Hres.
  apply resolved_by_shortId, findTodoByShortId_Some in Hres as (Hlen & i & Hfind).
  destruct (applyOps_keeps_first_match _ ops todos t i Hfind Hnd) as [i' Hi'].
  split.
  - apply list_find_Some in Hi' as (Hi' & _). by eapply list_elem_of_lookup_2.
  - apply resolved_by_shortId, findTodoByShortId_Some. eauto.
Qed.

Lemma C3_identity_stable_witness :
  reportTodo ∈ applyOps [milkTodo; reportTodo; dogTodo] [OpDelete (id milkTodo); momOp]
  ∧ resolveTodoReference
      (applyOps [milkTodo; reportTodo; dogTodo] [OpDelete (id milkTodo); momOp])
      (byShortId (shortIdOf reportTodo))
    = mkResolution (Some reportTodo) None.
Proof.
  apply (C3_identity_stable [milkTodo; reportTodo; dogTodo] reportTodo
           [OpDelete (id milkTodo); momOp]).
  - repeat constructor.
  - intros todoId Hin.
    apply elem_of_cons in Hin as [[= ->]|Hin]; [discriminate|].
    apply elem_of_cons in Hin as [Hin|Hin]; [discriminate|].
    by apply elem_of_nil in Hin.
  - reflexivity.
Defined.

(** The hypothesis of the theorem holds for a todo with a lowercase id
    of at least 8 characters that no earlier todo shadows. *)
Lemma own_shortId_resolves (todos : list TodoItem) (i : nat) (t : TodoItem) :
  todos !! i = Some t →
  (8 ≤ String.length (shortIdOf t))%nat →
  Js.toLowerCase (shortIdOf t) = shortIdOf t →
  (∀ j u, todos !! j = Some u → (j < i)%nat →
          Js.startsWith (id u) (shortIdOf t) ≠ true) →
  resolveTodoReference todos (byShortId (shortIdOf t)) = mkResolution (Some t) None.
Proof.
  intros Hi Hlen Hlow Hfirst.
  apply resolved_by_shortId, findTodoByShortId_Some. split; [done|].
  exists i. rewrite Hlow. apply find_first; [done| |done].
  apply startsWith_substring.
Qed.

(** ** Updates in place *)

Lemma modifyById_found (f : TodoItem → TodoItem) (todos : list TodoItem)
    (todoId : string) (i : nat) (t : TodoItem) :
  list_find (λ u, id u = todoId) todos = Some (i, t) →
  modifyById f todos todoId = (true, <[i := f t]> todos).
Proof. intros H. unfold modifyById. by rewrite H. Qed.

Lemma modifyById_missing (f : TodoItem → TodoItem) (todos : list TodoItem)
    (todoId : string) :
  (∀ t, t ∈ todos → id t ≠ todoId) →
  modifyById f todos todoId = (false, todos).
Proof.
  intros H. unfold modifyById.
  destruct (list_find _ todos) as [[i t]|] eqn:E; [|done].
  apply list_find_Some in E as (Hi & Hid & _).
  destruct (H t); [by eapply list_elem_of_lookup_2|done].
Qed.

(** A modification that keeps the id keeps the ids of the whole list. *)
Lemma modifyById_ids (f : TodoItem → TodoItem) (todos : list TodoItem)
    (todoId : string) :
  (∀ t, id (f t) = id t) →
  map id (snd (modifyById f todos todoId)) = map id todos.
Proof.
  intros Hf. unfold modifyById.
  destruct (list_find _ todos) as [[i t]|] eqn:E; [|done]. simpl.
  apply list_find_Some in E as (Hi & _).
  rewrite list_fmap_insert, Hf. apply list_insert_id.
  by rewrite list_lookup_fmap, Hi.
Qed.

(** C8, counterexample. [updateTodo] copies every property of the payload:
    a payload with an [id] property replaces the id of the todo. *)
Lemma C8_payload_id_overwrites :
  map id [milkTodo] = ["abcdef01-1111-4111-8111-111111111111"]
  ∧ fst (updateTodo [milkTodo] (id milkTodo) idPayload 9) = true
  ∧ map id (snd (updateTodo [milkTodo] (id milkTodo) idPayload 9))
    = ["99999999-9999-4999-8999-999999999999"].
Proof. repeat split. Qed.

(** C8, amended. For every [updateTodo] call whose payload carries no [id]
    property, the id of the updated todo, and of every todo of the list,
    is after the call what it was before. *)
Theorem C8_update_keeps_id (todos : list TodoItem) (todoId : string)
    (updates : PartialTodo) (now : Date) :
  p_id updates = None →
  map id (snd (updateTodo todos todoId updates now)) = map id todos.
Proof.
  intros Hid. apply modifyById_ids. intros t. simpl. by rewrite Hid.
Qed.

Lemma C8_update_keeps_id_witness :
  map id (snd (updateTodo [milkTodo; reportTodo] (id milkTodo) titlePayload 9))
  = map id [milkTodo; reportTodo].
Proof.
  apply (C8_update_keeps_id [milkTodo; reportTodo] (id milkTodo) titlePayload 9).
  reflexivity.
Defined.

(** The payloads [handleEditTodo] builds carry no [id] property. *)
Lemma buildUpdates_no_id (W : World) (parsed : Command) (u : PartialTodo) (h : bool) :
  buildUpdates W parsed = inr (u, h) → p_id u = None.
Proof.
  unfold buildUpdates.
  destruct (Js.truthyOpt (c_title parsed));
    destruct (Js.truthyOpt (c_priority parsed)); try destruct (parsePriority _);
    destruct (Js.truthyOpt (c_dueDate parsed)); try destruct (parseDate W _);
    destruct (c_categories parsed); intros [= <- _]; reflexivity.
Qed.

(** C9. If a todo with the id is present, [completeTodo] returns [true] and
    changes the list at one position only, that of the first todo with the
    id: there the completed flag is [true], [updatedAt] is the current time
    and every other field is as before; all other positions, and the
    length, are unchanged. If no todo has the id, it returns [false] and
    the list as it was. *)
Theorem C9_completeTodo_frame (todos : list TodoItem) (todoId : string) (now : Date) :
  ((∃ t, t ∈ todos ∧ id t = todoId) →
   ∃ i t t',
     todos !! i = Some t ∧ id t = todoId
     ∧ (∀ j u, todos !! j = Some u → (j < i)%nat → id u ≠ todoId)
     ∧ fst (completeTodo todos todoId now) = true
     ∧ snd (completeTodo todos todoId now) !! i = Some t'
     ∧ completed t' = true ∧ updatedAt t' = now ∧ sameOtherFields t t'
     ∧ length (snd (completeTodo todos todoId now)) = length todos
     ∧ ∀ j, j ≠ i → snd (completeTodo todos todoId now) !! j = todos !! j)
  ∧ ((∀ t, t ∈ todos → id t ≠ todoId) →
     completeTodo todos todoId now = (false, todos)).
Proof.
  split.
  - intros (t0 & Hin & Hid0).
    destruct (list_find (λ u, id u = todoId) todos) as [[i t]|] eqn:E.
    + unfold completeTodo. rewrite (modifyById_found _ _ _ i t E). simpl.
      apply list_find_Some in E as (Hi & Hid & Hfirst).
      exists i, t, (setCompleted true now t).
      repeat split; try done.
      * apply list_lookup_insert_eq. by eapply lookup_lt_Some.
      * apply length_insert.
      * intros j Hj. by apply list_lookup_insert_ne.
    + apply list_find_None in E. rewrite Forall_forall in E.
      by destruct (E t0 Hin).
  - intros H. by apply modifyById_missing.
Qed.

Lemma C9_completeTodo_frame_witness :
  (∃ i t t',
     [milkTodo; reportTodo] !! i = Some t ∧ id t = id reportTodo
     ∧ (∀ j u, [milkTodo; reportTodo] !! j = Some u → (j < i)%nat → id u ≠ id reportTodo)
     ∧ fst (completeTodo [milkTodo; reportTodo] (id reportTodo) 42) = true
     ∧ snd (completeTodo [milkTodo; reportTodo] (id reportTodo) 42) !! i = Some t'
     ∧ completed t' = true ∧ updatedAt t' = 42 ∧ sameOtherFields t t'
     ∧ length (snd (completeTodo [milkTodo; reportTodo] (id reportTodo) 42))
       = length [milkTodo; reportTodo]
     ∧ ∀ j, j ≠ i →
         snd (completeTodo [milkTodo; reportTodo] (id reportTodo) 42) !! j
         = [milkTodo; reportTodo] !! j)
  ∧ completeTodo [milkTodo; reportTodo] (id dogTodo) 42
    = (false, [milkTodo; reportTodo]).
Proof.
  split.
  - apply (C9_completeTodo_frame [milkTodo; reportTodo] (id reportTodo) 42).
    exists reportTodo. split; [repeat constructor|reflexivity].
  - apply (C9_completeTodo_frame [milkTodo; reportTodo] (id dogTodo) 42).
    intros t Hin.
    apply elem_of_cons in Hin as [->|Hin]; [discriminate|].
    apply elem_of_cons in Hin as [->|Hin]; [discriminate|].
    by apply elem_of_nil in Hin.
Defined.

End Mutation.

(** ** Handlers: what throws and what touches the history *)

Section HandlerFacts.

Context {A B : Type}.

Lemma returns_ret (a : A) : returns (ret a).
Proof. intros s. by eexists _, _. Qed.

Lemma returns_bind (m : M A) (k : A → M B) :
  returns m → (∀ a, returns (k a)) → returns (bind m k).
Proof.
  intros Hm Hk s. destruct (Hm s) as (a & s' & E).
  unfold bind. rewrite E. apply Hk.
Qed.

Lemma returns_tryCatch (body : M A) (handler : string → M A) :
  (∀ e, returns (handler e)) → returns (tryCatch body handler).
Proof.
  intros Hh s. unfold tryCatch. destruct (body s) as [[a|e] s'].
  - by eexists _, _.
  - apply Hh.
Qed.

Lemma returns_attempt (m : M A) : returns (attempt m).
Proof. intros s. unfold attempt. destruct (m s). by eexists _, _. Qed.

Lemma keeps_ret (a : A) : keepsHistory (ret a).
Proof. by intros s. Qed.

Lemma keeps_throw (e : string) : keepsHistory (@throw A e).
Proof. by intros s. Qed.

Lemma keeps_bind (m : M A) (k : A → M B) :
  keepsHistory m → (∀ a, keepsHistory (k a)) → keepsHistory (bind m k).
Proof.
  intros Hm Hk s. unfold bind. specialize (Hm s).
  destruct (m s) as [[a|e] s']; simpl in *; [|done].
  by rewrite Hk.
Qed.

Lemma keeps_tryCatch (body : M A) (handler : string → M A) :
  keepsHistory body → (∀ e, keepsHistory (handler e)) →
  keepsHistory (tryCatch body handler).
Proof.
  intros Hb Hh s. unfold tryCatch. specialize (Hb s).
  destruct (body s) as [[a|e] s']; simpl in *; [done|].
  by rewrite Hh.
Qed.

Lemma keeps_attempt (m : M A) : keepsHistory m → keepsHistory (attempt m).
Proof. intros Hm s. unfold attempt. specialize (Hm s). by destruct (m s). Qed.

End HandlerFacts.

Lemma returns_get : returns get.
Proof. intros s. by eexists _, _. Qed.

Lemma returns_modify (f : AppState → AppState) : returns (modify f).
Proof. intros s. by eexists _, _. Qed.

Lemma returns_log (o : Output) : returns (log o).
Proof. apply returns_modify. Qed.

Lemma keeps_get : keepsHistory get.
Proof. by intros s. Qed.

Lemma keeps_modify (f : AppState → AppState) :
  (∀ s, conversationHistory (f s) = conversationHistory s) → keepsHistory (modify f).
Proof. intros Hf s. apply Hf. Qed.

Lemma keeps_log (o : Output) : keepsHistory (log o).
Proof. by apply keeps_modify. Qed.

Lemma returns_freshUuid (W : World) : returns (freshUuid W).
Proof. intros s. by eexists _, _. Qed.

Lemma returns_newDate (W : World) : returns (newDate W).
Proof. intros s. by eexists _, _. Qed.

Lemma keeps_freshUuid (W : World) : keepsHistory (freshUuid W).
Proof. by intros s. Qed.

Lemma keeps_newDate (W : World) : keepsHistory (newDate W).
Proof. by intros s. Qed.

Lemma keeps_dbCall (W : World) : keepsHistory (dbCall W).
Proof. intros s. unfold dbCall. by destruct (dbThrows W (dbCalls s)). Qed.

Lemma keeps_setCurrentTodos (ts : list TodoItem) : keepsHistory (setCurrentTodos ts).
Proof.
  apply keeps_modify. intros s. by destruct (currentListEntry s) as [[i l]|].
Qed.

Lemma keeps_setCurrentListId (c : option string) : keepsHistory (modify (setCurrentListId c)).
Proof. by apply keeps_modify. Qed.

Create HintDb handlers discriminated.

#[local] Hint Resolve returns_ret returns_get returns_modify returns_log
  returns_freshUuid returns_newDate returns_attempt
  keeps_ret keeps_throw keeps_get keeps_log keeps_freshUuid keeps_newDate
  keeps_dbCall keeps_setCurrentTodos keeps_setCurrentListId keeps_attempt : handlers.

(** Walks through a handler: splits binds and [try]/[catch], cases on what
    the handler branches on, and closes the leaves with the facts above. *)
Ltac handler_step :=
  match goal with
  | |- returns (bind _ _) => apply returns_bind; [|intros ?]
  | |- returns (tryCatch _ _) => apply returns_tryCatch; intros ?
  | |- keepsHistory (bind _ _) => apply keeps_bind; [|intros ?]
  | |- keepsHistory (tryCatch _ _) => apply keeps_tryCatch; [|intros ?]
  | |- keepsHistory (modify _) => apply keeps_modify; intros ?
  | |- returns (match ?x with _ => _ end) => destruct x
  | |- keepsHistory (match ?x with _ => _ end) => destruct x
  | |- conversationHistory (match ?x with _ => _ end) = _ => destruct x
  | |- _ = _ => progress simpl
  | |- _ => solve [eauto with handlers]
  | |- _ => done
  end.

Ltac handler_facts := repeat handler_step.

Section HandlersNeverThrow.

Variable W : World.

Lemma returns_getCurrentList : returns getCurrentList.
Proof. unfold getCurrentList. handler_facts. Qed.

Lemma keeps_getCurrentList : keepsHistory getCurrentList.
Proof. unfold getCurrentList. handler_facts. Qed.

Lemma returns_findListByName nm : returns (findListByName nm).
Proof. unfold findListByName. handler_facts. Qed.

Lemma keeps_findListByName nm : keepsHistory (findListByName nm).
Proof. unfold findListByName. handler_facts. Qed.

Lemma returns_setCurrentListByName nm : returns (setCurrentListByName nm).
Proof.
  unfold setCurrentListByName. apply returns_bind; [apply returns_findListByName|].
  intros [l|]; handler_facts.
Qed.

Lemma keeps_setCurrentListByName nm : keepsHistory (setCurrentListByName nm).
Proof.
  unfold setCurrentListByName. apply keeps_bind; [apply keeps_findListByName|].
  intros [l|]; handler_facts.
Qed.

Lemma keeps_createList nm : keepsHistory (createList W nm).
Proof. unfold createList. handler_facts. Qed.

Lemma keeps_addTodoToCurrentList t : keepsHistory (addTodoToCurrentList W t).
Proof.
  unfold addTodoToCurrentList. apply keeps_bind; [apply keeps_getCurrentList|].
  intros [l|]; handler_facts.
Qed.

Lemma keeps_deleteTodoFromCurrentList todoId :
  keepsHistory (deleteTodoFromCurrentList W todoId).
Proof.
  unfold deleteTodoFromCurrentList. apply keeps_bind; [apply keeps_getCurrentList|].
  intros [l|]; handler_facts.
Qed.

Lemma keeps_createTodoM ttl options : keepsHistory (createTodoM W ttl options).
Proof. unfold createTodoM. handler_facts. Qed.

Lemma keeps_completeTodoM ts todoId : keepsHistory (completeTodoM W ts todoId).
Proof. unfold completeTodoM. handler_facts. Qed.

Lemma keeps_updateTodoM ts todoId updates : keepsHistory (updateTodoM W ts todoId updates).
Proof. unfold updateTodoM. handler_facts. Qed.

Lemma keeps_reread todoIndex fallback : keepsHistory (reread todoIndex fallback).
Proof. unfold reread. apply keeps_bind; [apply keeps_getCurrentList|]. handler_facts. Qed.

Lemma keeps_updateTodoInCurrentList t : keepsHistory (updateTodoInCurrentList W t).
Proof. apply keeps_dbCall. Qed.

#[local] Hint Resolve returns_getCurrentList keeps_getCurrentList
  returns_findListByName keeps_findListByName
  returns_setCurrentListByName keeps_setCurrentListByName
  keeps_createList keeps_addTodoToCurrentList keeps_deleteTodoFromCurrentList
  keeps_createTodoM keeps_completeTodoM keeps_updateTodoM keeps_reread
  keeps_updateTodoInCurrentList : handlers.

Lemma keeps_addEach ds added failures : keepsHistory (addEach W ds added failures).
Proof.
  revert added failures. induction ds as [|d ds IH]; intros added failures; simpl.
  - handler_facts.
  - destruct (negb _); [apply IH|].
    apply keeps_bind; [handler_facts|]. intros r. apply IH.
Qed.

#[local] Hint Resolve keeps_addEach : handlers.

(** On a [Command] each handler returns: the calls that can throw are
    inside its [try]. *)
Lemma handleAddTodo_returns parsed : returns (handleAddTodo W parsed).
Proof. unfold handleAddTodo. handler_facts. Qed.

Lemma handleAddTodo_keeps parsed : keepsHistory (handleAddTodo W parsed).
Proof. unfold handleAddTodo. handler_facts. Qed.

Lemma handleAddMultipleTodos_returns parsed : returns (handleAddMultipleTodos W parsed).
Proof. unfold handleAddMultipleTodos. handler_facts. Qed.

Lemma handleAddMultipleTodos_keeps parsed : keepsHistory (handleAddMultipleTodos W parsed).
Proof. unfold handleAddMultipleTodos. handler_facts. Qed.

Lemma handleListTodos_returns parsed : returns (handleListTodos parsed).
Proof. unfold handleListTodos. handler_facts. Qed.

Lemma handleListTodos_keeps parsed : keepsHistory (handleListTodos parsed).
Proof. unfold handleListTodos. handler_facts. Qed.

Lemma handleCompleteTodo_returns parsed : returns (handleCompleteTodo W parsed).
Proof. unfold handleCompleteTodo. handler_facts. Qed.

Lemma handleCompleteTodo_keeps parsed : keepsHistory (handleCompleteTodo W parsed).
Proof. unfold handleCompleteTodo. handler_facts. Qed.

Lemma handleEditTodo_returns parsed : returns (handleEditTodo W parsed).
Proof. unfold handleEditTodo. handler_facts. Qed.

Lemma handleEditTodo_keeps parsed : keepsHistory (handleEditTodo W parsed).
Proof. unfold handleEditTodo. handler_facts. Qed.

Lemma handleCreateList_returns parsed : returns (handleCreateList W parsed).
Proof. unfold handleCreateList. handler_facts. Qed.

Lemma handleCreateList_keeps parsed : keepsHistory (handleCreateList W parsed).
Proof. unfold handleCreateList. handler_facts. Qed.

Lemma handleSwitchList_returns parsed : returns (handleSwitchList parsed).
Proof. unfold handleSwitchList. handler_facts. Qed.

Lemma handleSwitchList_keeps parsed : keepsHistory (handleSwitchList parsed).
Proof. unfold handleSwitchList. handler_facts. Qed.

Lemma handleDeleteTodo_returns parsed : returns (handleDeleteTodo W parsed).
Proof. unfold handleDeleteTodo. handler_facts. Qed.

Lemma handleDeleteTodo_keeps parsed : keepsHistory (handleDeleteTodo W parsed).
Proof. unfold handleDeleteTodo. handler_facts. Qed.

#[local] Hint Resolve handleAddTodo_returns handleAddTodo_keeps
  handleAddMultipleTodos_returns handleAddMultipleTodos_keeps
  handleListTodos_returns handleListTodos_keeps
  handleCompleteTodo_returns handleCompleteTodo_keeps
  handleEditTodo_returns handleEditTodo_keeps
  handleCreateList_returns handleCreateList_keeps
  handleSwitchList_returns handleSwitchList_keeps
  handleDeleteTodo_returns handleDeleteTodo_keeps : handlers.

Lemma dispatch_returns parsed onSequence :
  returns onSequence → returns (dispatch W parsed onSequence).
Proof. intros H. unfold dispatch. repeat case_decide; eauto with handlers. Qed.

Lemma dispatch_keeps parsed onSequence :
  keepsHistory onSequence → keepsHistory (dispatch W parsed onSequence).
Proof. intros H. unfold dispatch. repeat case_decide; eauto with handlers. Qed.

(** No command of a sequence throws: the handlers report a failed
    validation or a failed database call by printing and returning. *)
Lemma handleParsedCommand_returns cmd : returns (handleParsedCommand W cmd).
Proof. apply dispatch_returns. eauto with handlers. Qed.

Lemma handleParsedCommand_keeps cmd : keepsHistory (handleParsedCommand W cmd).
Proof. apply dispatch_keeps. eauto with handlers. Qed.

(** On commands with the field types of the response schema the abort
    branch of the sequence loop is not taken: the loop runs every
    command. *)
Lemma runSequence_runs_all (cmds : list Command) (i n : nat) (s : AppState) :
  runSequence W i n cmds s = runAll W i n cmds s.
Proof.
  revert i s. induction cmds as [|cmd rest IH]; intros i s; [done|].
  simpl. unfold bind, attempt, log, modify. simpl.
  destruct (handleParsedCommand_returns cmd
              (setConsole (console s ++ [RunningStep (S i) n cmd]) s))
    as ([] & s' & E).
  rewrite E. apply IH.
Qed.

Lemma runAll_returns cmds i n : returns (runAll W i n cmds).
Proof.
  revert i. induction cmds as [|cmd rest IH]; intros i; simpl.
  - eauto with handlers.
  - apply returns_bind; [eauto with handlers|]. intros _.
    apply returns_bind; [apply handleParsedCommand_returns|]. intros _. apply IH.
Qed.

Lemma runAll_keeps cmds i n : keepsHistory (runAll W i n cmds).
Proof.
  revert i. induction cmds as [|cmd rest IH]; intros i; simpl.
  - eauto with handlers.
  - apply keeps_bind; [eauto with handlers|]. intros _.
    apply keeps_bind; [apply handleParsedCommand_keeps|]. intros _. apply IH.
Qed.

Lemma runSequence_returns cmds i n : returns (runSequence W i n cmds).
Proof. intros s. rewrite runSequence_runs_all. apply runAll_returns. Qed.

Lemma runSequence_keeps cmds i n : keepsHistory (runSequence W i n cmds).
Proof. intros s. rewrite runSequence_runs_all. apply runAll_keeps. Qed.

Lemma handleCommandSequence_returns parsed answer :
  returns (handleCommandSequence W parsed answer).
Proof.
  unfold handleCommandSequence.
  pose proof runSequence_returns. handler_facts.
Qed.

Lemma handleCommandSequence_keeps parsed answer :
  keepsHistory (handleCommandSequence W parsed answer).
Proof.
  unfold handleCommandSequence.
  pose proof runSequence_keeps. handler_facts.
Qed.

Lemma handleParsedResponse_returns parsed answer :
  returns (handleParsedResponse W parsed answer).
Proof. apply dispatch_returns, handleCommandSequence_returns. Qed.

Lemma handleParsedResponse_keeps parsed answer :
  keepsHistory (handleParsedResponse W parsed answer).
Proof. apply dispatch_keeps, handleCommandSequence_keeps. Qed.

End HandlersNeverThrow.

(** ** Command sequences *)

(** C7. A command sequence is not executed without an affirmative answer:
    when the trimmed, lowercased answer is neither [y] nor [yes], the
    handler leaves the lists, the current list, the history and the
    collaborators untouched, and prints nothing but the prompt of the
    sequence (or the format error) and the cancellation notice. *)
Theorem C7_no_execution_without_confirmation (W : World) (parsed : Parsed)
    (answer : string) (s : AppState) :
  normalizeAnswer answer ≠ "y" →
  normalizeAnswer answer ≠ "yes" →
  threw (handleCommandSequence W parsed answer) s = false
  ∧ lists (exec (handleCommandSequence W parsed answer) s) = lists s
  ∧ currentListId (exec (handleCommandSequence W parsed answer) s) = currentListId s
  ∧ conversationHistory (exec (handleCommandSequence W parsed answer) s)
    = conversationHistory s
  ∧ uuidCalls (exec (handleCommandSequence W parsed answer) s) = uuidCalls s
  ∧ clockCalls (exec (handleCommandSequence W parsed answer) s) = clockCalls s
  ∧ dbCalls (exec (handleCommandSequence W parsed answer) s) = dbCalls s
  ∧ ∃ out, console (exec (handleCommandSequence W parsed answer) s) = console s ++ out
           ∧ Forall isPromptOutput out.
Proof.
  intros Hy Hyes.
  unfold handleCommandSequence, exec, threw.
  destruct (commands parsed) as [cmds|].
  - assert (isAffirmative (normalizeAnswer answer) = false) as Hno.
    { unfold isAffirmative. by rewrite !bool_decide_eq_false_2. }
    case_decide as Hempty.
    + repeat split; try done.
      exists [SuggestSequence (seq_description parsed) cmds; AskExecute].
      split; [simpl; by rewrite <- app_assoc|]. by repeat constructor.
    + rewrite Hno. repeat split; try done.
      exists [SuggestSequence (seq_description parsed) cmds; AskExecute; SequenceCancelled].
      split; [simpl; by rewrite <- !app_assoc|]. by repeat constructor.
  - repeat split; try done.
    exists [InvalidSequenceFormat]. split; [done|]. by repeat constructor.
Qed.

Lemma C7_no_execution_without_confirmation_witness :
  threw (handleCommandSequence sampleWorld sampleBatch " Nope ") sampleState = false
  ∧ lists (exec (handleCommandSequence sampleWorld sampleBatch " Nope ") sampleState)
    = lists sampleState
  ∧ currentListId (exec (handleCommandSequence sampleWorld sampleBatch " Nope ") sampleState)
    = currentListId sampleState
  ∧ conversationHistory
      (exec (handleCommandSequence sampleWorld sampleBatch " Nope ") sampleState)
    = conversationHistory sampleState
  ∧ uuidCalls (exec (handleCommandSequence sampleWorld sampleBatch " Nope ") sampleState)
    = uuidCalls sampleState
  ∧ clockCalls (exec (handleCommandSequence sampleWorld sampleBatch " Nope ") sampleState)
    = clockCalls sampleState
  ∧ dbCalls (exec (handleCommandSequence sampleWorld sampleBatch " Nope ") sampleState)
    = dbCalls sampleState
  ∧ ∃ out, console (exec (handleCommandSequence sampleWorld sampleBatch " Nope ") sampleState)
           = console sampleState ++ out
           ∧ Forall isPromptOutput out.
Proof.
  apply (C7_no_execution_without_confirmation sampleWorld sampleBatch " Nope " sampleState).
  - discriminate.
  - discriminate.
Defined.

(** After an affirmative answer the handler runs the commands, all of them
    and in order. *)
Lemma confirmed_sequence_runs (W : World) (parsed : Parsed) (cmds : list Command)
    (answer : string) (s : AppState) :
  commands parsed = Some cmds →
  isAffirmative (normalizeAnswer answer) = true →
  handleCommandSequence W parsed answer s
  = bind (log (SuggestSequence (seq_description parsed) cmds)) (λ _,
    bind (log AskExecute) (λ _,
    bind (log ExecutingSequence) (λ _, runAll W 0 (length cmds) cmds))) s.
Proof.
  intros Hc Ha. unfold handleCommandSequence. rewrite Hc.
  rewrite decide_False.
  - rewrite Ha. unfold bind, log, modify. simpl. apply runSequence_runs_all.
  - intros E. rewrite E in Ha. discriminate.
Qed.

(** C2. A confirmed batch of three commands whose second command fails
    validation (an add without a title): the loop does not stop at step 2.
    Step 3 is attempted and applied, no failure of a step is reported, and
    the batch is announced as completed. *)
Theorem C2_batch_continues_after_failed_step :
  currentTitles sampleState = []
  ∧ currentTitles (exec (handleCommandSequence sampleWorld sampleBatch "y") sampleState)
    = ["Buy milk"; "Walk dog"]
  ∧ console (exec (handleCommandSequence sampleWorld sampleBatch "y") sampleState)
    = [ SuggestSequence None
          [addCommand (Some "Buy milk"); addCommand None; addCommand (Some "Walk dog")];
        AskExecute;
        ExecutingSequence;
        RunningStep 1 3 (addCommand (Some "Buy milk"));
        AddedTodo (TodoService.createTodo "20000000-0000-4000-8000-000000000000" 2 3
                     "Buy milk" (buildOptions sampleWorld None None None None)) "Personal";
        RunningStep 2 3 (addCommand None);
        MissingTodoTitle;
        RunningStep 3 3 (addCommand (Some "Walk dog"));
        AddedTodo (TodoService.createTodo "30000000-0000-4000-8000-000000000000" 4 5
                     "Walk dog" (buildOptions sampleWorld None None None None)) "Personal";
        SequenceCompleted ].
Proof. repeat split. Qed.

(** The same with an invalid todo number at step 2. *)
Example batch_continues_after_invalid_number :
  currentTitles
    (exec (handleCommandSequence sampleWorld sampleBatchBadNumber "yes") sampleState)
  = ["Buy milk"; "Walk dog"]
  ∧ last (console
            (exec (handleCommandSequence sampleWorld sampleBatchBadNumber "yes") sampleState))
    = Some SequenceCompleted
  ∧ console (exec (handleCommandSequence sampleWorld sampleBatchBadNumber "yes") sampleState)
    !! 6%nat = Some InvalidTodoNumber.
Proof. repeat split. Qed.

(** ** Conversation history *)

(** The trimming loop keeps the newest entries. *)
Lemma trimHistory_lastN (h : list string) :
  trimHistory h = lastN maxConversationHistory h.
Proof.
  unfold lastN. induction h as [|x h IH]; [done|].
  cbn [trimHistory]. destruct (maxConversationHistory <? length (x :: h))%nat eqn:E.
  - apply Nat.ltb_lt in E. rewrite IH. unfold maxConversationHistory in *.
    simpl in E. simpl length.
    replace (S (length h) - 10)%nat with (S (length h - 10)) by lia. done.
  - apply Nat.ltb_ge in E. unfold maxConversationHistory in *.
    replace (length (x :: h) - 10)%nat with 0%nat by lia. done.
Qed.

Lemma length_lastN {A} (n : nat) (l : list A) :
  length (lastN n l) = min n (length l).
Proof. unfold lastN. rewrite length_drop. lia. Qed.

(** The outcome of a chat message whose language-model call returned. *)
Lemma handleChatMessage_run (W : World) (message : string) (r : Parsed)
    (answer : string) (s : AppState) :
  ∃ s', handleChatMessage W message (Returned r) answer s = (Returned tt, s')
        ∧ conversationHistory s'
          = trimHistory (conversationHistory s ++ [userEntry message; assistantEntry r]).
Proof.
  unfold handleChatMessage, tryCatch, assistantEntry, userEntry.
  unfold bind, log, pushHistory, modify, ret. simpl.
  case_decide as Hconv.
  - eexists. split; [done|]. simpl. by rewrite <- app_assoc.
  - set (s1 := setHistory _ _).
    destruct (handleParsedResponse_returns W r answer s1) as ([] & s2 & E).
    pose proof (handleParsedResponse_keeps W r answer s1) as K.
    rewrite E in K |- *. simpl in K.
    eexists. split; [done|]. simpl. rewrite K. subst s1. simpl.
    by rewrite <- app_assoc.
Qed.

Lemma handleChatMessage_recorded (W : World) (message : string) (r : Parsed)
    (answer : string) (s : AppState) :
  conversationHistory (exec (handleChatMessage W message (Returned r) answer) s)
  = trimHistory (conversationHistory s ++ [userEntry message; assistantEntry r])
  ∧ threw (handleChatMessage W message (Returned r) answer) s = false.
Proof.
  destruct (handleChatMessage_run W message r answer s) as (s' & E & H).
  unfold exec, threw. by rewrite E.
Qed.

(** The history after a chat message whose language-model call threw. *)
Lemma handleChatMessage_failed (W : World) (message : string) (e : string)
    (answer : string) (s : AppState) :
  conversationHistory (exec (handleChatMessage W message (Thrown e) answer) s)
  = conversationHistory s
  ∧ threw (handleChatMessage W message (Thrown e) answer) s = false.
Proof. done. Qed.

(** [handleChatMessage] is the chat turn around [handleParsedCommand]. *)
Lemma handleChatMessage_chatTurn (W : World) (message : string) (llm : Outcome Parsed)
    (answer : string) (s : AppState) :
  handleChatMessage W message llm answer s
  = chatTurn (λ r, handleParsedResponse W r answer) message llm s.
Proof.
  unfold handleChatMessage, chatTurn, chatOpening, chatReply, chatTrim, tryCatch.
  unfold bind, log, pushHistory, modify, ret, throw. simpl.
  destruct llm as [r|e]; [|done]. simpl.
  case_decide; [done|].
  by destruct (handleParsedResponse W r answer _) as [[[]|e] s2].
Qed.

(** The state in which the command of a response is handled. *)
Lemma chatOpening_run (message : string) (r : Parsed) (s : AppState) :
  chatOpening message (Returned r) s
  = (Returned r,
     setHistory (conversationHistory s ++ [userEntry message])
       (setConsole (console s ++ [ProcessingMessage; DebugInfo r]) s)).
Proof.
  unfold chatOpening, bind, log, pushHistory, modify, ret, setHistory, setConsole,
    userEntry. simpl. by rewrite <- app_assoc.
Qed.

Lemma chatOpening_history (message : string) (r : Parsed) (s : AppState) :
  conversationHistory (exec (chatOpening message (Returned r)) s)
  = conversationHistory s ++ [userEntry message].
Proof. unfold exec. by rewrite chatOpening_run. Qed.

(** A turn whose command handler returns. *)
Lemma chatTurn_returns (handler : Parsed → M unit) (message : string) (r : Parsed)
    (s s2 : AppState) :
  (if decide (action (base r) = "conversational")
   then s2 = setConsole (console (exec (chatOpening message (Returned r)) s)
                           ++ [Conversational (c_message (base r))])
               (exec (chatOpening message (Returned r)) s)
   else handler r (exec (chatOpening message (Returned r)) s) = (Returned tt, s2)) →
  chatTurn handler message (Returned r) s
  = (Returned tt,
     setHistory (trimHistory (conversationHistory s2 ++ [assistantEntry r])) s2).
Proof.
  unfold exec. rewrite chatOpening_run. simpl.
  unfold chatTurn, tryCatch, bind. rewrite chatOpening_run.
  unfold chatReply, assistantEntry, chatTrim, bind, log, pushHistory, modify.
  case_decide.
  - by intros ->.
  - by intros ->.
Qed.

(** A turn whose command handler throws. *)
Lemma chatTurn_throws (handler : Parsed → M unit) (message : string) (r : Parsed)
    (e : string) (s s2 : AppState) :
  action (base r) ≠ "conversational" →
  handler r (exec (chatOpening message (Returned r)) s) = (Thrown e, s2) →
  chatTurn handler message (Returned r) s
  = (Returned tt, setConsole (console s2 ++ [ChatFailed e]) s2).
Proof.
  unfold exec. rewrite chatOpening_run. simpl. intros Hne Hh.
  unfold chatTurn, tryCatch, bind. rewrite chatOpening_run.
  unfold chatReply, bind. rewrite decide_False by done. by rewrite Hh.
Qed.

Lemma chatTurn_never_throws (handler : Parsed → M unit) (message : string)
    (llm : Outcome Parsed) (s : AppState) :
  threw (chatTurn handler message llm) s = false.
Proof.
  destruct llm as [r|e]; [|done].
  destruct (decide (action (base r) = "conversational")) as [Hc|Hc].
  - unfold threw. erewrite chatTurn_returns; [done|]. by rewrite decide_True.
  - destruct (handler r (exec (chatOpening message (Returned r)) s)) as [[[]|e] s2] eqn:E.
    + unfold threw. erewrite chatTurn_returns; [done|]. by rewrite decide_False.
    + unfold threw. by erewrite chatTurn_throws.
Qed.




(** From the empty history of a fresh session, no sequence of chat messages
    ever leaves more than 10 entries. *)
Lemma chatSession_bounded (W : World)
    (inputs : list (string * Outcome Parsed * string)) (s : AppState) :
  (length (conversationHistory s) ≤ maxConversationHistory)%nat →
  (length (conversationHistory (chatSession W inputs s)) ≤ maxConversationHistory)%nat.
Proof.
  revert s. induction inputs as [|[[message llm] answer] inputs IH]; intros s Hs; [done|].
  apply IH. destruct llm as [r|e].
  - destruct (handleChatMessage_recorded W message r answer s) as [-> _].
    rewrite trimHistory_lastN, length_lastN. lia.
  - by destruct (handleChatMessage_failed W message e answer s) as [-> _].
Qed.

(** * Further properties of the code *)

(** ** [TodoService]: adding, finding, deleting *)

Section TodoServiceFacts.

Import TodoService.

Lemma find_push_None {A} (P : A → Prop) `{!∀ x, Decision (P x)} (l : list A) (x : A) :
  list_find P l = None →
  list_find P (l ++ [x]) = if decide (P x) then Some (length l, x) else None.
Proof.
  induction l as [|y l IH]; simpl.
  - intros _. by destruct (decide (P x)).
  - destruct (decide (P y)); [done|].
    destruct (list_find P l) as [r|]; [done|]. intros _.
    rewrite IH by done. by destruct (decide (P x)).
Qed.

Lemma find_delete_None {A} (P : A → Prop) `{!∀ x, Decision (P x)} (l : list A) (j : nat) :
  list_find P l = None → list_find P (delete j l) = None.
Proof.
  intros HN. apply list_find_None. apply list_find_None in HN.
  rewrite Forall_forall in *. intros x Hx. apply HN.
  by eapply list_elem_of_delete_inv.
Qed.

Lemma findTodoById_None (todos : list TodoItem) (todoId : string) :
  findTodoById todos todoId = None ↔ ∀ t, t ∈ todos → id t ≠ todoId.
Proof.
  unfold findTodoById. rewrite fmap_None, list_find_None, Forall_forall. done.
Qed.

Lemma findTodoById_Some (todos : list TodoItem) (todoId : string) (t : TodoItem) :
  findTodoById todos todoId = Some t ↔
  ∃ i, list_find (λ u, id u = todoId) todos = Some (i, t).
Proof.
  unfold findTodoById. split.
  - destruct (list_find _ todos) as [[i u]|]; [|done]. simpl. intros [= ->]. by exists i.
  - intros [i ->]. done.
Qed.

(** X1. A todo added under a fresh id is found again under that id; it is
    appended with the given title and not completed, and a lookup of any
    other id gives what it gave before. *)
Theorem X1_add_then_find (todos : list TodoItem) (newId : string) (t1 t2 : Date)
    (ttl : string) (options : TodoOptions) :
  (∀ t, t ∈ todos → id t ≠ newId) →
  findTodoById (snd (addTodoToList todos newId t1 t2 ttl options)) newId
    = Some (fst (addTodoToList todos newId t1 t2 ttl options))
  ∧ snd (addTodoToList todos newId t1 t2 ttl options)
    = todos ++ [fst (addTodoToList todos newId t1 t2 ttl options)]
  ∧ title (fst (addTodoToList todos newId t1 t2 ttl options)) = ttl
  ∧ completed (fst (addTodoToList todos newId t1 t2 ttl options)) = false
  ∧ ∀ other, other ≠ newId →
      findTodoById (snd (addTodoToList todos newId t1 t2 ttl options)) other
      = findTodoById todos other.
Proof.
  intros Hfresh. apply findTodoById_None in Hfresh. simpl.
  repeat split.
  - unfold findTodoById in *. apply fmap_None in Hfresh.
    rewrite (find_push_None _ _ _ Hfresh). simpl. by rewrite decide_True.
  - intros other Hother. unfold findTodoById.
    destruct (list_find (λ u, id u = other) todos) as [r|] eqn:E.
    + by rewrite (find_push _ _ _ _ E).
    + rewrite (find_push_None _ _ _ E). simpl. by rewrite decide_False.
Qed.

Lemma X1_add_then_find_witness :
  findTodoById
    (snd (addTodoToList [milkTodo] "0f1e2d3c-3333-4333-8333-333333333333" 2 2
            "Finish report" noOptions))
    "0f1e2d3c-3333-4333-8333-333333333333"
  = Some reportTodo.
Proof.
  apply (X1_add_then_find [milkTodo] "0f1e2d3c-3333-4333-8333-333333333333" 2 2
           "Finish report" noOptions).
  intros t Hin. apply list_elem_of_singleton in Hin as ->. discriminate.
Defined.

Lemma first_index_unique (todos : list TodoItem) (j : nat) (d : TodoItem) :
  NoDup (map id todos) → todos !! j = Some d →
  list_find (λ u, id u = id d) todos = Some (j, d).
Proof.
  intros Hnd Hj. apply list_find_Some. split; [done|]. split; [done|].
  intros k u Hk Hlt Hid.
  assert (k = j); [|lia].
  eapply (NoDup_lookup (map id todos) k j (id d)); [done| |].
  - by rewrite list_lookup_fmap, Hk, <- Hid.
  - by rewrite list_lookup_fmap, Hj.
Qed.

(** X2. [deleteTodo] removes one todo, the first with the id, and answers
    [true]; when no todo has the id it answers [false] and changes nothing.
    Lookups of other ids are unaffected, and when ids are unique the
    deleted id is no longer found. *)
Theorem X2_delete_spec (todos : list TodoItem) (todoId : string) :
  (findTodoById todos todoId = None → deleteTodo todos todoId = (false, todos))
  ∧ (∀ t, findTodoById todos todoId = Some t →
       fst (deleteTodo todos todoId) = true
       ∧ S (length (snd (deleteTodo todos todoId))) = length todos
       ∧ ∃ i, todos !! i = Some t
              ∧ (∀ j u, todos !! j = Some u → (j < i)%nat → id u ≠ todoId)
              ∧ snd (deleteTodo todos todoId) = delete i todos)
  ∧ (∀ other, other ≠ todoId →
       findTodoById (snd (deleteTodo todos todoId)) other = findTodoById todos other)
  ∧ (NoDup (map id todos) →
       findTodoById (snd (deleteTodo todos todoId)) todoId = None).
Proof.
  unfold deleteTodo, findIndexById.
  destruct (list_find (λ u, id u = todoId) todos) as [[i t]|] eqn:E; simpl.
  - pose proof E as E'. apply list_find_Some in E' as (Hi & Hid & Hfirst).
    split; [|split; [|split]].
    + unfold findTodoById. by rewrite E.
    + intros t'. unfold findTodoById. rewrite E. simpl. intros [= <-].
      split; [done|]. split.
      * rewrite length_delete by eauto.
        apply lookup_lt_Some in Hi. lia.
      * exists i. eauto.
    + intros other Hother. unfold findTodoById.
      destruct (list_find (λ u, id u = other) todos) as [[k u]|] eqn:Ek.
      * rewrite (find_delete_other _ todos k i u Ek); [done|].
        intros ->. apply list_find_Some in Ek as (Hk & Hidk & _). congruence.
      * by rewrite (find_delete_None _ todos i Ek).
    + intros Hnd. apply findTodoById_None. intros u Hu Hidu.
      apply list_elem_of_lookup in Hu as [k Hk].
      destruct (decide (k < i)%nat) as [Hlt|Hge].
      * rewrite list_lookup_delete_lt in Hk by done. by eapply Hfirst.
      * rewrite list_lookup_delete_ge in Hk by lia.
        assert (S k = i); [|lia].
        eapply (NoDup_lookup (map id todos) (S k) i todoId); [done| |].
        -- by rewrite list_lookup_fmap, Hk, <- Hidu.
        -- by rewrite list_lookup_fmap, Hi, <- Hid.
  - split; [done|]. split; [|split].
    + intros t. unfold findTodoById. by rewrite E.
    + done.
    + intros _. unfold findTodoById. by rewrite E.
Qed.

Lemma X2_delete_spec_witness :
  findTodoById (snd (deleteTodo [milkTodo; reportTodo] (id milkTodo))) (id milkTodo) = None
  ∧ findTodoById (snd (deleteTodo [milkTodo; reportTodo] (id milkTodo))) (id reportTodo)
    = findTodoById [milkTodo; reportTodo] (id reportTodo)
  ∧ deleteTodo [milkTodo; reportTodo] (id dogTodo) = (false, [milkTodo; reportTodo]).
Proof.
  destruct (X2_delete_spec [milkTodo; reportTodo] (id milkTodo)) as (_ & _ & Hother & Hgone).
  split; [|split].
  - apply Hgone. simpl. repeat constructor; rewrite ?elem_of_cons, ?elem_of_nil.
    + intros [H|[]]. discriminate.
    + tauto.
  - apply Hother. discriminate.
  - apply (X2_delete_spec [milkTodo; reportTodo] (id dogTodo)). reflexivity.
Defined.

(** X3. Adding a todo under a fresh id and deleting that id gives back
    the list as it was. *)
Theorem X3_add_then_delete (todos : list TodoItem) (newId : string) (t1 t2 : Date)
    (ttl : string) (options : TodoOptions) :
  (∀ t, t ∈ todos → id t ≠ newId) →
  deleteTodo (snd (addTodoToList todos newId t1 t2 ttl options)) newId = (true, todos).
Proof.
  intros Hfresh. apply findTodoById_None in Hfresh.
  unfold findTodoById in Hfresh. apply fmap_None in Hfresh.
  unfold deleteTodo, findIndexById. simpl.
  rewrite (find_push_None _ _ _ Hfresh). simpl. rewrite decide_True by done. simpl.
  by rewrite (delete_middle todos []), app_nil_r.
Qed.

Lemma X3_add_then_delete_witness :
  deleteTodo
    (snd (addTodoToList [milkTodo] "0f1e2d3c-3333-4333-8333-333333333333" 2 2
            "Finish report" noOptions))
    "0f1e2d3c-3333-4333-8333-333333333333"
  = (true, [milkTodo]).
Proof.
  apply (X3_add_then_delete [milkTodo] "0f1e2d3c-3333-4333-8333-333333333333" 2 2
           "Finish report" noOptions).
  intros t Hin. apply list_elem_of_singleton in Hin as ->. discriminate.
Defined.

(** Two modifications of the same id in a row are one modification, when
    the first keeps the id. *)
Lemma modifyById_twice (f g : TodoItem → TodoItem) (todos : list TodoItem)
    (todoId : string) :
  (∀ t, id (f t) = id t) →
  modifyById g (snd (modifyById f todos todoId)) todoId
  = modifyById (λ t, g (f t)) todos todoId.
Proof.
  intros Hf. unfold modifyById.
  destruct (list_find (λ u, id u = todoId) todos) as [[i t]|] eqn:E; simpl.
  - apply list_find_Some in E as (Hi & Hid & Hfirst).
    rewrite (find_first (λ u, id u = todoId) (<[i:=f t]> todos) i (f t)).
    + by rewrite list_insert_insert_eq.
    + apply list_lookup_insert_eq. by eapply lookup_lt_Some.
    + by rewrite Hf.
    + intros j u Hj Hlt. rewrite list_lookup_insert_ne in Hj by lia. by eapply Hfirst.
  - by rewrite E.
Qed.

(** X4. Completing and uncompleting the same id compose to the last
    operation: uncompleting after completing is uncompleting, completing
    twice is completing once (with the later time), and completing after
    uncompleting is completing. *)
Theorem X4_complete_uncomplete (todos : list TodoItem) (todoId : string)
    (now1 now2 : Date) :
  uncompleteTodo (snd (completeTodo todos todoId now1)) todoId now2
    = uncompleteTodo todos todoId now2
  ∧ completeTodo (snd (completeTodo todos todoId now1)) todoId now2
    = completeTodo todos todoId now2
  ∧ completeTodo (snd (uncompleteTodo todos todoId now1)) todoId now2
    = completeTodo todos todoId now2.
Proof.
  unfold completeTodo, uncompleteTodo.
  repeat split; by rewrite modifyById_twice.
Qed.

(** X5. The active and the completed view split the list: every todo is in
    exactly one of them, each view keeps the order of the list, and the
    active view holds the todos that are not completed. *)
Theorem X5_views_partition (todos : list TodoItem) :
  getActiveTodos todos ++ getCompletedTodos todos ≡ₚ todos
  ∧ getActiveTodos todos `sublist_of` todos
  ∧ getCompletedTodos todos `sublist_of` todos
  ∧ (∀ t, t ∈ getActiveTodos todos ↔ t ∈ todos ∧ completed t = false)
  ∧ (∀ t, t ∈ getCompletedTodos todos ↔ t ∈ todos ∧ completed t = true)
  ∧ (length (getActiveTodos todos) + length (getCompletedTodos todos) = length todos)%nat.
Proof.
  assert (Hperm : getActiveTodos todos ++ getCompletedTodos todos ≡ₚ todos).
  { unfold getActiveTodos, getCompletedTodos.
    rewrite <- (filter_app_complement (λ t, completed t = false) todos) at 3.
    f_equiv.
    rewrite (list_filter_iff (λ t, completed t = true) (λ t, completed t ≠ false)); [done|].
    intros t. destruct (completed t); naive_solver. }
  split; [done|]. split; [apply sublist_filter|]. split; [apply sublist_filter|].
  split; [|split].
  - intros t. unfold getActiveTodos. rewrite list_elem_of_filter. tauto.
  - intros t. unfold getCompletedTodos. rewrite list_elem_of_filter. tauto.
  - by rewrite <- length_app, Hperm.
Qed.

(** X6. [findTodoByTitle] returns the first todo whose title contains the
    text, ignoring case; it returns nothing exactly when no title contains
    it; and with an empty text it returns the first todo of the list. *)
Theorem X6_findTodoByTitle (todos : list TodoItem) (text : string) :
  (∀ t, findTodoByTitle todos text = Some t →
     ∃ i, todos !! i = Some t
          ∧ Js.includes (Js.toLowerCase (title t)) (Js.toLowerCase text) = true
          ∧ ∀ j u, todos !! j = Some u → (j < i)%nat →
              Js.includes (Js.toLowerCase (title u)) (Js.toLowerCase text) = false)
  ∧ (findTodoByTitle todos text = None ↔
     ∀ t, t ∈ todos →
       Js.includes (Js.toLowerCase (title t)) (Js.toLowerCase text) = false)
  ∧ findTodoByTitle todos EmptyString = head todos.
Proof.
  unfold findTodoByTitle. split; [|split].
  - intros t Hfind.
    destruct (list_find _ todos) as [[i u]|] eqn:E; [|done].
    simpl in Hfind. injection Hfind as ->.
    apply list_find_Some in E as (Hi & Hinc & Hfirst).
    exists i. split; [done|]. split; [done|].
    intros j u Hj Hlt. apply not_true_is_false. by eapply Hfirst.
  - rewrite fmap_None, list_find_None, Forall_forall.
    split; intros H t Ht; specialize (H t Ht);
      [by apply not_true_is_false | by rewrite H].
  - destruct todos as [|t todos]; [done|]. simpl.
    rewrite decide_True; [done|]. apply includes_empty.
Qed.

Lemma verifyTitle_cases (c : option string) (t : TodoItem) :
  (verifyTitle c t = mkResolution (Some t) None
   ∧ ∀ c', c = Some c' →
       Js.includes (Js.toLowerCase (title t)) (Js.toLowerCase c') = true)
  ∨ ∃ e, verifyTitle c t = failWith e.
Proof.
  unfold verifyTitle. destruct c as [c|]; [|left; by split].
  destruct (Js.truthy c) eqn:Ht; simpl.
  - destruct (Js.includes _ _) eqn:Hinc; simpl; [|right; by eexists].
    left. split; [done|]. by intros c' [= <-].
  - left. split; [done|]. intros c' [= <-].
    destruct c; [|done]. simpl. apply includes_empty.
Qed.

(** The three shapes of a resolution. *)
Lemma resolveNumber_cases (digits : JsNumber.t → string) (todos : list TodoItem)
    (ref : TodoServiceNumber.Reference) :
  (∃ t, TodoServiceNumber.resolveTodoReference digits todos ref
        = mkResolution (Some t) None
        ∧ t ∈ todos
        ∧ ∀ c, TodoServiceNumber.confirmTitle ref = Some c →
            Js.includes (Js.toLowerCase (title t)) (Js.toLowerCase c) = true)
  ∨ (∃ e, TodoServiceNumber.resolveTodoReference digits todos ref = failWith e)
  ∨ (TodoServiceNumber.resolveTodoReference digits todos ref = mkResolution None None
     ∧ Js.truthyOpt (TodoServiceNumber.shortId ref) = false
     ∧ ∃ x, TodoServiceNumber.todoNumber ref = Some x
            ∧ JsNumber.toZ x = None
            ∧ JsNumber.ltInt x 1 || JsNumber.geInt x (Z.of_nat (length todos) + 1)
              = false).
Proof.
  destruct (Js.truthyOpt (TodoServiceNumber.shortId ref)) eqn:Hsid.
  - unfold TodoServiceNumber.resolveTodoReference. rewrite Hsid.
    destruct (findTodoByShortId _ _) as [t|] eqn:E; [|right; left; by eexists].
    apply findTodoByShortId_Some in E as (_ & i & E).
    apply list_find_Some in E as (Hi & _).
    destruct (verifyTitle_cases (TodoServiceNumber.confirmTitle ref) t)
      as [[-> Hc]|[e ->]].
    + left. exists t. split; [done|]. split; [|done]. by eapply list_elem_of_lookup_2.
    + right; left. by exists e.
  - destruct (TodoServiceNumber.todoNumber ref) as [x|] eqn:Hx.
    + rewrite (resolveNumber_number_branch digits todos ref x) by done.
      destruct (JsNumber.ltInt x 1 || JsNumber.geInt x (Z.of_nat (length todos) + 1))
        eqn:Hb; [right; left; by eexists|].
      destruct (JsNumber.index todos (JsNumber.minusOne x)) as [t|] eqn:Hi.
      * apply index_elem_of in Hi.
        destruct (verifyTitle_cases (TodoServiceNumber.confirmTitle ref) t)
          as [[-> Hc]|[e ->]].
        -- left. by exists t.
        -- right; left. by exists e.
      * right; right. split; [done|]. split; [done|]. exists x.
        split; [done|]. split; [|done].
        destruct (JsNumber.toZ x) as [n|] eqn:Hn; [|done]. exfalso.
        apply orb_false_iff in Hb as [H1 H2].
        rewrite (ltInt_integer x n) in H1 by done.
        rewrite (geInt_integer x n) in H2 by done.
        rewrite (index_integer todos x n) in Hi by (done || lia).
        apply lookup_ge_None in Hi. lia.
    + right; left. exists errNoIdentifier.
      unfold TodoServiceNumber.resolveTodoReference. by rewrite Hsid, Hx.
Qed.

(** X7. [resolveTodoReference] never returns both a todo and an error. A
    returned todo is an element of the list, and its title contains the
    confirmTitle, if one was given, ignoring case. The method returns
    neither a todo nor an error exactly when no non-empty shortId is given
    and the todoNumber is not an integer and passes the bounds test
    ([NaN], or a fraction from 1 up to the length plus 1); with an integer
    todoNumber, or none, it returns exactly one of the two. *)
Theorem X7_resolution_sound (digits : JsNumber.t → string) (todos : list TodoItem)
    (ref : TodoServiceNumber.Reference) :
  (todo (TodoServiceNumber.resolveTodoReference digits todos ref) = None
   ∨ error (TodoServiceNumber.resolveTodoReference digits todos ref) = None)
  ∧ (∀ t, todo (TodoServiceNumber.resolveTodoReference digits todos ref) = Some t →
       t ∈ todos
       ∧ ∀ c, TodoServiceNumber.confirmTitle ref = Some c →
           Js.includes (Js.toLowerCase (title t)) (Js.toLowerCase c) = true)
  ∧ (TodoServiceNumber.resolveTodoReference digits todos ref = mkResolution None None
     ↔ Js.truthyOpt (TodoServiceNumber.shortId ref) = false
       ∧ ∃ x, TodoServiceNumber.todoNumber ref = Some x
              ∧ JsNumber.toZ x = None
              ∧ JsNumber.ltInt x 1 || JsNumber.geInt x (Z.of_nat (length todos) + 1)
                = false)
  ∧ ((∀ x, TodoServiceNumber.todoNumber ref = Some x → is_Some (JsNumber.toZ x)) →
     (∃ t, TodoServiceNumber.resolveTodoReference digits todos ref
           = mkResolution (Some t) None)
     ∨ (∃ e, TodoServiceNumber.resolveTodoReference digits todos ref = failWith e)).
Proof.
  destruct (resolveNumber_cases digits todos ref)
    as [(t & E & Hin & Hc)|[(e & E)|(E & Hsid & x & Hx & Hfrac & Hb)]]; rewrite E.
  - split; [by right|]. split; [by intros ? [= <-]|]. split; [|intros _; left; by exists t].
    split; [done|]. intros (Hsid & x & Hx & Hfrac & Hb).
    rewrite (resolveNumber_number_branch digits todos ref x) in E by done.
    rewrite Hb, (index_fraction todos x Hfrac) in E. done.
  - split; [by left|]. split; [done|]. split; [|intros _; right; by exists e].
    split; [done|]. intros (Hsid & x & Hx & Hfrac & Hb).
    rewrite (resolveNumber_number_branch digits todos ref x) in E by done.
    rewrite Hb, (index_fraction todos x Hfrac) in E. done.
  - split; [by left|]. split; [done|]. split.
    + split; [|done]. intros _. split; [done|]. by exists x.
    + intros Hint. destruct (Hint x Hx) as [n Hn]. congruence.
Qed.

Lemma X7_resolution_sound_witness :
  (∃ t, TodoServiceNumber.resolveTodoReference noDigits [milkTodo; reportTodo]
          (TodoServiceNumber.mkReference None (Some (JsNumber.ofZ 2)) (Some "REPORT"))
        = mkResolution (Some t) None)
  ∨ (∃ e, TodoServiceNumber.resolveTodoReference noDigits [milkTodo; reportTodo]
            (TodoServiceNumber.mkReference None (Some (JsNumber.ofZ 2)) (Some "REPORT"))
          = failWith e).
Proof.
  apply (X7_resolution_sound noDigits [milkTodo; reportTodo]
           (TodoServiceNumber.mkReference None (Some (JsNumber.ofZ 2)) (Some "REPORT"))).
  intros x [= <-]. by exists 2.
Defined.

(** X8. Positions drift after a delete. With unique ids, once the todo at
    index [j] is deleted, a positional reference below it still selects the
    same todo, and a positional reference [n] at or above it selects what
    position [n + 1] selected before. *)
Theorem X8_positions_shift (todos : list TodoItem) (j : nat) (d : TodoItem) (n : Z) :
  NoDup (map id todos) →
  todos !! j = Some d →
  todo (resolveTodoReference (snd (deleteTodo todos (id d))) (byPosition n))
  = todo (resolveTodoReference todos
            (byPosition (if n - 1 <? Z.of_nat j then n else n + 1))).
Proof.
  intros Hnd Hj.
  assert (Hdel : snd (deleteTodo todos (id d)) = delete j todos).
  { unfold deleteTodo, findIndexById. by rewrite (first_index_unique todos j d). }
  rewrite Hdel. unfold resolveTodoReference, byPosition. simpl.
  pose proof (lookup_lt_Some _ _ _ Hj) as Hlen.
  rewrite length_delete by eauto.
  replace (Z.of_nat (length todos - 1)) with (Z.of_nat (length todos) - 1) by lia.
  destruct (n - 1 <? Z.of_nat j) eqn:Hn.
  - apply Z.ltb_lt in Hn.
    destruct (n - 1 <? 0) eqn:H0; [done|]. simpl. apply Z.ltb_ge in H0.
    replace (n - 1 >=? Z.of_nat (length todos) - 1) with false by lia.
    replace (n - 1 >=? Z.of_nat (length todos)) with false by lia.
    rewrite list_lookup_delete_lt by lia.
    by destruct (todos !! Z.to_nat (n - 1)).
  - apply Z.ltb_ge in Hn.
    replace (n - 1 <? 0) with false by lia.
    replace (n + 1 - 1 <? 0) with false by lia. simpl.
    destruct (n - 1 >=? Z.of_nat (length todos) - 1) eqn:H1.
    + replace (n + 1 - 1 >=? Z.of_nat (length todos)) with true by lia. done.
    + replace (n + 1 - 1 >=? Z.of_nat (length todos)) with false by lia.
      rewrite list_lookup_delete_ge by lia.
      replace (Z.to_nat (n + 1 - 1)) with (S (Z.to_nat (n - 1))) by lia.
      by destruct (todos !! S (Z.to_nat (n - 1))).
Qed.

Lemma X8_positions_shift_witness :
  todo (resolveTodoReference
          (snd (deleteTodo [milkTodo; reportTodo] (id milkTodo))) (byPosition 1))
  = todo (resolveTodoReference [milkTodo; reportTodo] (byPosition (1 + 1))).
Proof.
  apply (X8_positions_shift [milkTodo; reportTodo] 0 milkTodo 1).
  - simpl. repeat constructor; rewrite ?elem_of_cons, ?elem_of_nil.
    + intros [H|[]]. discriminate.
    + tauto.
  - reflexivity.
Defined.

(** ** Case in short ids *)

Lemma lowerChar_idem (c : ascii) : Js.lowerChar (Js.lowerChar c) = Js.lowerChar c.
Proof. destruct c as [[] [] [] [] [] [] [] []]; reflexivity. Qed.

Lemma lowerChar_not_upper (c : ascii) : isUpper (Js.lowerChar c) = false.
Proof. destruct c as [[] [] [] [] [] [] [] []]; reflexivity. Qed.

Lemma toLowerCase_idem (s : string) : Js.toLowerCase (Js.toLowerCase s) = Js.toLowerCase s.
Proof. induction s as [|c s IH]; simpl; [done|]. by rewrite lowerChar_idem, IH. Qed.

Lemma length_toLowerCase (s : string) : String.length (Js.toLowerCase s) = String.length s.
Proof. induction s as [|c s IH]; simpl; [done|]. by rewrite IH. Qed.

Lemma truthy_toLowerCase (s : string) : Js.truthy (Js.toLowerCase s) = Js.truthy s.
Proof. by destruct s. Qed.

Lemma get_toLowerCase (k : nat) (s : string) :
  String.get k (Js.toLowerCase s) = Js.lowerChar <$> String.get k s.
Proof.
  revert k. induction s as [|c s IH]; intros k; simpl; [done|].
  destruct k; [done|]. apply IH.
Qed.

Lemma startsWith_get (s p : string) (k : nat) (c : ascii) :
  Js.startsWith s p = true → String.get k p = Some c → String.get k s = Some c.
Proof.
  revert p k. induction s as [|a s IH]; intros [|b p] k; simpl; try done.
  destruct (ascii_dec b a) as [->|]; [|done].
  intros Hp. destruct k; [done|]. by apply IH.
Qed.

Lemma get_is_Some (k : nat) (s : string) :
  (k < String.length s)%nat → ∃ c, String.get k s = Some c.
Proof.
  revert k. induction s as [|a s IH]; intros k; simpl; [lia|].
  destruct k; [by eexists|]. intros. apply IH. lia.
Qed.

(** X9. The short id of a reference is matched without regard to its own
    case: a shortId and its lowercase form find the same todo. *)
Theorem X9_shortId_query_case (todos : list TodoItem) (s : string)
    (n : option Z) (c : option string) :
  findTodoByShortId todos s = findTodoByShortId todos (Js.toLowerCase s)
  ∧ todo (resolveTodoReference todos (mkReference (Some s) n c))
    = todo (resolveTodoReference todos (mkReference (Some (Js.toLowerCase s)) n c)).
Proof.
  assert (Hfind : findTodoByShortId todos s = findTodoByShortId todos (Js.toLowerCase s)).
  { unfold findTodoByShortId.
    by rewrite truthy_toLowerCase, length_toLowerCase, toLowerCase_idem. }
  split; [done|].
  unfold resolveTodoReference. simpl. rewrite truthy_toLowerCase, <- Hfind.
  destruct (Js.truthy s); [|done].
  by destruct (findTodoByShortId todos s).
Qed.

(** X10. Only the reference is lowercased, not the stored id: a todo whose
    id has an ASCII capital letter among its first 8 characters is never
    found by any short id. *)
Theorem X10_uppercase_id_never_found (todos : list TodoItem) (s : string)
    (t : TodoItem) (k : nat) (c : ascii) :
  String.get k (id t) = Some c → (k < 8)%nat → isUpper c = true →
  findTodoByShortId todos s ≠ Some t.
Proof.
  intros Hget Hk Hup Hfind.
  apply findTodoByShortId_Some in Hfind as (Hlen & i & Hfind).
  apply list_find_Some in Hfind as (_ & Hstart & _).
  destruct (get_is_Some k (Js.toLowerCase s)) as [c' Hc'].
  { rewrite length_toLowerCase. lia. }
  pose proof (startsWith_get _ _ _ _ Hstart Hc') as Hsame.
  rewrite Hget in Hsame. injection Hsame as ->.
  rewrite get_toLowerCase in Hc'.
  destruct (String.get k s) as [c0|]; [|done]. simpl in Hc'. injection Hc' as <-.
  by rewrite lowerChar_not_upper in Hup.
Qed.

Lemma X10_uppercase_id_never_found_witness :
  findTodoByShortId [upperTodo] "ABCDEF01" ≠ Some upperTodo
  ∧ findTodoByShortId [upperTodo] "abcdef01" ≠ Some upperTodo.
Proof.
  split.
  - apply (X10_uppercase_id_never_found [upperTodo] "ABCDEF01" upperTodo 0 "A"%char);
      [reflexivity | lia | reflexivity].
  - apply (X10_uppercase_id_never_found [upperTodo] "abcdef01" upperTodo 0 "A"%char);
      [reflexivity | lia | reflexivity].
Defined.

(** ** [updateTodo] *)

(** X11. [updateTodo] answers [false] and changes nothing when no todo has
    the id. Otherwise it answers [true] and changes the first todo with the
    id only: the fields of the payload are written, the others kept, and
    [updatedAt] is the current time whatever the payload says. *)
Theorem X11_update_frame (todos : list TodoItem) (todoId : string)
    (updates : PartialTodo) (now : Date) :
  (findTodoById todos todoId = None →
   updateTodo todos todoId updates now = (false, todos))
  ∧ (∀ t, findTodoById todos todoId = Some t →
       fst (updateTodo todos todoId updates now) = true
       ∧ length (snd (updateTodo todos todoId updates now)) = length todos
       ∧ ∃ i t',
           todos !! i = Some t
           ∧ snd (updateTodo todos todoId updates now) !! i = Some t'
           ∧ updatedAt t' = now
           ∧ title t' = default (title t) (p_title updates)
           ∧ priority t' = default (priority t) (p_priority updates)
           ∧ dueDate t' = default (dueDate t) (p_dueDate updates)
           ∧ categories t' = default (categories t) (p_categories updates)
           ∧ completed t' = default (completed t) (p_completed updates)
           ∧ ∀ j, j ≠ i →
               snd (updateTodo todos todoId updates now) !! j = todos !! j).
Proof.
  unfold updateTodo, modifyById, findTodoById.
  destruct (list_find (λ u, id u = todoId) todos) as [[i t]|] eqn:E; simpl.
  - split; [done|]. intros t' [= <-].
    apply list_find_Some in E as (Hi & _).
    split; [done|]. split; [apply length_insert|].
    exists i, (assign updates now t). split; [done|].
    split; [apply list_lookup_insert_eq; by eapply lookup_lt_Some|].
    repeat split; try done.
    intros j Hj. by apply list_lookup_insert_ne.
  - split; [done|]. done.
Qed.

Lemma X11_update_frame_witness :
  updateTodo [milkTodo] (id reportTodo) titlePayload 9 = (false, [milkTodo])
  ∧ fst (updateTodo [milkTodo; reportTodo] (id milkTodo) titlePayload 9) = true.
Proof.
  split.
  - apply (X11_update_frame [milkTodo] (id reportTodo) titlePayload 9). reflexivity.
  - apply (proj2 (X11_update_frame [milkTodo; reportTodo] (id milkTodo) titlePayload 9)
             milkTodo). reflexivity.
Defined.

End TodoServiceFacts.

(** ** Invariants of the session state *)

Section PreservesFacts.

Context {A B : Type} (I : AppState → Prop).

Lemma preserves_ret (a : A) : preserves I (ret a).
Proof. by intros s. Qed.

Lemma preserves_throw (e : string) : preserves I (@throw A e).
Proof. by intros s. Qed.

Lemma preserves_bind (m : M A) (k : A → M B) :
  preserves I m → (∀ a, preserves I (k a)) → preserves I (bind m k).
Proof.
  intros Hm Hk s Hs. unfold bind. specialize (Hm s Hs).
  destruct (m s) as [[a|e] s']; simpl in *; [|done].
  by apply Hk.
Qed.

Lemma preserves_tryCatch (body : M A) (handler : string → M A) :
  preserves I body → (∀ e, preserves I (handler e)) →
  preserves I (tryCatch body handler).
Proof.
  intros Hb Hh s Hs. unfold tryCatch. specialize (Hb s Hs).
  destruct (body s) as [[a|e] s']; simpl in *; [done|].
  by apply Hh.
Qed.

Lemma preserves_attempt (m : M A) : preserves I m → preserves I (attempt m).
Proof. intros Hm s Hs. unfold attempt. specialize (Hm s Hs). by destruct (m s). Qed.

End PreservesFacts.

Lemma currentListEntry_frame (s s' : AppState) :
  lists s' = lists s → currentListId s' = currentListId s →
  currentListEntry s' = currentListEntry s.
Proof. intros Hl Hc. unfold currentListEntry. by rewrite Hl, Hc. Qed.

(** Every handler keeps an invariant of the lists that the three places
    which write lists or the current-list pointer keep. *)
Section HandlersPreserve.

Variable W : World.
Variable I : AppState → Prop.

Hypothesis I_frame :
  ∀ s s', lists s' = lists s → currentListId s' = currentListId s → I s → I s'.
Hypothesis I_todos : ∀ ts, preserves I (setCurrentTodos ts).
Hypothesis I_switch : ∀ nm, preserves I (setCurrentListByName nm).
Hypothesis I_create : ∀ parsed, preserves I (handleCreateList W parsed).

Lemma preserves_get : preserves I get.
Proof. by intros s. Qed.

Lemma preserves_log (o : Output) : preserves I (log o).
Proof. intros s. by apply I_frame. Qed.

Lemma preserves_freshUuid : preserves I (freshUuid W).
Proof. intros s. by apply I_frame. Qed.

Lemma preserves_newDate : preserves I (newDate W).
Proof. intros s. by apply I_frame. Qed.

Lemma preserves_dbCall : preserves I (dbCall W).
Proof.
  intros s. unfold dbCall. destruct (dbThrows W (dbCalls s)); by apply I_frame.
Qed.

Lemma preserves_pushHistory (e : string) : preserves I (pushHistory e).
Proof. intros s. by apply I_frame. Qed.

Lemma preserves_getCurrentList : preserves I getCurrentList.
Proof. by intros s. Qed.

Lemma preserves_findListByName nm : preserves I (findListByName nm).
Proof. by intros s. Qed.

Create HintDb invariants discriminated.

#[local] Hint Resolve preserves_ret preserves_throw preserves_get preserves_log
  preserves_freshUuid preserves_newDate preserves_dbCall preserves_pushHistory
  preserves_getCurrentList preserves_findListByName preserves_attempt
  I_todos I_switch I_create : invariants.

Ltac preserves_step :=
  match goal with
  | |- preserves _ (bind _ _) => apply preserves_bind; [|intros ?]
  | |- preserves _ (tryCatch _ _) => apply preserves_tryCatch; [|intros ?]
  | |- preserves _ (match ?x with _ => _ end) => destruct x
  | |- _ => solve [eauto with invariants]
  end.

Ltac preserves_facts := repeat preserves_step.

Lemma preserves_addTodoToCurrentList t : preserves I (addTodoToCurrentList W t).
Proof. unfold addTodoToCurrentList. preserves_facts. Qed.

Lemma preserves_deleteTodoFromCurrentList todoId :
  preserves I (deleteTodoFromCurrentList W todoId).
Proof. unfold deleteTodoFromCurrentList. preserves_facts. Qed.

Lemma preserves_createTodoM ttl options : preserves I (createTodoM W ttl options).
Proof. unfold createTodoM. preserves_facts. Qed.

Lemma preserves_completeTodoM ts todoId : preserves I (completeTodoM W ts todoId).
Proof. unfold completeTodoM. preserves_facts. Qed.

Lemma preserves_updateTodoM ts todoId updates : preserves I (updateTodoM W ts todoId updates).
Proof. unfold updateTodoM. preserves_facts. Qed.

Lemma preserves_reread todoIndex fallback : preserves I (reread todoIndex fallback).
Proof. unfold reread. preserves_facts. Qed.

Lemma preserves_clearCurrentList : preserves I (clearCurrentList W).
Proof. unfold clearCurrentList. preserves_facts. Qed.

#[local] Hint Resolve preserves_addTodoToCurrentList preserves_deleteTodoFromCurrentList
  preserves_createTodoM preserves_completeTodoM preserves_updateTodoM preserves_reread
  preserves_clearCurrentList : invariants.

Lemma preserves_addEach ds added failures : preserves I (addEach W ds added failures).
Proof.
  revert added failures. induction ds as [|d ds IH]; intros added failures; simpl.
  - preserves_facts.
  - destruct (negb _); [apply IH|].
    apply preserves_bind; [preserves_facts|]. intros r. apply IH.
Qed.

#[local] Hint Resolve preserves_addEach : invariants.

Lemma preserves_handleParsedCommand cmd : preserves I (handleParsedCommand W cmd).
Proof.
  unfold handleParsedCommand, dispatch.
  repeat case_decide; try solve [eauto with invariants].
  - unfold handleAddTodo. preserves_facts.
  - unfold handleAddMultipleTodos. preserves_facts.
  - unfold handleListTodos. preserves_facts.
  - unfold handleCompleteTodo, updateTodoInCurrentList. preserves_facts.
  - unfold handleEditTodo, updateTodoInCurrentList. preserves_facts.
  - unfold handleSwitchList. preserves_facts.
  - unfold handleDeleteTodo. preserves_facts.
Qed.

Lemma preserves_runSequence cmds i n : preserves I (runSequence W i n cmds).
Proof.
  revert i. induction cmds as [|cmd rest IH]; intros i; simpl.
  - eauto with invariants.
  - apply preserves_bind; [eauto with invariants|]. intros _.
    apply preserves_bind; [apply preserves_attempt, preserves_handleParsedCommand|].
    intros [[]|e]; [apply IH|]. preserves_facts.
Qed.

Lemma preserves_handleCommandSequence parsed answer :
  preserves I (handleCommandSequence W parsed answer).
Proof.
  unfold handleCommandSequence. pose proof preserves_runSequence. preserves_facts.
Qed.

Lemma preserves_handleParsedResponse parsed answer :
  preserves I (handleParsedResponse W parsed answer).
Proof.
  unfold handleParsedResponse, dispatch.
  pose proof preserves_handleCommandSequence.
  repeat case_decide; try solve [eauto with invariants].
  - unfold handleAddTodo. preserves_facts.
  - unfold handleAddMultipleTodos. preserves_facts.
  - unfold handleListTodos. preserves_facts.
  - unfold handleCompleteTodo, updateTodoInCurrentList. preserves_facts.
  - unfold handleEditTodo, updateTodoInCurrentList. preserves_facts.
  - unfold handleSwitchList. preserves_facts.
  - unfold handleDeleteTodo. preserves_facts.
Qed.

Lemma preserves_handleChatMessage message llm answer :
  preserves I (handleChatMessage W message llm answer).
Proof.
  unfold handleChatMessage. pose proof preserves_handleParsedResponse.
  apply preserves_tryCatch; [|intros e; apply preserves_log].
  apply preserves_bind; [apply preserves_log|]. intros _.
  apply preserves_bind; [destruct llm; eauto with invariants|]. intros r.
  apply preserves_bind; [apply preserves_log|]. intros _.
  apply preserves_bind; [apply preserves_pushHistory|]. intros _.
  apply preserves_bind.
  - case_decide; preserves_facts.
  - intros _ s. by apply I_frame.
Qed.

Lemma preserves_slashSwitch input : preserves I (slashSwitch input).
Proof. unfold slashSwitch. preserves_facts. Qed.

Lemma preserves_slashClear : preserves I (slashClear W).
Proof. unfold slashClear. preserves_facts. Qed.

End HandlersPreserve.

(** *** The current-list pointer *)

Lemma currentValid_ids (s : AppState) :
  currentValid s ↔
  ∀ cid, currentListId s = Some cid → cid ∈ map list_id (lists s).
Proof.
  unfold currentValid. split; intros H cid Hc; specialize (H cid Hc).
  - destruct H as (l & Hl & <-). apply list_elem_of_fmap. eauto.
  - apply list_elem_of_fmap in H as (l & -> & Hl). eauto.
Qed.

Lemma setCurrentTodos_ids (ts : list TodoItem) (s : AppState) :
  map list_id (lists (snd (setCurrentTodos ts s))) = map list_id (lists s)
  ∧ map name (lists (snd (setCurrentTodos ts s))) = map name (lists s)
  ∧ currentListId (snd (setCurrentTodos ts s)) = currentListId s.
Proof.
  unfold setCurrentTodos, modify. simpl.
  destruct (currentListEntry s) as [[i l]|] eqn:E; [|done]. simpl.
  unfold currentListEntry in E.
  destruct (currentListId s) as [cid|]; [|done].
  destruct (Js.truthy cid); [|done].
  apply list_find_Some in E as (Hi & _).
  rewrite !list_fmap_insert. simpl.
  rewrite !list_insert_id; [done| |]; by rewrite list_lookup_fmap, Hi.
Qed.

Lemma currentValid_frame (s s' : AppState) :
  lists s' = lists s → currentListId s' = currentListId s →
  currentValid s → currentValid s'.
Proof. unfold currentValid. intros -> ->. done. Qed.

Lemma currentValid_setCurrentTodos ts : preserves currentValid (setCurrentTodos ts).
Proof.
  intros s. rewrite !currentValid_ids.
  destruct (setCurrentTodos_ids ts s) as (-> & _ & ->). done.
Qed.

Lemma currentValid_setCurrentListByName nm :
  preserves currentValid (setCurrentListByName nm).
Proof.
  intros s Hs. unfold setCurrentListByName, findListByName, bind, get, ret, modify.
  simpl. destruct (list_find _ (lists s)) as [[i l]|] eqn:E; simpl; [|done].
  apply list_find_Some in E as (Hi & _).
  intros cid [= <-]. exists l. split; [|done]. by eapply list_elem_of_lookup_2.
Qed.

Lemma currentValid_setCurrentList listId : preserves currentValid (setCurrentList listId).
Proof.
  intros s Hs. unfold setCurrentList, bind, get, ret, modify. simpl.
  destruct (list_find _ (lists s)) as [[i l]|] eqn:E; simpl; [|done].
  apply list_find_Some in E as (Hi & Hid & _).
  intros cid [= <-]. exists l. split; [|done]. by eapply list_elem_of_lookup_2.
Qed.

Lemma currentValid_createList (W : World) nm : preserves currentValid (createList W nm).
Proof.
  intros s Hs. unfold createList, bind, freshUuid, newDate, dbCall, modify, ret. simpl.
  destruct (dbThrows W (dbCalls s)); simpl; [done|].
  destruct (currentListId s) as [cid|] eqn:Ec; simpl.
  - intros cid' Hc'. simpl in Hc'. injection Hc' as <-.
    destruct (Hs cid Ec) as (l & Hl & Hid). exists l. split; [|done].
    simpl. apply elem_of_app. by left.
  - intros cid' [= <-]. eexists. split.
    + simpl. apply elem_of_app. right. by apply list_elem_of_singleton.
    + done.
Qed.

Lemma currentValid_handleCreateList (W : World) parsed :
  preserves currentValid (handleCreateList W parsed).
Proof.
  unfold handleCreateList. destruct (negb _).
  - intros s. by apply currentValid_frame.
  - apply preserves_bind; [by intros s|]. intros [l|].
    + intros s. by apply currentValid_frame.
    + apply preserves_tryCatch.
      * apply preserves_bind; [apply currentValid_createList|].
        intros l s. by apply currentValid_frame.
      * intros e s. by apply currentValid_frame.
Qed.

Lemma currentValid_deleteList (W : World) listId :
  preserves currentValid (deleteList W listId).
Proof.
  intros s Hs. unfold deleteList, bind, get, ret, dbCall, modify. simpl.
  destruct (list_find _ (lists s)) as [[i l]|] eqn:E; simpl; [|done].
  destruct (dbThrows W (dbCalls s)); simpl; [done|].
  apply list_find_Some in E as (Hi & Hid & _).
  case_decide as Hcur; simpl.
  - intros cid Hc. simpl in Hc.
    destruct (delete i (lists s)) as [|l0 rest] eqn:Ed; [done|].
    simpl in Hc. injection Hc as <-. exists l0. split; [|done]. simpl. by left.
  - intros cid Hc. simpl in *. destruct (Hs cid Hc) as (l' & Hl' & Hid').
    exists l'. split; [|done].
    apply list_elem_of_lookup in Hl' as [k Hk].
    assert (k ≠ i) by (intros ->; congruence).
    destruct (decide (k < i)%nat).
    + apply (list_elem_of_lookup_2 _ k). by rewrite list_lookup_delete_lt.
    + apply (list_elem_of_lookup_2 _ (k - 1)).
      rewrite list_lookup_delete_ge by lia. by replace (S (k - 1)) with k by lia.
Qed.

(** X12. The current-list pointer never dangles: if it names an existing
    list (or is unset) before, it does so after any parsed command or
    command sequence, any chat message, and the [/create], [/switch],
    [/clear] and [/delete-list] commands, whether or not the database
    calls fail. *)
Theorem X12_current_list_exists (W : World) (s : AppState) :
  currentValid s →
  (∀ parsed answer, currentValid (exec (handleParsedResponse W parsed answer) s))
  ∧ (∀ message llm answer, currentValid (exec (handleChatMessage W message llm answer) s))
  ∧ (∀ input, currentValid (exec (slashCreate W input) s))
  ∧ (∀ input, currentValid (exec (slashSwitch input) s))
  ∧ currentValid (exec (slashClear W) s)
  ∧ (∀ input, currentValid (exec (slashDeleteList W input) s)).
Proof.
  intros Hs.
  pose proof currentValid_frame as F.
  pose proof currentValid_setCurrentTodos as T.
  pose proof currentValid_setCurrentListByName as N.
  pose proof (currentValid_handleCreateList W) as C.
  repeat split.
  - intros parsed answer. by apply (preserves_handleParsedResponse W currentValid).
  - intros message llm answer. by apply (preserves_handleChatMessage W currentValid).
  - intros input. revert s Hs. change (preserves currentValid (slashCreate W input)).
    unfold slashCreate. destruct (negb _); [by intros s|].
    apply preserves_bind; [by intros s|]. intros [l|]; [by intros s|].
    apply preserves_tryCatch; [|by intros e s].
    apply preserves_bind; [apply currentValid_createList|]. by intros l s.
  - intros input. by apply (preserves_slashSwitch currentValid).
  - by apply (preserves_slashClear W currentValid).
  - intros input. revert s Hs. change (preserves currentValid (slashDeleteList W input)).
    unfold slashDeleteList. destruct (negb _); [by intros s|].
    apply preserves_bind; [by intros s|]. intros [l|]; [|by intros s].
    apply preserves_bind; [by intros s|]. intros all.
    destruct (_ =? _)%nat; [by intros s|].
    apply preserves_bind; [apply currentValid_deleteList|].
    intros [|]; [|by intros s].
    apply preserves_bind; [by intros s|]. intros [l'|]; by intros s.
Qed.

Lemma X12_current_list_exists_witness :
  currentValid (exec (slashDeleteList sampleWorld "/delete-list personal") sampleState)
  ∧ currentValid (exec (handleParsedResponse sampleWorld sampleBatch "y") sampleState).
Proof.
  assert (Hs : currentValid sampleState).
  { intros cid [= <-]. eexists. split; [apply list_elem_of_here|reflexivity]. }
  destruct (X12_current_list_exists sampleWorld sampleState Hs) as (Hp & _ & _ & _ & _ & Hd).
  split; [apply Hd|apply Hp].
Defined.

(** *** List names *)

Lemma listNames_frame (s s' : AppState) :
  lists s' = lists s → NoDup (listNames s) → NoDup (listNames s').
Proof. unfold listNames. by intros ->. Qed.

Lemma listNames_names (s : AppState) :
  listNames s = map Js.toLowerCase (map name (lists s)).
Proof. unfold listNames. by rewrite <- list_fmap_compose. Qed.

Lemma listNames_setCurrentTodos ts :
  preserves (λ s, NoDup (listNames s)) (setCurrentTodos ts).
Proof.
  intros s. rewrite !listNames_names.
  by destruct (setCurrentTodos_ids ts s) as (_ & -> & _).
Qed.

Lemma listNames_setCurrentListByName nm :
  preserves (λ s, NoDup (listNames s)) (setCurrentListByName nm).
Proof.
  intros s Hs. unfold setCurrentListByName, findListByName, bind, get, ret, modify.
  simpl. by destruct (list_find _ (lists s)) as [[i l]|].
Qed.

(** A name [findListByName] does not find is not among the names. *)
Lemma findListByName_None (nm : string) (s : AppState) :
  fst (findListByName nm s) = Returned None →
  Js.toLowerCase nm ∉ listNames s.
Proof.
  unfold findListByName, bind, get, ret. simpl.
  destruct (list_find _ (lists s)) as [r|] eqn:E; [done|]. intros _.
  apply list_find_None in E. rewrite Forall_forall in E.
  unfold listNames. intros Hin. apply list_elem_of_fmap in Hin as (l & Hl & Hin).
  by apply (E l Hin).
Qed.

Lemma listNames_createList (W : World) (nm : string) (s : AppState) :
  Js.toLowerCase nm ∉ listNames s →
  NoDup (listNames s) → NoDup (listNames (snd (createList W nm s))).
Proof.
  intros Hfresh Hs. unfold createList, bind, freshUuid, newDate, dbCall, modify, ret.
  simpl. destruct (dbThrows W (dbCalls s)); simpl; [done|].
  assert (NoDup (listNames s ++ [Js.toLowerCase nm])).
  { apply NoDup_app. split; [done|]. split; [|apply NoDup_singleton].
    intros x Hx Hx'. apply list_elem_of_singleton in Hx' as ->. done. }
  destruct (currentListId s); simpl; unfold listNames; simpl; by rewrite fmap_app.
Qed.

Lemma listNames_guarded_create {A} (W : World) (nm : string)
    (onExists : M A) (onCreated : TodoList → M A) (onFailed : string → M A) :
  (∀ s, lists (snd (onExists s)) = lists s) →
  (∀ l s, lists (snd (onCreated l s)) = lists s) →
  (∀ e s, lists (snd (onFailed e s)) = lists s) →
  preserves (λ s, NoDup (listNames s))
    (bind (findListByName nm) (λ existing,
       match existing with
       | Some _ => onExists
       | None => tryCatch (bind (createList W nm) onCreated) onFailed
       end)).
Proof.
  intros HE HC HF s Hs.
  pose proof (findListByName_None nm s) as Hnone.
  unfold bind at 1. unfold findListByName, bind, get, ret in *. simpl in *.
  destruct (list_find _ (lists s)) as [[i l]|]; simpl.
  - apply (listNames_frame s); [apply HE|done].
  - pose proof (listNames_createList W nm s (Hnone eq_refl) Hs) as Hc.
    unfold tryCatch, bind.
    destruct (createList W nm s) as [[l|e] s']; simpl in *.
    + pose proof (HC l s') as H1.
      destruct (onCreated l s') as [[a|e] s'']; simpl in *.
      * by apply (listNames_frame s').
      * apply (listNames_frame s''); [apply HF|]. by apply (listNames_frame s').
    + apply (listNames_frame s'); [apply HF|done].
Qed.

Lemma listNames_handleCreateList (W : World) parsed :
  preserves (λ s, NoDup (listNames s)) (handleCreateList W parsed).
Proof.
  unfold handleCreateList. destruct (negb _); [by intros s|].
  by apply listNames_guarded_create.
Qed.

Lemma listNames_deleteList (W : World) listId :
  preserves (λ s, NoDup (listNames s)) (deleteList W listId).
Proof.
  intros s Hs. unfold deleteList, bind, get, ret, dbCall, modify. simpl.
  destruct (list_find _ (lists s)) as [[i l]|] eqn:E; simpl; [|done].
  destruct (dbThrows W (dbCalls s)); simpl; [done|].
  assert (NoDup (map (λ l, Js.toLowerCase (name l)) (delete i (lists s)))).
  { rewrite list_fmap_delete. eapply sublist_NoDup; [exact Hs|]. apply sublist_delete. }
  by case_decide.
Qed.

(** X13. List names stay unique, ignoring case: if no two lists have the
    same lowercased name before, none do after any parsed command or
    command sequence, any chat message, or the [/create], [/switch],
    [/clear] and [/delete-list] commands. *)
Theorem X13_list_names_unique (W : World) (s : AppState) :
  NoDup (listNames s) →
  (∀ parsed answer, NoDup (listNames (exec (handleParsedResponse W parsed answer) s)))
  ∧ (∀ message llm answer,
       NoDup (listNames (exec (handleChatMessage W message llm answer) s)))
  ∧ (∀ input, NoDup (listNames (exec (slashCreate W input) s)))
  ∧ (∀ input, NoDup (listNames (exec (slashSwitch input) s)))
  ∧ NoDup (listNames (exec (slashClear W) s))
  ∧ (∀ input, NoDup (listNames (exec (slashDeleteList W input) s))).
Proof.
  intros Hs.
  assert (F : ∀ s s', lists s' = lists s → currentListId s' = currentListId s →
                NoDup (listNames s) → NoDup (listNames s')).
  { intros s1 s2 Hl _. by apply listNames_frame. }
  pose proof listNames_setCurrentTodos as T.
  pose proof listNames_setCurrentListByName as N.
  pose proof (listNames_handleCreateList W) as C.
  repeat split.
  - intros parsed answer.
    by apply (preserves_handleParsedResponse W (λ s, NoDup (listNames s))).
  - intros message llm answer.
    by apply (preserves_handleChatMessage W (λ s, NoDup (listNames s))).
  - intros input. revert s Hs.
    change (preserves (λ s, NoDup (listNames s)) (slashCreate W input)).
    unfold slashCreate. destruct (negb _); [by intros s|].
    by apply listNames_guarded_create.
  - intros input. by apply (preserves_slashSwitch (λ s, NoDup (listNames s))).
  - by apply (preserves_slashClear W (λ s, NoDup (listNames s))).
  - intros input. revert s Hs.
    change (preserves (λ s, NoDup (listNames s)) (slashDeleteList W input)).
    unfold slashDeleteList. destruct (negb _); [by intros s|].
    apply preserves_bind; [by intros s|]. intros [l|]; [|by intros s].
    apply preserves_bind; [by intros s|]. intros all.
    destruct (_ =? _)%nat; [by intros s|].
    apply preserves_bind; [apply listNames_deleteList|].
    intros [|]; [|by intros s].
    apply preserves_bind; [by intros s|]. intros [l'|]; by intros s.
Qed.

Lemma X13_list_names_unique_witness :
  NoDup (listNames (exec (slashCreate sampleWorld "/create PERSONAL") sampleState))
  ∧ NoDup (listNames (exec (slashCreate sampleWorld "/create Work") sampleState)).
Proof.
  assert (Hs : NoDup (listNames sampleState)).
  { apply NoDup_singleton. }
  destruct (X13_list_names_unique sampleWorld sampleState Hs) as (_ & _ & Hc & _).
  split; apply Hc.
Defined.

(** ** Handlers and the database *)

Lemma currentListEntry_mk (s : AppState) h c u k d :
  currentListEntry (mkAppState (lists s) (currentListId s) h c u k d)
  = currentListEntry s.
Proof. done. Qed.

#[local] Arguments currentListEntry : simpl never.

(** Unfolds a handler down to the state it computes. *)
Ltac run_handler :=
  repeat (progress
    (unfold exec, threw, bind, getCurrentList, get, ret, tryCatch, createTodoM,
       freshUuid, newDate, addTodoToCurrentList, deleteTodoFromCurrentList,
       updateTodoInCurrentList, completeTodoM, updateTodoM, reread, createList,
       findListByName, setCurrentListByName, clearCurrentList, deleteList, getAllLists,
       dbCall, setCurrentTodos, modify, log, throw in *;
     simpl in *;
     rewrite ?currentListEntry_mk in *)).

(** X14. While the database is failing, adding a todo, deleting a todo,
    creating a list and clearing or deleting a list leave the lists and the
    current-list pointer in memory as they were: these operations write to
    the database first. *)
Theorem X14_failing_database_changes_nothing (W : World) (s : AppState) (e : string) :
  dbThrows W (dbCalls s) = Some e →
  (∀ parsed, sameLists s (exec (handleAddTodo W parsed) s))
  ∧ (∀ parsed, sameLists s (exec (handleDeleteTodo W parsed) s))
  ∧ (∀ parsed, sameLists s (exec (handleCreateList W parsed) s))
  ∧ (∀ input, sameLists s (exec (slashCreate W input) s))
  ∧ sameLists s (exec (slashClear W) s)
  ∧ (∀ input, sameLists s (exec (slashDeleteList W input) s)).
Proof.
  intros Hdb. unfold sameLists.
  split; [|split; [|split; [|split; [|split]]]].
  - intros parsed. unfold handleAddTodo. run_handler.
    destruct (currentListEntry s) as [[i l]|] eqn:Hcur; run_handler; [|done].
    destruct (negb _); run_handler; [done|].
    rewrite Hcur. run_handler. by rewrite Hdb.
  - intros parsed. unfold handleDeleteTodo. run_handler.
    destruct (currentListEntry s) as [[i l]|] eqn:Hcur; run_handler; [|done].
    destruct (todoIndexOf _ _); run_handler; [|done].
    destruct (todos l !! _); run_handler; [|done].
    rewrite Hcur. run_handler. by rewrite Hdb.
  - intros parsed. unfold handleCreateList.
    destruct (negb _); run_handler; [done|].
    destruct (list_find _ (lists s)) as [[i l]|]; run_handler; [done|]. by rewrite Hdb.
  - intros input. unfold slashCreate.
    destruct (negb _); run_handler; [done|].
    destruct (list_find _ (lists s)) as [[i l]|]; run_handler; [done|]. by rewrite Hdb.
  - unfold slashClear. run_handler.
    destruct (currentListEntry s) as [[i l]|] eqn:Hcur; run_handler; [|done].
    destruct (_ =? _)%nat; run_handler; [done|].
    rewrite Hcur. run_handler. by rewrite Hdb.
  - intros input. unfold slashDeleteList.
    destruct (negb _); run_handler; [done|].
    destruct (list_find _ (lists s)) as [[i l]|]; run_handler; [|done].
    destruct (_ =? _)%nat; run_handler; [done|].
    destruct (list_find _ (lists s)) as [[i' l']|]; run_handler; [|done].
    by rewrite Hdb.
Qed.

Lemma X14_failing_database_changes_nothing_witness :
  sameLists milkState
    (exec (handleAddTodo brokenDbWorld (addCommand (Some "Walk dog"))) milkState)
  ∧ sameLists milkState (exec (slashClear brokenDbWorld) milkState).
Proof.
  destruct (X14_failing_database_changes_nothing brokenDbWorld milkState
              "Error: SQLITE_BUSY" eq_refl) as (Ha & _ & _ & _ & Hc & _).
  split; [apply Ha|apply Hc].
Defined.

Lemma todoIndexOf_valid (parsed : Command) (len : nat) (n : Z) :
  c_todoNumber parsed = Some n → 1 ≤ n ≤ Z.of_nat len →
  todoIndexOf parsed len = Some (Z.to_nat (n - 1)).
Proof.
  intros Hn Hr. unfold todoIndexOf. rewrite Hn.
  replace (n =? 0) with false by lia.
  replace (n - 1 <? 0) with false by lia.
  replace (n - 1 >=? Z.of_nat len) with false by lia. done.
Qed.

Lemma todoIndexOf_invalid (parsed : Command) (len : nat) (n : Z) :
  c_todoNumber parsed = Some n → n ≠ 0 → ¬ (1 ≤ n ≤ Z.of_nat len) →
  todoIndexOf parsed len = None.
Proof.
  intros Hn H0 Hr. unfold todoIndexOf. rewrite Hn.
  replace (n =? 0) with false by lia.
  destruct (n - 1 <? 0) eqn:E1; [done|].
  destruct (n - 1 >=? Z.of_nat len) eqn:E2; [done|]. lia.
Qed.

(** The current list is an element of the lists. *)
Lemma currentListEntry_Some (s : AppState) (i : nat) (l : TodoList) :
  currentListEntry s = Some (i, l) → lists s !! i = Some l.
Proof.
  unfold currentListEntry. destruct (currentListId s) as [cid|]; [|done].
  destruct (Js.truthy cid); [|done]. by intros (? & _)%list_find_Some.
Qed.

(** X15. Completing a todo writes memory before the database: when the
    todo number is valid and the database update fails, the handler reports
    the failure, yet the todo stays completed in the list in memory. *)
Theorem X15_complete_outlives_failed_write (W : World) (parsed : Command)
    (s : AppState) (i : nat) (l : TodoList) (n : Z) (t : TodoItem) (e : string) :
  currentListEntry s = Some (i, l) →
  c_todoNumber parsed = Some n →
  1 ≤ n ≤ Z.of_nat (length (todos l)) →
  todos l !! Z.to_nat (n - 1) = Some t →
  dbThrows W (dbCalls s) = Some e →
  lists (exec (handleCompleteTodo W parsed) s)
  = <[i := mkTodoList (list_id l) (name l)
             (snd (TodoService.completeTodo (todos l) (id t) (clock W (clockCalls s))))
             (list_createdAt l) (list_updatedAt l)]> (lists s)
  ∧ fst (TodoService.completeTodo (todos l) (id t) (clock W (clockCalls s))) = true
  ∧ console (exec (handleCompleteTodo W parsed) s) = console s ++ [FailedToComplete e].
Proof.
  intros Hcur Hn Hr Ht Hdb.
  assert (Hfound : ∃ u, TodoService.findTodoById (todos l) (id t) = Some u).
  { destruct (TodoService.findTodoById (todos l) (id t)) as [u|] eqn:E; [by eexists|].
    pose proof (proj1 (findTodoById_None _ _) E t) as E'. destruct E'; [|done].
    by eapply list_elem_of_lookup_2. }
  destruct Hfound as [u Hu].
  unfold handleCompleteTodo. run_handler. rewrite Hcur. run_handler.
  rewrite (todoIndexOf_valid parsed _ n) by done. rewrite Ht. run_handler.
  rewrite Hu. run_handler. rewrite Hcur. run_handler. rewrite Hdb. run_handler.
  split; [done|]. split; [|done].
  unfold TodoService.completeTodo, TodoService.modifyById.
  apply findTodoById_Some in Hu as [k ->]. done.
Qed.

Lemma X15_complete_outlives_failed_write_witness :
  map (λ l, map completed (todos l))
    (lists (exec (handleCompleteTodo brokenDbWorld (completeCommand 1)) milkState))
  = [[true]]
  ∧ console (exec (handleCompleteTodo brokenDbWorld (completeCommand 1)) milkState)
    = console milkState ++ [FailedToComplete "Error: SQLITE_BUSY"].
Proof.
  destruct (X15_complete_outlives_failed_write brokenDbWorld (completeCommand 1) milkState
              0 (mkTodoList "10000000-0000-4000-8000-000000000000" "Personal"
                   [TodoService.createTodo "20000000-0000-4000-8000-000000000000" 2 3
                      "Buy milk" TodoService.noOptions] 0 1)
              1 (TodoService.createTodo "20000000-0000-4000-8000-000000000000" 2 3
                   "Buy milk" TodoService.noOptions)
              "Error: SQLITE_BUSY")
    as (Hl & _ & Hc); try reflexivity.
  - simpl. lia.
  - split; [by rewrite Hl|done].
Defined.

(** X16. A todo number outside the list is rejected before anything is
    touched: complete, edit and delete print the invalid-number message
    and leave the rest of the state as it was. *)
Theorem X16_invalid_number_rejected (W : World) (parsed : Command) (s : AppState)
    (i : nat) (l : TodoList) (n : Z) :
  currentListEntry s = Some (i, l) →
  c_todoNumber parsed = Some n → n ≠ 0 →
  ¬ (1 ≤ n ≤ Z.of_nat (length (todos l))) →
  handleCompleteTodo W parsed s
    = (Returned tt, setConsole (console s ++ [InvalidTodoNumber]) s)
  ∧ handleEditTodo W parsed s
    = (Returned tt, setConsole (console s ++ [InvalidTodoNumber]) s)
  ∧ handleDeleteTodo W parsed s
    = (Returned tt, setConsole (console s ++ [InvalidTodoNumber]) s).
Proof.
  intros Hcur Hn H0 Hr.
  pose proof (todoIndexOf_invalid parsed _ n Hn H0 Hr) as Hidx.
  split; [|split].
  - unfold handleCompleteTodo. run_handler. rewrite Hcur. run_handler. by rewrite Hidx.
  - unfold handleEditTodo. run_handler. rewrite Hcur. run_handler. by rewrite Hidx.
  - unfold handleDeleteTodo. run_handler. rewrite Hcur. run_handler. by rewrite Hidx.
Qed.

Lemma X16_invalid_number_rejected_witness :
  handleDeleteTodo sampleWorld (completeCommand 7) milkState
  = (Returned tt, setConsole (console milkState ++ [InvalidTodoNumber]) milkState).
Proof.
  eapply (X16_invalid_number_rejected sampleWorld (completeCommand 7) milkState).
  - reflexivity.
  - reflexivity.
  - lia.
  - simpl. lia.
Defined.

(** X17. With a current list, a non-empty title and a database that
    accepts the write, [handleAddTodo] appends one todo to the current
    list and to no other: it has the given title, is not completed and
    carries the id the generator produced. *)
Theorem X17_add_todo_applies (W : World) (parsed : Command) (s : AppState)
    (i : nat) (l : TodoList) (ttl : string) :
  currentListEntry s = Some (i, l) →
  c_title parsed = Some ttl → ttl ≠ EmptyString →
  dbThrows W (dbCalls s) = None →
  ∃ t, title t = ttl ∧ completed t = false ∧ id t = uuidv4 W (uuidCalls s)
       ∧ lists (exec (handleAddTodo W parsed) s)
         = <[i := mkTodoList (list_id l) (name l) (todos l ++ [t])
                    (list_createdAt l) (list_updatedAt l)]> (lists s)
       ∧ currentListId (exec (handleAddTodo W parsed) s) = currentListId s
       ∧ console (exec (handleAddTodo W parsed) s) = console s ++ [AddedTodo t (name l)].
Proof.
  intros Hcur Ht Hne Hdb. apply truthy_nonempty in Hne.
  eexists (TodoService.createTodo _ _ _ ttl _).
  unfold handleAddTodo. run_handler. rewrite Hcur. run_handler.
  rewrite Ht. run_handler. rewrite Hne. run_handler.
  rewrite Hcur. run_handler. rewrite Hdb. run_handler. rewrite Hcur.
  repeat split.
Qed.

Lemma X17_add_todo_applies_witness :
  ∃ t, title t = "Walk dog" ∧ completed t = false
       ∧ id t = uuidv4 sampleWorld (uuidCalls milkState)
       ∧ lists (exec (handleAddTodo sampleWorld (addCommand (Some "Walk dog"))) milkState)
         = <[0%nat := mkTodoList "10000000-0000-4000-8000-000000000000" "Personal"
                        ([TodoService.createTodo "20000000-0000-4000-8000-000000000000"
                            2 3 "Buy milk" TodoService.noOptions] ++ [t]) 0 1]>
             (lists milkState)
       ∧ currentListId
           (exec (handleAddTodo sampleWorld (addCommand (Some "Walk dog"))) milkState)
         = currentListId milkState
       ∧ console (exec (handleAddTodo sampleWorld (addCommand (Some "Walk dog"))) milkState)
         = console milkState ++ [AddedTodo t "Personal"].
Proof.
  apply (X17_add_todo_applies sampleWorld (addCommand (Some "Walk dog")) milkState 0
           (mkTodoList "10000000-0000-4000-8000-000000000000" "Personal"
              [TodoService.createTodo "20000000-0000-4000-8000-000000000000" 2 3
                 "Buy milk" TodoService.noOptions] 0 1) "Walk dog").
  - reflexivity.
  - reflexivity.
  - discriminate.
  - reflexivity.
Defined.

(** The current list after its array of todos was replaced. *)
Lemma currentListEntry_setTodos (s s0 : AppState) (i : nat) (l : TodoList)
    (ts : list TodoItem) :
  currentListEntry s = Some (i, l) →
  currentListId s0 = currentListId s →
  currentListEntry
    (setLists (<[i := mkTodoList (list_id l) (name l) ts
                        (list_createdAt l) (list_updatedAt l)]> (lists s)) s0)
  = Some (i, mkTodoList (list_id l) (name l) ts (list_createdAt l) (list_updatedAt l)).
Proof.
  unfold currentListEntry. simpl. intros Hcur ->.
  destruct (currentListId s) as [cid|]; [|done].
  destruct (Js.truthy cid); [|done].
  apply list_find_Some in Hcur as (Hi & Hid & Hfirst).
  apply find_first.
  - apply list_lookup_insert_eq. by eapply lookup_lt_Some.
  - done.
  - intros j y Hj Hlt. rewrite list_lookup_insert_ne in Hj by lia. by eapply Hfirst.
Qed.

(** The loop of [handleAddMultipleTodos], from any point of its run. *)
Lemma addEach_run (W : World) (ds : list TodoData) :
  ∀ (added0 : list TodoItem) (failures0 : nat) (s : AppState) (i : nat) (l : TodoList),
    currentListEntry s = Some (i, l) →
    ∃ added failures s' l',
      addEach W ds added0 failures0 s
        = (Returned (added0 ++ added, (failures0 + failures)%nat), s')
      ∧ (length added + failures = length ds)%nat
      ∧ currentListEntry s' = Some (i, l')
      ∧ todos l' = todos l ++ added
      ∧ (∀ j, j ≠ i → lists s' !! j = lists s !! j)
      ∧ Forall (λ t, title t ≠ EmptyString) added.
Proof.
  induction ds as [|d ds IH]; intros added0 failures0 s i l Hcur.
  - exists [], 0%nat, s, l. simpl. rewrite app_nil_r, Nat.add_0_r.
    repeat split; try done. by rewrite app_nil_r.
  - simpl. destruct (Js.truthyOpt (d_title d)) eqn:Htitle; simpl.
    + run_handler. rewrite Hcur. run_handler.
      destruct (dbThrows W (dbCalls s)) as [e|] eqn:Hdb; run_handler.
      * match goal with
        | |- context [addEach W ds ?a ?f ?st] =>
            destruct (IH a f st i l) as (added & failures & s' & l' & E & Hlen & Hc & Ht & Ho & Hf);
              [rewrite <- Hcur; by apply currentListEntry_frame|]
        end.
        exists added, (S failures), s', l'. rewrite E.
        replace (S failures0 + failures)%nat with (failures0 + S failures)%nat by lia.
        repeat split; try done. simpl. lia.
      * rewrite Hcur.
        match goal with
        | |- context [addEach W ds (added0 ++ [?t0]) ?f ?st] =>
            pose (t := t0);
            destruct (IH (added0 ++ [t0]) f st i
                        (mkTodoList (list_id l) (name l) (todos l ++ [t0])
                           (list_createdAt l) (list_updatedAt l)))
              as (added & failures & s' & l' & E & Hlen & Hc & Ht & Ho & Hf);
              [by apply currentListEntry_setTodos|]
        end.
        exists (t :: added), failures, s', l'. rewrite E.
        repeat split; try done.
        -- by rewrite <- app_assoc.
        -- simpl. lia.
        -- rewrite Ht. simpl. by rewrite <- app_assoc.
        -- intros j Hj. rewrite Ho by done. simpl.
           by rewrite list_lookup_insert_ne.
        -- constructor; [|done]. subst t. simpl.
           destruct (d_title d) as [[|? ?]|]; done.
    + destruct (IH added0 (S failures0) s i l Hcur)
        as (added & failures & s' & l' & E & Hlen & Hc & Ht & Ho & Hf).
      exists added, (S failures), s', l'. rewrite E.
      replace (S failures0 + failures)%nat with (failures0 + S failures)%nat by lia.
      repeat split; try done. simpl. lia.
Qed.

(** X18. The loop of [handleAddMultipleTodos] accounts for every item:
    the todos it reports as added and the failures it counts add up to the
    number of items, the current list grows by exactly the added todos, in
    order, every added todo has a title, and no other list changes. *)
Theorem X18_add_multiple_accounts (W : World) (ds : list TodoData) (s : AppState)
    (i : nat) (l : TodoList) :
  currentListEntry s = Some (i, l) →
  ∃ added failures s' l',
    addEach W ds [] 0%nat s = (Returned (added, failures), s')
    ∧ (length added + failures = length ds)%nat
    ∧ currentListEntry s' = Some (i, l')
    ∧ todos l' = todos l ++ added
    ∧ (∀ j, j ≠ i → lists s' !! j = lists s !! j)
    ∧ Forall (λ t, title t ≠ EmptyString) added.
Proof.
  intros Hcur.
  destruct (addEach_run W ds [] 0%nat s i l Hcur)
    as (added & failures & s' & l' & E & H).
  exists added, failures, s', l'. by rewrite E.
Qed.

Lemma X18_add_multiple_accounts_witness :
  ∃ added failures s' l',
    addEach sampleWorld
      [mkTodoData (Some "Walk dog") None None None None;
       mkTodoData None None None None None] [] 0%nat milkState
      = (Returned (added, failures), s')
    ∧ (length added + failures = 2)%nat
    ∧ currentListEntry s' = Some (0%nat, l')
    ∧ todos l'
      = [TodoService.createTodo "20000000-0000-4000-8000-000000000000" 2 3
           "Buy milk" TodoService.noOptions] ++ added
    ∧ (∀ j, j ≠ 0%nat → lists s' !! j = lists milkState !! j)
    ∧ Forall (λ t, title t ≠ EmptyString) added.
Proof.
  apply (X18_add_multiple_accounts sampleWorld
           [mkTodoData (Some "Walk dog") None None None None;
            mkTodoData None None None None None] milkState 0
           (mkTodoList "10000000-0000-4000-8000-000000000000" "Personal"
              [TodoService.createTodo "20000000-0000-4000-8000-000000000000" 2 3
                 "Buy milk" TodoService.noOptions] 0 1)).
  reflexivity.
Defined.

(** X19. On a response whose properties have the types of the response
    schema, which is what [Command] and [Parsed] hold (strings or [null]
    for the texts, an integer or [null] for the todo number), no parsed
    command and no confirmed or declined command sequence throws or touches
    the conversation history, however the database behaves: the calls that
    can fail are inside the [try] of their handler. A [name] that is not a
    string is outside this statement ([handleSwitchListAny]). *)
Theorem X19_commands_never_throw (W : World) (parsed : Parsed) (answer : string)
    (cmd : Command) (s : AppState) :
  threw (handleParsedResponse W parsed answer) s = false
  ∧ conversationHistory (exec (handleParsedResponse W parsed answer) s)
    = conversationHistory s
  ∧ threw (handleParsedCommand W cmd) s = false
  ∧ conversationHistory (exec (handleParsedCommand W cmd) s) = conversationHistory s.
Proof.
  destruct (handleParsedResponse_returns W parsed answer s) as ([] & s1 & E1).
  destruct (handleParsedCommand_returns W cmd s) as ([] & s2 & E2).
  pose proof (handleParsedResponse_keeps W parsed answer s) as K1.
  pose proof (handleParsedCommand_keeps W cmd s) as K2.
  unfold threw, exec. rewrite E1, E2 in *. done.
Qed.

Lemma runAll_completes (W : World) (cmds : list Command) (i n : nat) (s : AppState) :
  last (console (snd (runAll W i n cmds s))) = Some SequenceCompleted.
Proof.
  revert i s. induction cmds as [|cmd rest IH]; intros i s.
  - simpl. apply last_snoc.
  - simpl. unfold bind at 1. simpl. unfold bind at 1.
    destruct (handleParsedCommand_returns W cmd
                (setConsole (console s ++ [RunningStep (S i) n cmd]) s))
      as ([] & s1 & E).
    rewrite E. apply IH.
Qed.

(** [runSequence] is the loop around [handleParsedCommand]. *)
Lemma runSequence_sequenceLoop (W : World) (cmds : list Command) (i n : nat)
    (s : AppState) :
  runSequence W i n cmds s = sequenceLoop (handleParsedCommand W) i n cmds s.
Proof.
  revert i s. induction cmds as [|cmd rest IH]; intros i s; [done|].
  simpl. unfold bind, attempt, log, modify. simpl.
  destruct (handleParsedCommand W cmd _) as [[[]|e] s1]; [apply IH|done].
Qed.

(** One round of the loop, and one step of [runEach]. *)
Lemma sequenceLoop_cons (handler : Command → M unit) (cmd : Command)
    (rest : list Command) (i n : nat) (s : AppState) :
  sequenceLoop handler i n (cmd :: rest) s
  = match handler cmd (setConsole (console s ++ [RunningStep (S i) n cmd]) s) with
    | (Returned _, s1) => sequenceLoop handler (S i) n rest s1
    | (Thrown e, s1) =>
        (Returned tt,
         setConsole (console s1 ++ [CommandFailed (S i) e; StoppingSequence]) s1)
    end.
Proof.
  simpl. unfold bind, attempt, log, modify. simpl.
  destruct (handler cmd _) as [[[]|e] s1]; [done|]. simpl. by rewrite <- app_assoc.
Qed.

Lemma runEach_cons (handler : Command → M unit) (cmd : Command)
    (rest : list Command) (i n : nat) (s : AppState) :
  runEach handler i n (cmd :: rest) s
  = match handler cmd (setConsole (console s ++ [RunningStep (S i) n cmd]) s) with
    | (Returned _, s1) => runEach handler (S i) n rest s1
    | (Thrown e, s1) => (Thrown e, s1)
    end.
Proof.
  simpl. unfold bind, log, modify. simpl.
  by destruct (handler cmd _) as [[[]|e] s1].
Qed.

(** When no command throws, the loop runs them all and completes. *)
Lemma sequenceLoop_completes (handler : Command → M unit) (cmds : list Command)
    (i n : nat) (s s' : AppState) :
  runEach handler i n cmds s = (Returned tt, s') →
  sequenceLoop handler i n cmds s
  = (Returned tt, setConsole (console s' ++ [SequenceCompleted]) s').
Proof.
  revert i s. induction cmds as [|cmd rest IH]; intros i s.
  - simpl. by intros [= <-].
  - rewrite sequenceLoop_cons, runEach_cons.
    destruct (handler cmd _) as [[[]|e] s1]; [apply IH|done].
Qed.

(** The loop stops at the first command that throws. *)
Lemma sequenceLoop_stops (handler : Command → M unit) (pre post : list Command)
    (cmd : Command) (e : string) (i n : nat) (s s1 s2 : AppState) :
  runEach handler i n pre s = (Returned tt, s1) →
  handler cmd (setConsole (console s1 ++ [RunningStep (S (i + length pre)) n cmd]) s1)
  = (Thrown e, s2) →
  sequenceLoop handler i n (pre ++ cmd :: post) s
  = (Returned tt,
     setConsole (console s2 ++ [CommandFailed (S (i + length pre)) e; StoppingSequence])
       s2).
Proof.
  revert i s. induction pre as [|c pre IH]; intros i s.
  - simpl app. simpl length. rewrite Nat.add_0_r. intros [= <-] Hthrow.
    by rewrite sequenceLoop_cons, Hthrow.
  - simpl app. simpl length. rewrite sequenceLoop_cons, runEach_cons.
    destruct (handler c _) as [[[]|e'] s']; [|done].
    intros Hpre Hthrow.
    replace (i + S (length pre))%nat with (S i + length pre)%nat in * by lia.
    by apply IH.
Qed.

(** X20. The loop of a confirmed command sequence runs the commands in
    order and stops at the first one whose handler throws: it prints the
    number of that command with the error and the stop notice, and
    attempts no later command. When no handler throws it runs every
    command and prints the completion message last. On commands with the
    field types of the response schema no handler throws, so such a
    sequence never stops early. *)
Theorem X20_sequence_stops_at_first_throw (handler : Command → M unit)
    (cmds : list Command) (i n : nat) (s : AppState) :
  (∀ s', runEach handler i n cmds s = (Returned tt, s') →
     sequenceLoop handler i n cmds s
     = (Returned tt, setConsole (console s' ++ [SequenceCompleted]) s'))
  ∧ (∀ pre cmd post e s1 s2,
       cmds = pre ++ cmd :: post →
       runEach handler i n pre s = (Returned tt, s1) →
       handler cmd
         (setConsole (console s1 ++ [RunningStep (S (i + length pre)) n cmd]) s1)
       = (Thrown e, s2) →
       sequenceLoop handler i n cmds s
       = (Returned tt,
          setConsole
            (console s2 ++ [CommandFailed (S (i + length pre)) e; StoppingSequence]) s2))
  ∧ (∀ W, runSequence W i n cmds s = sequenceLoop (handleParsedCommand W) i n cmds s
          ∧ runSequence W i n cmds s = runAll W i n cmds s
          ∧ threw (runSequence W i n cmds) s = false
          ∧ last (console (exec (runSequence W i n cmds) s)) = Some SequenceCompleted).
Proof.
  split; [intros s'; apply sequenceLoop_completes|].
  split.
  - intros pre cmd post e s1 s2 ->. apply sequenceLoop_stops.
  - intros W. split; [apply runSequence_sequenceLoop|].
    split; [apply runSequence_runs_all|]. split.
    + destruct (runSequence_returns W cmds i n s) as ([] & s' & E).
      unfold threw. by rewrite E.
    + unfold exec. rewrite runSequence_runs_all. apply runAll_completes.
Qed.

(** A confirmed sequence whose second command names the list 7: the first
    add is applied, the loop stops at step 2, the second add is not
    attempted. *)
Lemma X20_sequence_stops_at_first_throw_witness :
  currentTitles (exec (sequenceLoop handleNamedSeven 0 3 sampleBatchBadName) sampleState)
  = ["Buy milk"]
  ∧ console (exec (sequenceLoop handleNamedSeven 0 3 sampleBatchBadName) sampleState)
    = [ RunningStep 1 3 (addCommand (Some "Buy milk"));
        AddedTodo (TodoService.createTodo "20000000-0000-4000-8000-000000000000" 2 3
                     "Buy milk" (buildOptions sampleWorld None None None None)) "Personal";
        RunningStep 2 3 (plainCommand "switch_list");
        CommandFailed 2 "TypeError: name.toLowerCase is not a function";
        StoppingSequence ].
Proof.
  destruct (X20_sequence_stops_at_first_throw handleNamedSeven sampleBatchBadName 0 3
              sampleState) as (_ & Hstop & _).
  unfold exec.
  rewrite (Hstop [addCommand (Some "Buy milk")] (plainCommand "switch_list")
             [addCommand (Some "Walk dog")] notAFunction
             (exec (runEach handleNamedSeven 0 3 [addCommand (Some "Buy milk")])
                sampleState)
             (exec (bind (runEach handleNamedSeven 0 3 [addCommand (Some "Buy milk")])
                      (λ _, log (RunningStep 2 3 (plainCommand "switch_list"))))
                sampleState));
    [by split|reflexivity|reflexivity|reflexivity].
Defined.

(** ** Lists: create, switch, delete, clear *)

(** X21. A list created under a name no list has yet (ignoring case) can
    be switched to by that name in any case: after the creation succeeds,
    [setCurrentListByName] answers [true] and makes the new list current. *)
Theorem X21_create_then_switch (W : World) (nm nm' : string) (s : AppState) :
  Js.toLowerCase nm ∉ listNames s →
  Js.toLowerCase nm' = Js.toLowerCase nm →
  dbThrows W (dbCalls s) = None →
  fst (bind (createList W nm) (λ _, setCurrentListByName nm') s) = Returned true
  ∧ currentListId (exec (bind (createList W nm) (λ _, setCurrentListByName nm')) s)
    = Some (uuidv4 W (uuidCalls s))
  ∧ lists (exec (bind (createList W nm) (λ _, setCurrentListByName nm')) s)
    = lists s ++ [mkTodoList (uuidv4 W (uuidCalls s)) nm []
                    (clock W (clockCalls s)) (clock W (S (clockCalls s)))].
Proof.
  intros Hfresh Hsame Hdb.
  assert (Hnone : list_find (λ l, Js.toLowerCase (name l) = Js.toLowerCase nm') (lists s)
                  = None).
  { apply list_find_None, Forall_forall. intros l Hl Hname. apply Hfresh.
    unfold listNames. apply list_elem_of_fmap. exists l. split; [|done].
    by rewrite <- Hsame, Hname. }
  run_handler. rewrite Hdb. run_handler.
  destruct (currentListId s) as [cid|] eqn:Ec; run_handler;
    rewrite (find_push_None _ _ _ Hnone); simpl; rewrite decide_True by done; done.
Qed.

Lemma X21_create_then_switch_witness :
  currentListId
    (exec (bind (createList sampleWorld "Work") (λ _, setCurrentListByName "WORK"))
       sampleState)
  = Some (uuidv4 sampleWorld (uuidCalls sampleState)).
Proof.
  apply (X21_create_then_switch sampleWorld "Work" "WORK" sampleState).
  - intros Hin. apply list_elem_of_singleton in Hin. discriminate.
  - reflexivity.
  - reflexivity.
Defined.

(** X22. [/delete-list] removes at most one list and never the only one:
    the number of lists either stays, or there were at least two and one
    is gone. *)
Theorem X22_delete_list_keeps_one (W : World) (input : string) (s : AppState) :
  length (lists (exec (slashDeleteList W input) s)) = length (lists s)
  ∨ ((2 ≤ length (lists s))%nat
     ∧ S (length (lists (exec (slashDeleteList W input) s))) = length (lists s)).
Proof.
  unfold slashDeleteList.
  destruct (negb _); run_handler; [by left|].
  destruct (list_find _ (lists s)) as [[i l]|] eqn:Ename; run_handler; [|by left].
  destruct (length (lists s) =? 1)%nat eqn:Hone; run_handler; [by left|].
  apply Nat.eqb_neq in Hone.
  apply list_find_Some in Ename as (Hi & _). apply lookup_lt_Some in Hi.
  destruct (list_find (λ l0, list_id l0 = list_id l) (lists s)) as [[i' l']|] eqn:Eid;
    run_handler; [|by left].
  destruct (dbThrows W (dbCalls s)); run_handler; [by left|].
  apply list_find_Some in Eid as (Hi' & _).
  assert (Hlen : S (length (delete i' (lists s))) = length (lists s)).
  { rewrite length_delete by eauto. apply lookup_lt_Some in Hi'. lia. }
  right. split; [lia|].
  case_decide; run_handler;
    match goal with
    | |- context [currentListEntry ?st] => by destruct (currentListEntry st)
    end.
Qed.

(** X23. [/clear] empties the current list and nothing else: the other
    lists, the names and the current-list pointer stay; on a list that is
    already empty it changes nothing and says so. *)
Theorem X23_clear_current_only (W : World) (s : AppState) (i : nat) (l : TodoList) :
  currentListEntry s = Some (i, l) →
  (todos l = [] → slashClear W s = (Returned [SlashAlreadyEmpty (name l)], s))
  ∧ (todos l ≠ [] → dbThrows W (dbCalls s) = None →
     fst (slashClear W s) = Returned [SlashCleared (name l)]
     ∧ lists (exec (slashClear W) s)
       = <[i := mkTodoList (list_id l) (name l) []
                  (list_createdAt l) (list_updatedAt l)]> (lists s)
     ∧ currentListId (exec (slashClear W) s) = currentListId s
     ∧ ∀ j, j ≠ i → lists (exec (slashClear W) s) !! j = lists s !! j).
Proof.
  intros Hcur. split.
  - intros Hempty. unfold slashClear. run_handler. rewrite Hcur. run_handler.
    by rewrite Hempty.
  - intros Hne Hdb. unfold slashClear. run_handler. rewrite Hcur. run_handler.
    destruct (todos l) as [|t ts] eqn:Et; [done|]. run_handler.
    rewrite Hcur. run_handler. rewrite Hdb. run_handler. rewrite Hcur.
    repeat split. intros j Hj. simpl. by rewrite list_lookup_insert_ne.
Qed.

Lemma X23_clear_current_only_witness :
  map (λ l, length (todos l)) (lists (exec (slashClear sampleWorld) milkState)) = [0%nat]
  ∧ slashClear sampleWorld sampleState
    = (Returned [SlashAlreadyEmpty "Personal"], sampleState).
Proof.
  split.
  - destruct (X23_clear_current_only sampleWorld milkState 0
                (mkTodoList "10000000-0000-4000-8000-000000000000" "Personal"
                   [TodoService.createTodo "20000000-0000-4000-8000-000000000000" 2 3
                      "Buy milk" TodoService.noOptions] 0 1) eq_refl) as [_ H].
    destruct H as (_ & -> & _); [discriminate|reflexivity|reflexivity].
  - apply (X23_clear_current_only sampleWorld sampleState 0
             (mkTodoList "10000000-0000-4000-8000-000000000000" "Personal" [] 0 1)
             eq_refl).
    reflexivity.
Defined.

(** ** The command history *)

Lemma delete_first_not_in (history : list string) (x : string) (i : nat) :
  NoDup history → history !! i = Some x → x ∉ delete i history.
Proof.
  intros Hnd Hi Hin. apply list_elem_of_lookup in Hin as [k Hk].
  destruct (decide (k < i)%nat).
  - rewrite list_lookup_delete_lt in Hk by done.
    pose proof (NoDup_lookup _ _ _ _ Hnd Hk Hi). lia.
  - rewrite list_lookup_delete_ge in Hk by lia.
    pose proof (NoDup_lookup _ _ _ _ Hnd Hk Hi). lia.
Qed.

(** X24. The command history of the line handler: a line that is not empty
    and not an exit command becomes the newest entry; an empty line or an
    exit command is not recorded; the history never exceeds 100 entries
    once it is within that bound, never gains a duplicate, and holds
    nothing but earlier entries and the new line. *)
Theorem X24_command_history (history : list string) (input : string) :
  (input ≠ EmptyString → input ≠ "/exit" → input ≠ "exit" →
   head (recordCommand history input) = Some input
   ∧ (length (recordCommand history input) ≤ 100)%nat)
  ∧ (input = EmptyString ∨ input = "/exit" ∨ input = "exit" →
     recordCommand history input = history)
  ∧ ((length history ≤ 100)%nat → (length (recordCommand history input) ≤ 100)%nat)
  ∧ (NoDup history → NoDup (recordCommand history input))
  ∧ (∀ x, x ∈ recordCommand history input → x = input ∨ x ∈ history).
Proof.
  unfold recordCommand.
  set (h1 := match fst <$> list_find (λ x, x = input) history with
             | Some existingIndex => delete existingIndex history
             | None => history
             end).
  assert (Hsub : ∀ x, x ∈ h1 → x ∈ history).
  { intros x. subst h1. destruct (list_find _ history) as [[i y]|]; simpl; [|done].
    apply list_elem_of_delete_inv. }
  assert (Hfresh : NoDup history → (input ∉ h1) ∧ NoDup h1).
  { intros Hnd. subst h1.
    destruct (list_find _ history) as [[i y]|] eqn:E; simpl.
    - apply list_find_Some in E as (Hi & -> & _). split.
      + by apply delete_first_not_in.
      + eapply sublist_NoDup; [done|apply sublist_delete].
    - split; [|done]. apply list_find_None in E. rewrite Forall_forall in E.
      intros Hin. by apply (E input). }
  assert (Hcut : ∀ l : list string,
            (length (if (100 <? length l)%nat then take 100 l else l) ≤ 100)%nat).
  { intros l. destruct (100 <? length l)%nat eqn:E.
    - rewrite length_take. lia.
    - apply Nat.ltb_ge in E. lia. }
  split; [|split; [|split; [|split]]].
  - intros H1 H2 H3. apply truthy_nonempty in H1. rewrite H1.
    rewrite !bool_decide_eq_false_2 by done. simpl.
    split; [|apply (Hcut (input :: h1))].
    by destruct (100 <? S (length h1))%nat.
  - intros [-> | [-> | ->]]; [done| |].
    + by replace (Js.truthy "/exit" && negb (bool_decide ("/exit" = "/exit"))
                  && negb (bool_decide ("/exit" = "exit"))) with false.
    + by replace (Js.truthy "exit" && negb (bool_decide ("exit" = "/exit"))
                  && negb (bool_decide ("exit" = "exit"))) with false.
  - intros Hlen. destruct (_ && _); [|done]. apply (Hcut (input :: h1)).
  - intros Hnd. destruct (_ && _); [|done].
    destruct (Hfresh Hnd) as [Hnot Hnd1].
    assert (NoDup (input :: h1)) by (by constructor).
    destruct (100 <? length (input :: h1))%nat; [|done].
    eapply sublist_NoDup; [done|apply sublist_take].
  - intros x. destruct (_ && _); [|by right].
    intros Hx.
    assert (x ∈ input :: h1) as Hx'.
    { destruct (100 <? length (input :: h1))%nat; [|done].
      eapply elem_of_sublist; [done|apply sublist_take]. }
    apply elem_of_cons in Hx' as [->|Hx']; [by left|]. right. by apply Hsub.
Qed.

Lemma X24_command_history_witness :
  head (recordCommand ["/list"; "/add milk"] "/add milk") = Some "/add milk"
  ∧ NoDup (recordCommand ["/list"; "/add milk"] "/add milk")
  ∧ recordCommand ["/list"; "/add milk"] "exit" = ["/list"; "/add milk"].
Proof.
  destruct (X24_command_history ["/list"; "/add milk"] "/add milk")
    as (Hhead & _ & _ & Hnd & _).
  split; [|split].
  - apply Hhead; discriminate.
  - apply Hnd. repeat constructor; rewrite ?elem_of_cons, ?elem_of_nil.
    + intros [H|[]]. discriminate.
    + tauto.
  - apply (X24_command_history ["/list"; "/add milk"] "exit"). by right; right.
Defined.

(** ** The prompt's conversation context *)

(** X25. The chat prompt shows the last three entries of the conversation
    history only: two histories that end in the same three entries give
    the same context, a history of at most three entries is shown whole,
    and an empty history gives no context. *)
Theorem X25_prompt_context_last_three (older1 older2 recent h : list string) :
  (length recent = 3%nat →
   historyContext (older1 ++ recent) = historyContext (older2 ++ recent))
  ∧ ((length h ≤ 3)%nat → sliceLast 3 h = h)
  ∧ length (sliceLast 3 h) = min 3 (length h)
  ∧ historyContext [] = EmptyString.
Proof.
  split; [|split; [|split]].
  - intros Hr.
    assert (Hs : ∀ older, sliceLast 3 (older ++ recent) = recent).
    { intros older. unfold sliceLast. rewrite length_app, Hr.
      replace (length older + 3 - 3)%nat with (length older) by lia.
      apply drop_app_length. }
    assert (Hl : ∀ older, (0 <? length (older ++ recent))%nat = true).
    { intros older. apply Nat.ltb_lt. rewrite length_app. lia. }
    unfold historyContext. by rewrite !Hl, !Hs.
  - intros Hh. unfold sliceLast. by replace (length h - 3)%nat with 0%nat by lia.
  - unfold sliceLast. rewrite length_drop. lia.
  - done.
Qed.

Lemma X25_prompt_context_last_three_witness :
  historyContext (["User: a"; "Assistant: b"] ++ ["User: c"; "Assistant: d"; "User: e"])
  = historyContext ([] ++ ["User: c"; "Assistant: d"; "User: e"]).
Proof.
  apply (X25_prompt_context_last_three ["User: a"; "Assistant: b"] []
           ["User: c"; "Assistant: d"; "User: e"] []).
  reflexivity.
Defined.

(** ** The history file *)

Lemma length_trimStart (s : string) : (String.length (Js.trimStart s) ≤ String.length s)%nat.
Proof. induction s as [|c s IH]; simpl; [done|]. destruct (Js.isSpace c); simpl; lia. Qed.

Lemma length_trimEnd (s : string) : (String.length (Js.trimEnd s) ≤ String.length s)%nat.
Proof.
  induction s as [|c s IH]; simpl; [done|].
  destruct (Js.trimEnd s); [destruct (Js.isSpace c)|]; simpl in *; lia.
Qed.

(** A trimmed, non-empty string starts and ends with a character that is
    not white space. *)
Lemma trim_fixed (e : string) :
  e ≠ EmptyString → Js.trim e = e →
  (∃ c e', e = String c e' ∧ Js.isSpace c = false) ∧ Js.trimEnd e = e.
Proof.
  intros Hne Htrim. destruct e as [|c e']; [done|].
  unfold Js.trim in Htrim. simpl in Htrim.
  destruct (Js.isSpace c) eqn:Hc.
  - pose proof (length_trimEnd (Js.trimStart e')) as H1.
    pose proof (length_trimStart e') as H2.
    rewrite Htrim in H1. simpl in H1. lia.
  - split; [by eexists _, _|]. done.
Qed.

Lemma string_app_assoc (a b c : string) : (a +:+ b) +:+ c = a +:+ (b +:+ c).
Proof.
  induction a as [|x a IH]; [done|].
  change (String x ((a +:+ b) +:+ c) = String x (a +:+ (b +:+ c))). by rewrite IH.
Qed.

Lemma string_app_cons (x : ascii) (a b : string) :
  String x a +:+ b = String x (a +:+ b).
Proof. done. Qed.

Lemma string_app_nonempty (a b : string) : b ≠ EmptyString → a +:+ b ≠ EmptyString.
Proof. destruct a; [done|]. discriminate. Qed.

(** White space at the end is dropped. *)
Lemma trimEnd_app_space (a t : string) :
  Js.trimEnd t = EmptyString → Js.trimEnd (a +:+ t) = Js.trimEnd a.
Proof.
  intros Ht. induction a as [|c a IH]; [done|].
  rewrite string_app_cons. simpl. by rewrite IH.
Qed.

(** Nothing is dropped before an end that stays. *)
Lemma trimEnd_app_fixed (a b : string) :
  b ≠ EmptyString → Js.trimEnd b = b → Js.trimEnd (a +:+ b) = a +:+ b.
Proof.
  intros Hne Hb. induction a as [|c a IH]; [done|].
  rewrite string_app_cons. simpl. rewrite IH.
  pose proof (string_app_nonempty a b Hne). by destruct (a +:+ b).
Qed.

Lemma join_cons (sep e : string) (l : list string) :
  l ≠ [] → join sep (e :: l) = e +:+ sep +:+ join sep l.
Proof. by destruct l. Qed.

(** The text of a non-empty list of entries is already trimmed, up to the
    final newline. *)
Lemma trim_join (l : list string) :
  l ≠ [] → Forall historyEntry l →
  Js.trim (join newlineString l +:+ newlineString) = join newlineString l.
Proof.
  intros Hne Hall.
  assert (Hend : ∀ l, l ≠ [] → Forall historyEntry l →
            join newlineString l ≠ EmptyString
            ∧ Js.trimEnd (join newlineString l) = join newlineString l).
  { clear. induction l as [|e l IH]; [done|]. intros _ Hall.
    apply Forall_cons in Hall as [(He & Ht & _) Hall].
    destruct (trim_fixed e He Ht) as [_ Hte].
    destruct l as [|e' l]; [done|].
    destruct (IH ltac:(done) Hall) as [IH1 IH2].
    rewrite join_cons by done. split.
    - destruct e; [done|]. discriminate.
    - rewrite <- string_app_assoc. by apply trimEnd_app_fixed. }
  destruct (Hend l Hne Hall) as [Hj Hte].
  destruct l as [|e l]; [done|].
  apply Forall_cons in Hall as [(He & Ht & _) Hall].
  destruct (trim_fixed e He Ht) as [(c & e' & -> & Hc) _].
  unfold Js.trim.
  assert (Hstart : ∀ x, Js.trimStart (join newlineString (String c e' :: l) +:+ x)
                        = join newlineString (String c e' :: l) +:+ x).
  { intros x. destruct l; simpl; by rewrite Hc. }
  rewrite Hstart, trimEnd_app_space by done. done.
Qed.

(** A string without the separator is one piece. *)
Lemma includes_char (e : string) (c : ascii) :
  Js.includes e (String c EmptyString) = false →
  ∀ k a, String.get k e = Some a → a ≠ c.
Proof.
  induction e as [|b e IH]; [done|]. simpl.
  destruct (ascii_dec c b) as [->|Hcb]; simpl.
  - by rewrite startsWith_empty.
  - intros Hinc [|k] a; simpl.
    + by intros [= <-] ->.
    + by apply IH.
Qed.

Lemma splitOn_app (c : ascii) (e rest : string) :
  Js.includes e (String c EmptyString) = false →
  splitOn c (e +:+ String c rest) = e :: splitOn c rest.
Proof.
  induction e as [|b e IH]; simpl.
  - intros _. by rewrite decide_True.
  - destruct (ascii_dec c b) as [->|Hcb]; simpl; [by rewrite startsWith_empty|].
    intros Hinc. rewrite decide_False by done. by rewrite IH.
Qed.

Lemma splitOn_one (c : ascii) (e : string) :
  Js.includes e (String c EmptyString) = false → splitOn c e = [e].
Proof.
  induction e as [|b e IH]; simpl; [done|].
  destruct (ascii_dec c b) as [->|Hcb]; simpl; [by rewrite startsWith_empty|].
  intros Hinc. rewrite decide_False by done. by rewrite IH.
Qed.

Lemma splitOn_join (l : list string) :
  l ≠ [] → Forall historyEntry l →
  splitOn newline (join newlineString l) = l.
Proof.
  induction l as [|e l IH]; [done|]. intros _ Hall.
  apply Forall_cons in Hall as [(_ & _ & Hnl) Hall].
  destruct l as [|e' l].
  - by apply splitOn_one.
  - rewrite join_cons by done. unfold newlineString at 1.
    change (String newline EmptyString +:+ ?x) with (String newline x).
    rewrite splitOn_app by done. by rewrite IH.
Qed.

Lemma unshift_all (lines history : list string) :
  foldl (λ h line, line :: h) history lines = reverse lines ++ history.
Proof.
  revert history. induction lines as [|x lines IH]; intros history; simpl; [done|].
  by rewrite IH, reverse_cons, <- app_assoc.
Qed.

(** X26. The history file round trip: what [saveHistory] writes for a
    history of trimmed, non-empty, one-line entries is read back by the
    start-up code as the same entries in the same order (newest first),
    cut to the 100 newest. An empty history writes nothing. *)
Theorem X26_history_file_round_trip (history : list string) :
  Forall historyEntry history →
  (history = [] → saveHistory history = None)
  ∧ (history ≠ [] →
     ∃ data, saveHistory history = Some data
             ∧ loadHistory [] data = take 100 history).
Proof.
  intros Hall. split; [by intros ->|]. intros Hne.
  unfold saveHistory. destruct history as [|e history]; [done|]. simpl length.
  eexists. split; [reflexivity|].
  set (saved := reverse (take 100 (e :: history))).
  assert (Hsaved : Forall historyEntry saved).
  { subst saved. apply Forall_reverse. by apply Forall_take. }
  assert (Hne' : saved ≠ []).
  { subst saved. simpl. rewrite reverse_cons. by intros [_ ?]%app_eq_nil. }
  unfold loadHistory. rewrite trim_join, splitOn_join by done.
  assert (Hfilter : filter (λ line, (0 < String.length line)%nat) saved = saved).
  { clear -Hsaved. induction Hsaved as [|x l (Hx & _) _ IH]; [done|].
    rewrite filter_cons_True; [by rewrite IH|]. destruct x; [done|]. simpl. lia. }
  rewrite Hfilter, unshift_all, app_nil_r. subst saved. apply reverse_involutive.
Qed.

Lemma X26_history_file_round_trip_witness :
  ∃ data, saveHistory ["/add Buy milk"; "/list"] = Some data
          ∧ loadHistory [] data = take 100 ["/add Buy milk"; "/list"].
Proof.
  apply (X26_history_file_round_trip ["/add Buy milk"; "/list"]).
  - repeat constructor; discriminate.
  - discriminate.
Defined.

(** ** Listing *)

Lemma applyFilter_elem (f : option Filter) (ts : list TodoItem) (t : TodoItem) :
  t ∈ fst (applyFilter f ts) →
  t ∈ ts
  ∧ (∀ f', f = Some f' → f_status f' = Some "completed" → completed t = true)
  ∧ (∀ f', f = Some f' → f_status f' = Some "active" → completed t = false).
Proof.
  unfold applyFilter. destruct f as [f|]; [|by intros ?].
  set (stage1 := match f_status f with
                 | Some st =>
                     if decide (st = "completed")
                     then (filter (λ t, completed t = true) ts, ["completed"])
                     else if decide (st = "active")
                          then (filter (λ t, completed t = false) ts, ["active"])
                          else (ts, [])
                 | None => (ts, [])
                 end).
  assert (H1 : ∀ t, t ∈ fst stage1 →
            t ∈ ts
            ∧ (f_status f = Some "completed" → completed t = true)
            ∧ (f_status f = Some "active" → completed t = false)).
  { intros u. subst stage1. destruct (f_status f) as [st|]; [|by intros ?].
    destruct (decide (st = "completed")) as [->|]; simpl.
    - rewrite list_elem_of_filter. by intros [? ?].
    - destruct (decide (st = "active")) as [->|]; simpl.
      + rewrite list_elem_of_filter. by intros [? ?].
      + intros ?. split; [done|]. split; congruence. }
  destruct stage1 as [ts1 d1]. simpl in H1.
  set (stage2 := if Js.truthyOpt (f_priority f)
                 then (filter (λ t, priorityName <$> priority t = f_priority f) ts1,
                       d1 ++ [default EmptyString (f_priority f) +:+ " priority"])
                 else (ts1, d1)).
  assert (H2 : ∀ t, t ∈ fst stage2 → t ∈ ts1).
  { intros u. subst stage2. destruct (Js.truthyOpt (f_priority f)); simpl; [|done].
    rewrite list_elem_of_filter. by intros [? ?]. }
  destruct stage2 as [ts2 d2]. simpl in H2.
  intros Hin.
  assert (t ∈ ts2) as Hin2.
  { destruct (Js.truthyOpt (f_category f)); simpl in Hin; [|done].
    apply list_elem_of_filter in Hin. tauto. }
  destruct (H1 t (H2 t Hin2)) as (Ht & Hc & Ha).
  split; [done|]. split; intros f' [= <-]; done.
Qed.

(** X27. Listing reads and does not write: [handleListTodos] changes nothing
    but the console, to which it adds one message. Without a current list
    that is the no-list message. With a current list, every row it prints
    is a todo of that list that passes the status filter, and the number
    printed with it is the 1-based position of the first todo of the list
    with that id. *)
Theorem X27_listing_reads_only (parsed : Command) (s : AppState) :
  (currentListEntry s = None →
   handleListTodos parsed s
   = (Returned tt, setConsole (console s ++ [NoCurrentListSelected]) s))
  ∧ (∀ i l, currentListEntry s = Some (i, l) →
     ∃ descr rows,
       handleListTodos parsed s
       = (Returned tt, setConsole (console s ++ [ListedTodos (name l) descr rows]) s)
       ∧ ∀ n t, (n, t) ∈ rows →
           t ∈ todos l
           ∧ 1 ≤ n ≤ Z.of_nat (length (todos l))
           ∧ (∃ u, todos l !! Z.to_nat (n - 1) = Some u ∧ id u = id t)
           ∧ (∀ j u, todos l !! j = Some u → (j < Z.to_nat (n - 1))%nat →
                id u ≠ id t)
           ∧ (∀ f, c_filter parsed = Some f → f_status f = Some "completed" →
                completed t = true)
           ∧ (∀ f, c_filter parsed = Some f → f_status f = Some "active" →
                completed t = false)).
Proof.
  split.
  - intros Hcur. unfold handleListTodos. run_handler. rewrite Hcur. by run_handler.
  - intros i l Hcur. unfold handleListTodos. run_handler. rewrite Hcur. run_handler.
    destruct (applyFilter (c_filter parsed) (todos l)) as [filtered descr] eqn:Ef.
    run_handler. eexists _, _. split; [done|].
    intros n t Hin. apply list_elem_of_fmap in Hin as (u & [= -> ->] & Hu).
    pose proof (applyFilter_elem (c_filter parsed) (todos l) u) as Hf.
    rewrite Ef in Hf. destruct (Hf Hu) as (Hut & Hc & Ha).
    split; [done|].
    unfold TodoService.findIndexById.
    destruct (list_find (λ todo, id todo = id u) (todos l)) as [[k v]|] eqn:Ek; simpl.
    + apply list_find_Some in Ek as (Hk & Hid & Hfirst).
      pose proof (lookup_lt_Some _ _ _ Hk).
      replace (Z.to_nat (Z.of_nat k + 1 - 1)) with k by lia.
      split; [lia|]. split; [by exists v|]. split; [|done].
      intros j w Hj Hlt. by eapply Hfirst.
    + apply list_find_None in Ek. rewrite Forall_forall in Ek. by destruct (Ek u Hut).
Qed.

Lemma X27_listing_reads_only_witness :
  ∃ descr rows,
    handleListTodos (plainCommand "list_todos") milkState
      = (Returned tt,
         setConsole (console milkState ++ [ListedTodos "Personal" descr rows]) milkState)
    ∧ ∀ n t, (n, t) ∈ rows →
        t ∈ [TodoService.createTodo "20000000-0000-4000-8000-000000000000" 2 3
               "Buy milk" TodoService.noOptions]
        ∧ 1 ≤ n ≤ Z.of_nat 1
        ∧ (∃ u, [TodoService.createTodo "20000000-0000-4000-8000-000000000000" 2 3
                   "Buy milk" TodoService.noOptions] !! Z.to_nat (n - 1) = Some u
                ∧ id u = id t)
        ∧ (∀ j u, [TodoService.createTodo "20000000-0000-4000-8000-000000000000" 2 3
                     "Buy milk" TodoService.noOptions] !! j = Some u →
                  (j < Z.to_nat (n - 1))%nat → id u ≠ id t)
        ∧ (∀ f, c_filter (plainCommand "list_todos") = Some f →
             f_status f = Some "completed" → completed t = true)
        ∧ (∀ f, c_filter (plainCommand "list_todos") = Some f →
             f_status f = Some "active" → completed t = false).
Proof.
  apply (X27_listing_reads_only (plainCommand "list_todos") milkState) with
    (i := 0%nat)
    (l := mkTodoList "10000000-0000-4000-8000-000000000000" "Personal"
            [TodoService.createTodo "20000000-0000-4000-8000-000000000000" 2 3
               "Buy milk" TodoService.noOptions] 0 1).
  reflexivity.
Defined.

(** ** Deleting by number *)

(** X28. With a current list whose todos have unique ids, a valid todo
    number and a database that accepts the delete, [handleDeleteTodo]
    removes exactly the todo at that 1-based position from the current
    list, leaves every other list and the current-list pointer alone, and
    prints that todo as deleted. *)
Theorem X28_delete_by_number (W : World) (parsed : Command) (s : AppState)
    (i : nat) (l : TodoList) (n : Z) (t : TodoItem) :
  currentListEntry s = Some (i, l) →
  NoDup (map id (todos l)) →
  c_todoNumber parsed = Some n →
  1 ≤ n ≤ Z.of_nat (length (todos l)) →
  todos l !! Z.to_nat (n - 1) = Some t →
  dbThrows W (dbCalls s) = None →
  lists (exec (handleDeleteTodo W parsed) s)
  = <[i := mkTodoList (list_id l) (name l) (delete (Z.to_nat (n - 1)) (todos l))
             (list_createdAt l) (list_updatedAt l)]> (lists s)
  ∧ currentListId (exec (handleDeleteTodo W parsed) s) = currentListId s
  ∧ console (exec (handleDeleteTodo W parsed) s) = console s ++ [DeletedTodo t].
Proof.
  intros Hcur Hnd Hn Hr Ht Hdb.
  pose proof (first_index_unique (todos l) _ t Hnd Ht) as Hfirst.
  unfold handleDeleteTodo. run_handler. rewrite Hcur. run_handler.
  rewrite (todoIndexOf_valid parsed _ n) by done. rewrite Ht. run_handler.
  rewrite Hcur. run_handler. rewrite Hdb. run_handler.
  unfold TodoService.findIndexById. rewrite Hfirst. run_handler. rewrite Hcur.
  done.
Qed.

Lemma X28_delete_by_number_witness :
  map (λ l, map title (todos l))
    (lists (exec (handleDeleteTodo sampleWorld (completeCommand 1)) milkState))
  = [[]]
  ∧ console (exec (handleDeleteTodo sampleWorld (completeCommand 1)) milkState)
    = console milkState
        ++ [DeletedTodo (TodoService.createTodo "20000000-0000-4000-8000-000000000000"
                           2 3 "Buy milk" TodoService.noOptions)].
Proof.
  destruct (X28_delete_by_number sampleWorld (completeCommand 1) milkState 0
              (mkTodoList "10000000-0000-4000-8000-000000000000" "Personal"
                 [TodoService.createTodo "20000000-0000-4000-8000-000000000000" 2 3
                    "Buy milk" TodoService.noOptions] 0 1)
              1 (TodoService.createTodo "20000000-0000-4000-8000-000000000000" 2 3
                   "Buy milk" TodoService.noOptions))
    as (Hl & _ & Hc); try reflexivity.
  - apply NoDup_singleton.
  - simpl. lia.
  - split; [by rewrite Hl|done].
Defined.

Lemma X6_findTodoByTitle_witness :
  TodoService.findTodoByTitle [milkTodo; reportTodo] "REPORT" = Some reportTodo
  ∧ TodoService.findTodoByTitle [milkTodo; reportTodo] EmptyString = Some milkTodo
  ∧ TodoService.findTodoByTitle [milkTodo; reportTodo] "dog" = None.
Proof.
  destruct (X6_findTodoByTitle [milkTodo; reportTodo] "dog") as (_ & Hnone & _).
  split; [reflexivity|]. split.
  - apply (X6_findTodoByTitle [milkTodo; reportTodo] EmptyString).
  - apply Hnone. intros t Hin.
    apply elem_of_cons in Hin as [->|Hin]; [reflexivity|].
    apply list_elem_of_singleton in Hin as ->. reflexivity.
Defined.

(** ** A [name] that is not a string *)

(** On the [name] of a [Command] the handler is [handleSwitchList]. *)
Lemma handleSwitchListAny_typed (digits : JsNumber.t → string) (parsed : Command)
    (s : AppState) :
  handleSwitchListAny digits (nameValue (c_name parsed)) s = handleSwitchList parsed s.
Proof.
  unfold handleSwitchListAny, handleSwitchList.
  by destruct (c_name parsed) as [nm|].
Qed.


